(** * aiocouchdb: the streaming multipart body reader

    A shallow embedding of [aiocouchdb/multipart.py] (classes
    [BodyPartReader], [MultipartReader] and [MultipartResponseWrapper])
    and the properties of its specification.

    Layout of the file:
    - byte strings, text and header mappings: the Python built-ins the
      readers use;
    - the collaborators outside the repository (aiohttp's stream and
      parsers, zlib, [bytes.decode], [int]) as two interfaces;
    - the monad of the coroutines: a store of streams, exceptions, fuel
      for the loops;
    - [BodyPartReader] and [MultipartReader], method by method;
    - concrete collaborators, used to run the readers on examples;
    - the wire format of a multipart body, the calls of a caller, the
      invariants of the stream position, example inputs;
    - the methods that deliver a payload as text or JSON, over the
      codecs and the JSON parser of the standard library, and the
      wrapper of the HTTP response, over the response;
    - the properties. *)

From Stdlib Require Import List ZArith Lia Bool String Ascii.
From Stdlib Require Import Strings.Byte.
Import ListNotations.

Set Implicit Arguments.

(* ================================================================== *)
(** * Byte strings *)

Definition bytes := list byte.

Definition CR : byte := x0d.
Definition LF : byte := x0a.
Definition CRLF : bytes := [CR; LF].

(** [b"..."] of Python for an ASCII literal. *)
Definition bytes_of (s : string) : bytes := list_byte_of_string s.

Fixpoint bytes_eqb (x y : bytes) : bool :=
  match x, y with
  | [], [] => true
  | a :: x', c :: y' => Byte.eqb a c && bytes_eqb x' y'
  | _, _ => false
  end.

(** [bytes.startswith(prefix)] *)
Fixpoint startswith (prefix s : bytes) : bool :=
  match prefix, s with
  | [], _ => true
  | a :: p', c :: s' => Byte.eqb a c && startswith p' s'
  | _ :: _, [] => false
  end.

(** [s.rstrip(chars)]: the longest suffix made of bytes of the set is
    removed.  The set is given by its membership test. *)
Definition rstrip_by (f : byte -> bool) (s : bytes) : bytes :=
  fold_right (fun c acc =>
                match acc with
                | [] => if f c then [] else [c]
                | _ :: _ => c :: acc
                end) [] s.

(** [line.rstrip(b'\r\n')] *)
Definition is_crlf_char (c : byte) : bool := Byte.eqb c CR || Byte.eqb c LF.
Definition rstrip_crlf : bytes -> bytes := rstrip_by is_crlf_char.

(** [chunk.rstrip()] on bytes: ASCII whitespace, that is space, tab,
    newline, carriage return, vertical tab and form feed. *)
Definition is_space (c : byte) : bool :=
  Byte.eqb c x20 || Byte.eqb c x09 || Byte.eqb c x0a
  || Byte.eqb c x0d || Byte.eqb c x0b || Byte.eqb c x0c.
Definition rstrip : bytes -> bytes := rstrip_by is_space.

(** One line of a buffer: up to and including the first line feed, or
    the whole buffer when it has none. *)
Fixpoint take_line (s : bytes) : bytes * bytes :=
  match s with
  | [] => ([], [])
  | c :: s' =>
      if Byte.eqb c LF then ([c], s')
      else let (l, r) := take_line s' in (c :: l, r)
  end.

(* ================================================================== *)
(** * Text *)

(** [str.strip()]: the characters of the Latin-1 range for which
    [str.isspace] holds. *)
Definition str_isspace (c : ascii) : bool :=
  let n := nat_of_ascii c in
  ((9 <=? n) && (n <=? 13) || (28 <=? n) && (n <=? 32)
   || (n =? 133) || (n =? 160))%nat.

Fixpoint str_lstrip (s : string) : string :=
  match s with
  | EmptyString => EmptyString
  | String c s' => if str_isspace c then str_lstrip s' else s
  end.

Fixpoint str_rstrip (s : string) : string :=
  match s with
  | EmptyString => EmptyString
  | String c s' =>
      match str_rstrip s' with
      | EmptyString => if str_isspace c then EmptyString else String c EmptyString
      | r => String c r
      end
  end.

Definition str_strip (s : string) : string := str_rstrip (str_lstrip s).

(** [not chunk] for a string *)
Definition str_is_empty (s : string) : bool :=
  match s with EmptyString => true | _ => false end.

(* ================================================================== *)
(** * Header mappings *)

Module hdrs.

(** Modelled from the spec: the header-name constants of the module
    [aiocouchdb/hdrs.py], imported by [multipart.py] and absent from
    the sources at hand.  The recognised per-part headers are
    [Content-Type], [Content-Length] and [Content-Encoding]. *)
Definition CONTENT_ENCODING : string := "Content-Encoding".
Definition CONTENT_LENGTH : string := "Content-Length".
Definition CONTENT_TYPE : string := "Content-Type".

End hdrs.

(** A header mapping is a case-insensitive multi-dictionary: an
    association list in arrival order, names compared without case. *)
Definition Headers := list (string * string).

Definition upper_ascii (c : ascii) : ascii :=
  let n := nat_of_ascii c in
  if ((97 <=? n) && (n <=? 122))%nat then ascii_of_nat (n - 32) else c.

Fixpoint str_upper (s : string) : string :=
  match s with
  | EmptyString => EmptyString
  | String c s' => String (upper_ascii c) (str_upper s')
  end.

(** [headers.get(name)]: the first value stored under the name. *)
Fixpoint hget (name : string) (hs : Headers) : option string :=
  match hs with
  | [] => None
  | (k, v) :: hs' =>
      if String.eqb (str_upper k) (str_upper name) then Some v
      else hget name hs'
  end.

(** The parameters of a media type, a plain dictionary. *)
Definition Params := list (string * string).

Fixpoint pget (name : string) (ps : Params) : option string :=
  match ps with
  | [] => None
  | (k, v) :: ps' => if String.eqb k name then Some v else pget name ps'
  end.

(** The result of [parse_mimetype]: type, subtype, suffix, parameters. *)
Record mimetype := { mtype : string; stype : string;
                     suffix : string; params : Params }.

(* ================================================================== *)
(** * Collaborators outside the repository *)

(** Python built-ins on text, aiohttp's parsers and zlib.  A result
    [None] stands for the exception the call raises. *)
Class Lib := {
  (** [bytes.decode()] *)
  bytes_decode : bytes -> option string;
  (** [str.encode()] *)
  str_encode : string -> bytes;
  (** [int(s)] *)
  py_int : string -> option Z;
  (** [aiohttp.protocol.HttpParser().parse_headers(lines)], its first
      component *)
  parse_headers : list string -> option Headers;
  (** [aiohttp.helpers.parse_mimetype] *)
  parse_mimetype : string -> mimetype;
  (** [zlib.decompress(data, wbits)] *)
  zlib_decompress : bytes -> Z -> option bytes
}.

(** The content stream of the HTTP response: "read a line" and "read up
    to n bytes".  Each operation returns the bytes delivered and the
    stream after the call. *)
Class Stream := {
  stream : Type;
  s_readline : stream -> bytes * stream;
  s_read : Z -> stream -> bytes * stream
}.

(** [zlib.MAX_WBITS] *)
Definition MAX_WBITS : Z := 15.

(* ================================================================== *)
(** * The monad of the coroutines *)

Inductive exn :=
| AssertionError
| ValueError
| KeyError
| AttributeError
| UnicodeDecodeError
| LookupError
| HttpParseError
| ZlibError.

Inductive outcome (A : Type) :=
| Ret (a : A)
| Raise (e : exn)
| OutOfFuel.

Arguments Ret {A} a.
Arguments Raise {A} e.
Arguments OutOfFuel {A}.

(** Readers hold a reference to the stream, never the stream: the
    store maps the references to the streams, and two readers with the
    same reference consume the same stream. *)
Definition content_ref := nat.

Section Monad.

Context {ST : Stream}.

Definition world := content_ref -> stream.

Definition upd (c : content_ref) (s : stream) (w : world) : world :=
  fun c' => if Nat.eqb c' c then s else w c'.

Definition M (A : Type) := world -> outcome (A * world).

Definition ret {A} (a : A) : M A := fun w => Ret (a, w).

Definition bind {A B} (m : M A) (k : A -> M B) : M B :=
  fun w => match m w with
           | Ret (a, w') => k a w'
           | Raise e => Raise e
           | OutOfFuel => OutOfFuel
           end.

Definition raise {A} (e : exn) : M A := fun _ => Raise e.

Definition out_of_fuel {A} : M A := fun _ => OutOfFuel.

(** [assert cond] *)
Definition assert (cond : bool) : M unit :=
  if cond then ret tt else raise AssertionError.

(** A value or the exception of a failed call *)
Definition lift_opt {A} (o : option A) (e : exn) : M A :=
  match o with Some a => ret a | None => raise e end.

(** [content.readline()] *)
Definition content_readline (c : content_ref) : M bytes :=
  fun w => let (l, s) := s_readline (w c) in Ret (l, upd c s w).

(** [content.read(n)] *)
Definition content_read (c : content_ref) (n : Z) : M bytes :=
  fun w => let (d, s) := s_read n (w c) in Ret (d, upd c s w).

End Monad.

Declare Scope py_scope.
Delimit Scope py_scope with py.
Notation "x <- m ;; k" := (bind m (fun x => k))
  (at level 61, m at next level, right associativity) : py_scope.
Notation "' p <- m ;; k" := (bind m (fun x => match x with p => k end))
  (at level 61, p pattern, m at next level, right associativity) : py_scope.
Notation "m ;;; k" := (bind m (fun _ => k))
  (at level 61, right associativity) : py_scope.
Open Scope py_scope.

(** [list.pop()]: the last element and the list without it *)
Definition pop {A} (l : list A) : option (A * list A) :=
  match rev l with
  | [] => None
  | x :: r => Some (x, rev r)
  end.

(* ================================================================== *)
(** * class BodyPartReader *)

Module BodyPartReader.

Record t := mk {
  headers : Headers;
  _boundary : bytes;
  _content : content_ref;
  _at_eof : bool;
  _length : option Z;
  _read_bytes : Z;
  _unread : list bytes
}.

Definition chunk_size : Z := 8192.

Definition set_at_eof (v : bool) (self : t) : t :=
  mk (headers self) (_boundary self) (_content self) v
     (_length self) (_read_bytes self) (_unread self).

Definition set_read_bytes (v : Z) (self : t) : t :=
  mk (headers self) (_boundary self) (_content self) (_at_eof self)
     (_length self) v (_unread self).

Definition set_unread (v : list bytes) (self : t) : t :=
  mk (headers self) (_boundary self) (_content self) (_at_eof self)
     (_length self) (_read_bytes self) v.

Section Methods.

Context {L : Lib} {ST : Stream}.

(** [__init__(self, boundary, headers, content)] *)
Definition init (boundary : bytes) (hs : Headers) (content : content_ref)
  : M t :=
  length <- match hget hdrs.CONTENT_LENGTH hs with
            | Some l => n <- lift_opt (py_int l) ValueError ;; ret (Some n)
            | None => ret None
            end ;;
  ret (mk hs boundary content false length 0%Z []).

(** [read_chunk(self, size)] *)
Definition read_chunk (size : Z) (self : t) : M (bytes * t) :=
  if _at_eof self then ret ([], self) else
  match _length self with
  | None => raise AssertionError
  | Some length =>
      let chunk_size := Z.min size (length - _read_bytes self) in
      chunk <- content_read (_content self) chunk_size ;;
      let self := set_read_bytes (_read_bytes self + chunk_size) self in
      let self := if (_read_bytes self =? length)%Z
                  then set_at_eof true self else self in
      ret (chunk, self)
  end.

(** [readline(self)] *)
Definition readline (self : t) : M (bytes * t) :=
  if _at_eof self then ret ([], self) else
  line <- content_readline (_content self) ;;
  if startswith (_boundary self) line then
    let sline := rstrip_crlf line in
    let boundary := _boundary self in
    let last_boundary := _boundary self ++ bytes_of "--" in
    if bytes_eqb sline boundary || bytes_eqb sline last_boundary then
      ret ([], set_unread (_unread self ++ [line]) (set_at_eof true self))
    else ret (line, self)
  else ret (line, self).

(** [decode_deflate(self, data)] *)
Definition decode_deflate (data : bytes) : M bytes :=
  lift_opt (zlib_decompress data (- MAX_WBITS)) ZlibError.

(** [decode_gzip(self, data)] *)
Definition decode_gzip (data : bytes) : M bytes :=
  lift_opt (zlib_decompress data (16 + MAX_WBITS)) ZlibError.

(** [getattr(self, name)] for a name that starts with [decode_]: the
    class has two such attributes. *)
Definition getattr (name : string) : option (bytes -> M bytes) :=
  if String.eqb name "decode_deflate" then Some decode_deflate
  else if String.eqb name "decode_gzip" then Some decode_gzip
  else None.

(** [decode(self, data)] *)
Definition decode (self : t) (data : bytes) : M bytes :=
  match hget hdrs.CONTENT_ENCODING (headers self) with
  | None => ret data
  | Some encoding =>
      if str_is_empty encoding then ret data
      else
        handler <- lift_opt (getattr ("decode_" ++ encoding)) AttributeError ;;
        handler data
  end.

(** The loop [while not self._at_eof: data.extend(self.readline())] *)
Fixpoint read_lines (fuel : nat) (data : bytes) (self : t) : M (bytes * t) :=
  if _at_eof self then ret (data, self) else
  match fuel with
  | O => out_of_fuel
  | S fuel' =>
      '(l, self) <- readline self ;;
      read_lines fuel' (data ++ l) self
  end.

(** The loop [while not self._at_eof: data.extend(self.read_chunk(...))] *)
Fixpoint read_chunks (fuel : nat) (data : bytes) (self : t) : M (bytes * t) :=
  if _at_eof self then ret (data, self) else
  match fuel with
  | O => out_of_fuel
  | S fuel' =>
      '(c, self) <- read_chunk chunk_size self ;;
      read_chunks fuel' (data ++ c) self
  end.

(** [read(self, *, decode=False)] *)
Definition read (fuel : nat) (decode_flag : bool) (self : t)
  : M (bytes * t) :=
  if _at_eof self then ret ([], self) else
  '(data, self) <-
     match _length self with
     | None => read_lines fuel [] self
     | Some _ =>
         '(data, self) <- read_chunks fuel [] self ;;
         l <- content_readline (_content self) ;;
         assert (bytes_eqb CRLF l) ;;;
         ret (data, self)
     end ;;
  if decode_flag then d <- decode self data ;; ret (d, self)
  else ret (data, self).

(** [next(self)] *)
Definition next (fuel : nat) (self : t) : M (option bytes * t) :=
  '(item, self) <- read fuel false self ;;
  match item with
  | [] => ret (None, self)
  | _ :: _ => ret (Some item, self)
  end.

(** [release(self)]: the two loops of [read], their data dropped *)
Definition release (fuel : nat) (self : t) : M t :=
  if _at_eof self then ret self else
  match _length self with
  | None => '(_, self) <- read_lines fuel [] self ;; ret self
  | Some _ =>
      '(_, self) <- read_chunks fuel [] self ;;
      l <- content_readline (_content self) ;;
      assert (bytes_eqb CRLF l) ;;;
      ret self
  end.

(** [at_eof(self)] *)
Definition at_eof (self : t) : bool := _at_eof self.

End Methods.

(** Two states of one part: the fields set at construction agree. *)
Definition same_part (self self' : t) : Prop :=
  headers self' = headers self /\ _boundary self' = _boundary self
  /\ _content self' = _content self /\ _length self' = _length self.

End BodyPartReader.

(* ================================================================== *)
(** * class MultipartReader *)

Module MultipartReader.

(** What [next] yields is a body part reader or, for a part that is
    itself multipart, a reader of the same class.  The reader keeps the
    part it yielded last in [_last_part]; the caller's reference to the
    part and this field are the same object, so the part is stored here
    once and the caller works on it in place (see [on_last_part]). *)
Inductive part :=
| BodyPart (b : BodyPartReader.t)
| Multipart (m : t)
with t :=
| mk (headers : Headers) (_boundary : bytes) (_content : content_ref)
     (_last_part : option part) (_at_eof : bool) (_unread : list bytes).

Definition headers (self : t) : Headers :=
  match self with mk h _ _ _ _ _ => h end.
Definition _boundary (self : t) : bytes :=
  match self with mk _ b _ _ _ _ => b end.
Definition _content (self : t) : content_ref :=
  match self with mk _ _ c _ _ _ => c end.
Definition _last_part (self : t) : option part :=
  match self with mk _ _ _ p _ _ => p end.
Definition _at_eof (self : t) : bool :=
  match self with mk _ _ _ _ e _ => e end.
Definition _unread (self : t) : list bytes :=
  match self with mk _ _ _ _ _ u => u end.

Definition set_last_part (v : option part) (self : t) : t :=
  mk (headers self) (_boundary self) (_content self) v
     (_at_eof self) (_unread self).

Definition set_at_eof (v : bool) (self : t) : t :=
  mk (headers self) (_boundary self) (_content self) (_last_part self)
     v (_unread self).

Definition set_unread (v : list bytes) (self : t) : t :=
  mk (headers self) (_boundary self) (_content self) (_last_part self)
     (_at_eof self) v.

(** [part.at_eof()] and [part._unread], whatever the class of the part *)
Definition part_at_eof (p : part) : bool :=
  match p with
  | BodyPart b => BodyPartReader.at_eof b
  | Multipart m => _at_eof m
  end.

Definition part_unread (p : part) : list bytes :=
  match p with
  | BodyPart b => BodyPartReader._unread b
  | Multipart m => _unread m
  end.

Section Methods.

Context {L : Lib} {ST : Stream}.

(** [_get_boundary(self)] *)
Definition _get_boundary (hs : Headers) : M string :=
  ctype <- lift_opt (hget hdrs.CONTENT_TYPE hs) KeyError ;;
  let mt := parse_mimetype ctype in
  assert (String.eqb (mtype mt) "multipart") ;;;
  lift_opt (pget "boundary" (params mt)) KeyError.

(** [__init__(self, headers, content)] *)
Definition init (hs : Headers) (content : content_ref) : M t :=
  boundary <- _get_boundary hs ;;
  ret (mk hs (str_encode ("--" ++ boundary)) content None false []).

(** [at_eof(self)] *)
Definition at_eof (self : t) : bool := _at_eof self.

(** [_readline(self)] *)
Definition _readline (self : t) : M (bytes * t) :=
  match pop (_unread self) with
  | Some (line, rest) => ret (line, set_unread rest self)
  | None => line <- content_readline (_content self) ;; ret (line, self)
  end.

(** [_read_boundary(self)] *)
Definition _read_boundary (self : t) : M t :=
  '(line, self) <- _readline self ;;
  let chunk := rstrip line in
  if bytes_eqb chunk (_boundary self) then ret self
  else if bytes_eqb chunk (_boundary self ++ bytes_of "--")
  then ret (set_at_eof true self)
  else raise ValueError.

(** The loop of [_read_headers] *)
Fixpoint _read_headers_loop (fuel : nat) (c : content_ref)
  (lines : list string) : M (list string) :=
  match fuel with
  | O => out_of_fuel
  | S fuel' =>
      chunk <- content_readline c ;;
      chunk <- lift_opt (bytes_decode chunk) UnicodeDecodeError ;;
      let chunk := str_strip chunk in
      let lines := lines ++ [chunk] in
      if str_is_empty chunk then ret lines
      else _read_headers_loop fuel' c lines
  end.

(** [_read_headers(self)] *)
Definition _read_headers (fuel : nat) (self : t) : M Headers :=
  lines <- _read_headers_loop fuel (_content self) [""%string] ;;
  lift_opt (parse_headers lines) HttpParseError.

(** [_get_part_reader(self, headers)], with the class attributes
    [multipart_reader_cls = None] and [part_reader_cls = BodyPartReader] *)
Definition _get_part_reader (self : t) (hs : Headers) : M part :=
  let ctype := match hget hdrs.CONTENT_TYPE hs with
               | Some v => v
               | None => ""%string
               end in
  let mt := parse_mimetype ctype in
  if String.eqb (mtype mt) "multipart" then
    m <- init hs (_content self) ;; ret (Multipart m)
  else
    b <- BodyPartReader.init (_boundary self) hs (_content self) ;;
    ret (BodyPart b).

(** [fetch_next_part(self)] *)
Definition fetch_next_part (fuel : nat) (self : t) : M part :=
  hs <- _read_headers fuel self ;;
  _get_part_reader self hs.

(** [next] and [release] call each other through the parts: [next]
    releases the last part, which may be a nested reader, and the
    release of a reader calls its [next].  The methods are first
    written over the release of a part, then tied on the fuel. *)
Section OverRelease.

Variable part_release : part -> M part.

(** [_maybe_release_last_part(self)] *)
Definition _maybe_release_last_part_with (self : t) : M t :=
  match _last_part self with
  | Some p =>
      p <- (if negb (part_at_eof p) then part_release p else ret p) ;;
      let self := set_unread (_unread self ++ part_unread p) self in
      ret (set_last_part None self)
  | None => ret self
  end.

(** [next(self)] *)
Definition next_with (fuel : nat) (self : t) : M (option part * t) :=
  if _at_eof self then ret (None, self) else
  self <- _maybe_release_last_part_with self ;;
  self <- _read_boundary self ;;
  if _at_eof self then ret (None, self) else
  p <- fetch_next_part fuel self ;;
  ret (Some p, set_last_part (Some p) self).

End OverRelease.

(** [item.release()] for either class of part *)
Definition part_release_with (release : t -> M t) (fuel : nat) (p : part)
  : M part :=
  match p with
  | BodyPart b => b <- BodyPartReader.release fuel b ;; ret (BodyPart b)
  | Multipart m => m <- release m ;; ret (Multipart m)
  end.

(** [release(self)]: the item that [next] returns is [self._last_part],
    and releasing it updates that object ([next] never returns an item
    without storing it there). *)
Fixpoint release (fuel : nat) (self : t) : M t :=
  if _at_eof self then ret self else
  match fuel with
  | O => out_of_fuel
  | S fuel' =>
      let part_release := part_release_with (release fuel') fuel' in
      '(item, self) <- next_with part_release fuel' self ;;
      match item with
      | None => ret self
      | Some _ =>
          match _last_part self with
          | Some p =>
              p <- part_release p ;;
              release fuel' (set_last_part (Some p) self)
          | None => ret self
          end
      end
  end.

Definition part_release (fuel : nat) : part -> M part :=
  part_release_with (release fuel) fuel.

Definition _maybe_release_last_part (fuel : nat) : t -> M t :=
  _maybe_release_last_part_with (part_release fuel).

Definition next (fuel : nat) : t -> M (option part * t) :=
  next_with (part_release fuel) fuel.

(** A call of the caller on the part that [next] yielded: the part is
    the object in [_last_part], updated in place. *)
Definition on_last_part {A} (op : BodyPartReader.t -> M (A * BodyPartReader.t))
  (self : t) : M (A * t) :=
  match _last_part self with
  | Some (BodyPart b) =>
      '(a, b) <- op b ;; ret (a, set_last_part (Some (BodyPart b)) self)
  | _ => raise AttributeError
  end.

End Methods.

End MultipartReader.

(* ================================================================== *)
(** * Concrete collaborators

    Stand-ins for the code outside the repository, used to run the
    readers on examples.  The theorems that hold for every collaborator
    do not depend on them. *)

Module Buffered.

(** A response body that has arrived in full: the stream is the bytes
    not consumed yet, followed by the end of the response.  A read of
    [n] bytes delivers [n] bytes while there are that many, a negative
    [n] reads to the end. *)
Definition readline (s : bytes) : bytes * bytes := take_line s.

Definition read (n : Z) (s : bytes) : bytes * bytes :=
  if (n <? 0)%Z then (s, [])
  else (firstn (Z.to_nat n) s, skipn (Z.to_nat n) s).

#[export] Instance Stream : Stream :=
  {| stream := bytes; s_readline := readline; s_read := read |}.

End Buffered.

Module Chunked.

(** A response body that arrives in pieces: the stream is the queue of
    the pieces received and not consumed yet.  A line is assembled
    across pieces; a read of [n] bytes delivers at most the rest of the
    first piece. *)
Definition ends_with_lf (l : bytes) : bool :=
  match rev l with
  | c :: _ => Byte.eqb c LF
  | [] => false
  end.

Definition requeue (r : bytes) (q : list bytes) : list bytes :=
  match r with [] => q | _ :: _ => r :: q end.

Fixpoint readline (q : list bytes) : bytes * list bytes :=
  match q with
  | [] => ([], [])
  | c :: q' =>
      let (l, r) := take_line c in
      if ends_with_lf l then (l, requeue r q')
      else let (l', q'') := readline q' in (l ++ l', q'')
  end.

Definition read (n : Z) (q : list bytes) : bytes * list bytes :=
  if (n <? 0)%Z then (List.concat q, [])
  else if (n =? 0)%Z then ([], q)
  else match q with
       | [] => ([], [])
       | c :: q' =>
           (firstn (Z.to_nat n) c, requeue (skipn (Z.to_nat n) c) q')
       end.

#[export] Instance Stream : Stream :=
  {| stream := list bytes; s_readline := readline; s_read := read |}.

End Chunked.

Module Plain.

(** Text of the ASCII range, header lines of the form [Name: value],
    media types of the form [type/subtype; key=value; ...], decimal
    lengths, and a codec that stores the payload after a marker. *)

Definition byte_is_ascii (c : byte) : bool := (Byte.to_nat c <? 128)%nat.

Definition decode (d : bytes) : option string :=
  if forallb byte_is_ascii d then Some (string_of_list_byte d) else None.

Definition encode (s : string) : bytes := list_byte_of_string s.

Definition digit (c : ascii) : option Z :=
  let n := nat_of_ascii c in
  if ((48 <=? n) && (n <=? 57))%nat then Some (Z.of_nat (n - 48)) else None.

Fixpoint int_acc (acc : Z) (s : string) : option Z :=
  match s with
  | EmptyString => Some acc
  | String c s' =>
      match digit c with
      | Some d => int_acc (10 * acc + d) s'
      | None => None
      end
  end.

Definition int (s : string) : option Z :=
  match s with
  | EmptyString => None
  | _ => int_acc 0 s
  end.

(** The text before the first occurrence of a character and the text
    after it. *)
Fixpoint split_first (c : ascii) (s : string) : option (string * string) :=
  match s with
  | EmptyString => None
  | String a s' =>
      if Ascii.eqb a c then Some (EmptyString, s')
      else match split_first c s' with
           | Some (l, r) => Some (String a l, r)
           | None => None
           end
  end.

Fixpoint split_all (fuel : nat) (c : ascii) (s : string) : list string :=
  match fuel with
  | O => [s]
  | S fuel' =>
      match split_first c s with
      | Some (l, r) => l :: split_all fuel' c r
      | None => [s]
      end
  end.

Fixpoint header_lines (lines : list string) : option Headers :=
  match lines with
  | [] => Some []
  | line :: rest =>
      if str_is_empty line then Some []
      else match split_first ":" line, header_lines rest with
           | Some (k, v), Some hs =>
               Some ((str_upper (str_strip k), str_strip v) :: hs)
           | _, _ => None
           end
  end.

(** The first line is the place of the status line and is skipped. *)
Definition parse_headers (lines : list string) : option Headers :=
  header_lines (tl lines).

Definition lower_ascii (c : ascii) : ascii :=
  let n := nat_of_ascii c in
  if ((65 <=? n) && (n <=? 90))%nat then ascii_of_nat (n + 32) else c.

Fixpoint str_lower (s : string) : string :=
  match s with
  | EmptyString => EmptyString
  | String c s' => String (lower_ascii c) (str_lower s')
  end.

Definition param (item : string) : string * string :=
  match split_first "=" item with
  | Some (k, v) => (str_lower (str_strip k), str_strip v)
  | None => (str_lower (str_strip item), EmptyString)
  end.

Definition parse_mimetype (s : string) : mimetype :=
  match split_all (String.length s) ";" s with
  | [] => Build_mimetype "" "" "" []
  | full :: items =>
      let full := str_lower (str_strip full) in
      let ps := map param (filter (fun i => negb (str_is_empty i)) items) in
      match split_first "/" full with
      | Some (m, st) => Build_mimetype m st "" ps
      | None => Build_mimetype full "" "" ps
      end
  end.



Fixpoint load_bytes (d : bytes) : option bytes :=
  match d with
  | [] => None
  | m :: d1 =>
      if Byte.eqb m x00 then Some []
      else if Byte.eqb m x01 then
        match d1 with
        | [] => None
        | c :: d2 =>
            match load_bytes d2 with
            | Some p => Some (c :: p)
            | None => None
            end
        end
      else None
  end.

Definition decompress (d : bytes) (wbits : Z) : option bytes :=
  match d with
  | m :: d1 =>
      if (wbits =? 16 + MAX_WBITS)%Z && Byte.eqb m x1f then load_bytes d1
      else if (wbits =? - MAX_WBITS)%Z && Byte.eqb m x01 then load_bytes d1
      else None
  | [] => None
  end.

#[export] Instance Lib : Lib :=
  Build_Lib decode encode int parse_headers parse_mimetype decompress.

End Plain.

(* ================================================================== *)
(** * The wire format

    The multipart body as it travels: for each part a delimiter line,
    the header lines, a blank line, the payload and a line terminator;
    after the last part the terminator line.  The boundary token is the
    delimiter as the reader holds it, with its two leading dashes. *)

Module Wire.

Record part := { header_lines : list bytes; payload : bytes }.

Definition header_block (p : part) : bytes :=
  List.concat (map (fun l => l ++ CRLF) (header_lines p)) ++ CRLF.

Definition render_part (boundary : bytes) (p : part) : bytes :=
  boundary ++ CRLF ++ header_block p ++ payload p ++ CRLF.

Definition terminator (boundary : bytes) : bytes :=
  boundary ++ bytes_of "--" ++ CRLF.

Definition render (boundary : bytes) (ps : list part) : bytes :=
  List.concat (map (render_part boundary) ps) ++ terminator boundary.

(** The bytes that lie between the header block of a part and the
    boundary line that follows it. *)
Definition between (p : part) : bytes := payload p ++ CRLF.

(** The lines of a buffer, each with its line feed; the last one may
    lack it. *)
Fixpoint split_lines (s : bytes) : list bytes :=
  match s with
  | [] => []
  | c :: s' =>
      if Byte.eqb c LF then [c] :: split_lines s'
      else match split_lines s' with
           | [] => [[c]]
           | l :: ls => (c :: l) :: ls
           end
  end.

(** A line that reads as the delimiter or as the terminator once its
    trailing carriage returns and line feeds are removed. *)
Definition matches_boundary (boundary line : bytes) : bool :=
  bytes_eqb (rstrip_crlf line) boundary
  || bytes_eqb (rstrip_crlf line) (boundary ++ bytes_of "--").

Definition has_lf (l : bytes) : bool := existsb (fun c => Byte.eqb c LF) l.

Definition well_formed_boundary (boundary : bytes) : bool :=
  negb (has_lf boundary) && bytes_eqb (rstrip boundary) boundary.

Section WellFormed.

Context {L : Lib}.

(** The text of a header line as the reader sees it. *)
Definition header_text (l : bytes) : option string :=
  option_map str_strip (bytes_decode (l ++ CRLF)).

Fixpoint header_texts (ls : list bytes) : option (list string) :=
  match ls with
  | [] => Some []
  | l :: ls' =>
      match header_text l, header_texts ls' with
      | Some t, Some ts => if str_is_empty t then None else Some (t :: ts)
      | _, _ => None
      end
  end.

(** The header mapping that the parser makes of the header block. *)
Definition block_headers (p : part) : option Headers :=
  match header_texts (header_lines p), header_text [] with
  | Some ts, Some t0 =>
      if str_is_empty t0 then parse_headers (""%string :: ts ++ [t0])
      else None
  | _, _ => None
  end.

Definition part_headers (p : part) : Headers :=
  match block_headers p with Some hs => hs | None => [] end.

Definition content_type (hs : Headers) : string :=
  match hget hdrs.CONTENT_TYPE hs with Some v => v | None => ""%string end.

(** A well-formed part with a payload of its own: the header lines are
    lines, the parser accepts them, the media type is not multipart,
    and either the declared length is the length of the payload or no
    line of the payload reads as a boundary. *)
Definition well_formed_part (boundary : bytes) (p : part) : bool :=
  forallb (fun l => negb (has_lf l)) (header_lines p)
  && match block_headers p with
     | None => false
     | Some hs =>
         negb (String.eqb (mtype (parse_mimetype (content_type hs)))
                          "multipart")
         && match hget hdrs.CONTENT_LENGTH hs with
            | None =>
                forallb (fun l => negb (matches_boundary boundary l))
                        (split_lines (between p))
            | Some v =>
                match py_int v with
                | Some n => (n =? Z.of_nat (List.length (payload p)))%Z
                | None => false
                end
            end
     end.

Definition well_formed (boundary : bytes) (ps : list part) : bool :=
  well_formed_boundary boundary && forallb (well_formed_part boundary) ps.

(** What [read] returns for a part, by its mode. *)
Definition expected_read (p : part) : bytes :=
  match hget hdrs.CONTENT_LENGTH (part_headers p) with
  | None => payload p ++ CRLF
  | Some _ => payload p
  end.

End WellFormed.

End Wire.

(* ================================================================== *)
(** * Callers *)

Module Caller.

Section Calls.

Context {L : Lib} {ST : Stream}.

(** Successive [read_chunk] calls with the given sizes, the chunks
    joined. *)
Fixpoint chunk_calls (sizes : list Z) (b : BodyPartReader.t)
  : M (bytes * BodyPartReader.t) :=
  match sizes with
  | [] => ret ([], b)
  | n :: sizes' =>
      '(d, b) <- BodyPartReader.read_chunk n b ;;
      '(ds, b) <- chunk_calls sizes' b ;;
      ret (d ++ ds, b)
  end.

(** [k] successive [readline] calls, the lines joined. *)
Fixpoint line_calls (k : nat) (b : BodyPartReader.t)
  : M (bytes * BodyPartReader.t) :=
  match k with
  | O => ret ([], b)
  | S k' =>
      '(d, b) <- BodyPartReader.readline b ;;
      '(ds, b) <- line_calls k' b ;;
      ret (d ++ ds, b)
  end.

(** The loop of a caller that reads every part in full:
    [next()], [read()] on the part, until [next()] returns [None]. *)
Fixpoint read_parts (fuel : nat) (self : MultipartReader.t)
  : M (list (Headers * bytes) * MultipartReader.t) :=
  match fuel with
  | O => out_of_fuel
  | S fuel' =>
      '(item, self) <- MultipartReader.next fuel' self ;;
      match item with
      | None => ret ([], self)
      | Some p =>
          '(data, self) <-
             MultipartReader.on_last_part
               (BodyPartReader.read fuel' false) self ;;
          let hs := match p with
                    | MultipartReader.BodyPart b => BodyPartReader.headers b
                    | MultipartReader.Multipart m => MultipartReader.headers m
                    end in
          '(rest, self) <- read_parts fuel' self ;;
          ret ((hs, data) :: rest, self)
      end
  end.




End Calls.

End Caller.

(* ================================================================== *)
(** * Running a coroutine on one stream *)

(** [runs m c s a s']: in every store where the reference [c] holds the
    stream [s], the coroutine [m] returns [a] and leaves the stream
    [s'] under [c]. *)
Definition runs {ST : Stream} {A} (m : M A) (c : content_ref)
  (s : stream) (a : A) (s' : stream) : Prop :=
  forall w, w c = s -> exists w', m w = Ret (a, w') /\ w' c = s'.

(** The outcome of a run as seen from outside: the result and the
    stream left under one reference. *)
Definition observe {ST : Stream} {A} (c : content_ref)
  (o : outcome (A * world)) : outcome (A * stream) :=
  match o with
  | Ret (a, w) => Ret (a, w c)
  | Raise e => Raise e
  | OutOfFuel => OutOfFuel
  end.

(** The store where every reference holds the same stream. *)
Definition store {ST : Stream} (s : stream) : world := fun _ => s.

(* ================================================================== *)
(** * Example inputs *)

Module Examples.

Import Plain.

Definition ln (s : string) : bytes := bytes_of s ++ CRLF.

Definition XBOUND : bytes := bytes_of "--XBOUND".

(** A part that declares five bytes, and the stream at its payload. *)
Definition hello_headers : Headers := [("CONTENT-LENGTH", "5")%string].

Definition hello_part : BodyPartReader.t :=
  BodyPartReader.mk hello_headers XBOUND 0 false (Some 5%Z) 0%Z [].

Definition hello_stream : bytes := ln "hello" ++ ln "--XBOUND--".

(** The same payload with no line terminator after it. *)
Definition hello_overlong : bytes := ln "helloXX" ++ ln "--XBOUND--".

(** The same payload arriving in two pieces. *)
Definition hello_pieces : list bytes :=
  [bytes_of "he"; bytes_of "llo" ++ CRLF; ln "--XBOUND--"].

(** A part without a declared length, and the stream at its payload. *)
Definition text_part : BodyPartReader.t :=
  BodyPartReader.mk [] XBOUND 0 false None 0%Z [].

Definition text_stream : bytes := ln "one" ++ ln "two" ++ ln "--XBOUND--".




(** A reader at the start of a body. *)
Definition reader : MultipartReader.t :=
  MultipartReader.mk
    [("CONTENT-TYPE", "multipart/mixed; boundary=XBOUND")%string]
    XBOUND 0 None false [].

(** The body of the scenario, two parts, and the same body with the
    first boundary line damaged. *)
Definition json_part : Wire.part :=
  {| Wire.header_lines := [bytes_of "Content-Type: application/json"];
     Wire.payload := bytes_of "{a:1}" |}.

Definition hello_wire : Wire.part :=
  {| Wire.header_lines := [bytes_of "Content-Type: text/plain; charset=utf-8";
                           bytes_of "Content-Length: 5"];
     Wire.payload := bytes_of "hello" |}.

Definition scenario : bytes := Wire.render XBOUND [json_part; hello_wire].



(** A body whose first part is itself multipart, with two parts of its
    own, followed by a plain part. *)
Definition nested : bytes :=
  ln "--XBOUND"
  ++ ln "Content-Type: multipart/related; boundary=INNER" ++ ln ""
  ++ ln "--INNER" ++ ln "Content-Type: text/plain" ++ ln ""
  ++ ln "inner one"
  ++ ln "--INNER" ++ ln "Content-Length: 3" ++ ln ""
  ++ ln "abc"
  ++ ln "--INNER--"
  ++ ln "--XBOUND" ++ ln "Content-Type: text/plain" ++ ln ""
  ++ ln "outer two"
  ++ ln "--XBOUND--".

(** The class of a part and its headers. *)
Definition kind (p : option MultipartReader.part) : string * Headers :=
  match p with
  | Some (MultipartReader.BodyPart b) => ("body"%string, BodyPartReader.headers b)
  | Some (MultipartReader.Multipart m) =>
      ("multipart"%string, MultipartReader.headers m)
  | None => ("none"%string, [])
  end.

Definition padded_boundary : bytes :=
  bytes_of "--XBOUND " ++ CRLF ++ skipn 10 scenario.

Definition wrong_boundary : bytes :=
  ln "--WRONG" ++ skipn 10 scenario.

End Examples.

(* ================================================================== *)
(** * Statements with a parameter

    Two properties are stated over the way a line is stripped, or over
    the bytes a part is expected to deliver, so that a reading of the
    specification and the behaviour of the code are instances of one
    statement. *)

Module Statement.

Section Statements.

Context {L : Lib} {ST : Stream}.

(** Whenever [next] reads a line where a boundary is expected and the
    stripped line is neither the delimiter nor the terminator, [next]
    raises [ValueError]. *)
Definition boundary_checked (strip : bytes -> bytes) (fuel : nat)
  (self : MultipartReader.t) (w : world) : Prop :=
  forall self1 w1 line self2 w2,
    MultipartReader._at_eof self = false ->
    MultipartReader._maybe_release_last_part fuel self w = Ret (self1, w1) ->
    MultipartReader._readline self1 w1 = Ret (line, self2, w2) ->
    strip line <> MultipartReader._boundary self ->
    strip line <> MultipartReader._boundary self ++ bytes_of "--" ->
    MultipartReader.next fuel self w = Raise ValueError.

(** Every declared encoding other than gzip and deflate makes [decode]
    raise [AttributeError]. *)
Definition other_encodings_fail (self : BodyPartReader.t) : Prop :=
  forall encoding data w,
    hget hdrs.CONTENT_ENCODING (BodyPartReader.headers self) = Some encoding ->
    encoding <> "gzip"%string -> encoding <> "deflate"%string ->
    BodyPartReader.decode self data w = Raise AttributeError.

End Statements.

(** On a body that has arrived in full, a caller that reads every part
    gets the parts in order, each with its headers and the expected
    bytes, then the end of the body. *)
Definition reads_in_order {L : Lib} (expected : Wire.part -> bytes)
  (boundary : bytes) (ps : list Wire.part) : Prop :=
  forall (hs : Headers) (c : content_ref) (fuel : nat),
    (List.length (Wire.render boundary ps) < fuel)%nat ->
    exists self,
      runs (ST := Buffered.Stream)
        (Caller.read_parts fuel
           (MultipartReader.mk hs boundary c None false []))
        c (Wire.render boundary ps)
        (map (fun p => (Wire.part_headers p, expected p)) ps, self) []
      /\ MultipartReader.at_eof self = true.

End Statement.

(* ================================================================== *)
(** * Positions in a body

    Where the stream stands while a caller works through a body that
    has arrived in full: the invariants of the proofs of ordering and
    of the drain. *)

Module Position.

(** A line with its line feed and no other. *)
Definition complete (l : bytes) : Prop :=
  exists l0, l = l0 ++ [LF] /\ Wire.has_lf l0 = false.

(** The boundary line that starts the rest of a body, and what follows
    that line. *)
Definition next_line (boundary : bytes) (ps : list Wire.part) : bytes :=
  match ps with
  | [] => Wire.terminator boundary
  | _ :: _ => boundary ++ CRLF
  end.

Definition after_line (boundary : bytes) (ps : list Wire.part) : bytes :=
  match ps with
  | [] => []
  | p :: ps' =>
      Wire.header_block p ++ Wire.between p ++ Wire.render boundary ps'
  end.

Section Positions.

Context {L : Lib}.

(** The length that a part declares. *)
Definition declared_length (p : Wire.part) : option Z :=
  match hget hdrs.CONTENT_LENGTH (Wire.part_headers p) with
  | None => None
  | Some v => py_int v
  end.

(** The body part reader that [next] constructs for a part. *)
Definition fresh_part (boundary : bytes) (c : content_ref) (p : Wire.part)
  : BodyPartReader.t :=
  BodyPartReader.mk (Wire.part_headers p) boundary c false
    (declared_length p) 0%Z [].

End Positions.

(** A part reader [b] and the stream, somewhere in the payload of the
    part or past it; [rest] is the body from the next boundary line. *)
Inductive in_part (boundary : bytes) (c : content_ref) (rest : bytes)
  : BodyPartReader.t -> bytes -> Prop :=
| in_lines (b : BodyPartReader.t) (ls : list bytes) :
    BodyPartReader._at_eof b = false ->
    BodyPartReader._length b = None ->
    BodyPartReader._boundary b = boundary ->
    BodyPartReader._content b = c ->
    BodyPartReader._unread b = [] ->
    Forall complete ls ->
    Forall (fun l => Wire.matches_boundary boundary l = false) ls ->
    in_part boundary c rest b (List.concat ls ++ rest)
| past_lines (b : BodyPartReader.t) (line rest' : bytes) :
    BodyPartReader._at_eof b = true ->
    BodyPartReader._unread b = [line] ->
    rest = line ++ rest' ->
    complete line ->
    in_part boundary c rest b rest'
| in_bytes (b : BodyPartReader.t) (n : Z) (x : bytes) :
    BodyPartReader._at_eof b = false ->
    BodyPartReader._length b = Some n ->
    BodyPartReader._content b = c ->
    BodyPartReader._unread b = [] ->
    (Z.of_nat (List.length x) = n - BodyPartReader._read_bytes b)%Z ->
    in_part boundary c rest b (x ++ CRLF ++ rest)
| past_bytes (b : BodyPartReader.t) :
    BodyPartReader._at_eof b = true ->
    BodyPartReader._unread b = [] ->
    in_part boundary c rest b rest.

(** A reader and the stream between two calls of [next]; [ps] are the
    parts still to come. *)
Inductive between_parts (boundary : bytes) (c : content_ref) (hs : Headers)
  (ps : list Wire.part) : MultipartReader.t -> bytes -> Prop :=
| at_start :
    between_parts boundary c hs ps
      (MultipartReader.mk hs boundary c None false [])
      (Wire.render boundary ps)
| after_part (b : BodyPartReader.t) (s : bytes) :
    in_part boundary c (Wire.render boundary ps) b s ->
    between_parts boundary c hs ps
      (MultipartReader.mk hs boundary c
         (Some (MultipartReader.BodyPart b)) false [])
      s.

End Position.

(* ================================================================== *)
(** * Statements over every content stream

    Two properties as the specification states them, for a content
    stream of any kind; [contents] gives the bytes that a stream still
    holds, however they arrive. *)

Module AsStated.

Section Statements.

Context {L : Lib} {ST : Stream}.

Variable contents : stream -> bytes.



End Statements.

End AsStated.

(* ================================================================== *)
(** * The rest of the multipart module *)

(** [fails m c s e]: in every store where the reference [c] holds the
    stream [s], the coroutine [m] raises [e]. *)
Definition fails {ST : Stream} {A} (m : M A) (c : content_ref)
  (s : stream) (e : exn) : Prop :=
  forall w, w c = s -> m w = Raise e.

(** [hangs m c s]: in every such store the loop of [m] does not end,
    whatever the fuel. *)
Definition hangs {ST : Stream} {A} (m : nat -> M A) (c : content_ref)
  (s : stream) : Prop :=
  forall fuel w, w c = s -> m fuel w = OutOfFuel.

(** What [data.decode(encoding)] comes to: the text, or one of the two
    exceptions of the call, [LookupError] for a codec that does not
    exist and [UnicodeDecodeError] for bytes that the codec refuses. *)
Inductive decoding :=
| Decoded (s : string)
| UnknownCodec
| UndecodableBytes.

(** Text codecs and the JSON parser of the standard library.  For the
    parser [None] stands for the exception of the call. *)
Class Text := {
  (** [data.decode(encoding)] *)
  codec_decode : string -> bytes -> decoding;
  (** the values of JSON *)
  json_value : Type;
  (** [json.loads(s)] *)
  json_loads : string -> option json_value
}.

(** The methods of [BodyPartReader] that deliver the payload as text. *)
Module BodyPartText.

Section Methods.

Context {L : Lib} {T : Text} {ST : Stream}.

(** [get_charset(self, default=None)] *)
Definition get_charset (default : option string) (self : BodyPartReader.t)
  : option string :=
  let ctype := match hget hdrs.CONTENT_TYPE (BodyPartReader.headers self) with
               | Some v => v
               | None => ""%string
               end in
  match pget "charset" (params (parse_mimetype ctype)) with
  | Some charset => Some charset
  | None => default
  end.

(** [encoding or self.get_charset(default=default)]: the default being
    a string, so is the result. *)
Definition encoding_or_charset (encoding : option string) (default : string)
  (self : BodyPartReader.t) : string :=
  let charset := match get_charset (Some default) self with
                 | Some c => c
                 | None => default
                 end in
  match encoding with
  | Some e => if str_is_empty e then charset else e
  | None => charset
  end.

(** [data.decode(encoding)] *)
Definition bytes_decode_with (encoding : string) (data : bytes) : M string :=
  match codec_decode encoding data with
  | Decoded s => ret s
  | UnknownCodec => raise LookupError
  | UndecodableBytes => raise UnicodeDecodeError
  end.

(** [text(self, *, encoding=None)] *)
Definition text (fuel : nat) (encoding : option string)
  (self : BodyPartReader.t) : M (string * BodyPartReader.t) :=
  '(data, self) <- BodyPartReader.read fuel true self ;;
  let encoding := encoding_or_charset encoding "latin1" self in
  s <- bytes_decode_with encoding data ;;
  ret (s, self).

(** [json(self, *, encoding=None)] *)
Definition json (fuel : nat) (encoding : option string)
  (self : BodyPartReader.t) : M (option json_value * BodyPartReader.t) :=
  '(data, self) <- BodyPartReader.read fuel true self ;;
  match data with
  | [] => ret (None, self)
  | _ :: _ =>
      let encoding := encoding_or_charset encoding "utf-8" self in
      s <- bytes_decode_with encoding data ;;
      j <- lift_opt (json_loads s) ValueError ;;
      ret (Some j, self)
  end.

End Methods.

End BodyPartText.

(** * class MultipartResponseWrapper *)

(** The HTTP response of the client: its headers, its content stream
    and its [release()], which is free to consume the stream. *)
Class Response {ST : Stream} := {
  response : Type;
  resp_headers : response -> Headers;
  resp_content : response -> content_ref;
  resp_release : response -> M response
}.

Module MultipartResponseWrapper.

Section Methods.

Context {L : Lib} {ST : Stream} {R : Response}.

Record t := mk { resp : response; stream : MultipartReader.t }.

(** [release(self)] *)
Definition release (self : t) : M t :=
  r <- resp_release (resp self) ;; ret (mk r (stream self)).

(** [next(self)] *)
Definition next (fuel : nat) (self : t)
  : M (option MultipartReader.part * t) :=
  '(item, s) <- MultipartReader.next fuel (stream self) ;;
  let self := mk (resp self) s in
  if MultipartReader.at_eof (stream self)
  then self <- release self ;; ret (item, self)
  else ret (item, self).

(** [MultipartReader.from_response(cls, response)], with the class
    attribute [response_wrapper_cls = MultipartResponseWrapper] *)
Definition from_response (response : response) : M t :=
  reader <- MultipartReader.init (resp_headers response)
              (resp_content response) ;;
  ret (mk response reader).

End Methods.

End MultipartResponseWrapper.

(* ================================================================== *)
(** * Calls in any order *)

Module Calls.

(** A call of a caller on a body part reader. *)
Inductive call :=
| ReadChunk (size : Z)
| Readline
| Read (fuel : nat) (decode : bool)
| Next (fuel : nat)
| Release (fuel : nat).

(** A call of a caller on a multipart reader, or on the part that the
    reader yielded last. *)
Inductive reader_call :=
| ReaderNext (fuel : nat)
| ReaderRelease (fuel : nat)
| OnPart (k : call).

Section Runs.

Context {L : Lib} {ST : Stream}.

Definition run (k : call) (b : BodyPartReader.t) : M BodyPartReader.t :=
  match k with
  | ReadChunk size => '(_, b) <- BodyPartReader.read_chunk size b ;; ret b
  | Readline => '(_, b) <- BodyPartReader.readline b ;; ret b
  | Read fuel decode => '(_, b) <- BodyPartReader.read fuel decode b ;; ret b
  | Next fuel => '(_, b) <- BodyPartReader.next fuel b ;; ret b
  | Release fuel => BodyPartReader.release fuel b
  end.

Fixpoint run_all (ks : list call) (b : BodyPartReader.t)
  : M BodyPartReader.t :=
  match ks with
  | [] => ret b
  | k :: ks' => b <- run k b ;; run_all ks' b
  end.

Definition reader_run (k : reader_call) (r : MultipartReader.t)
  : M MultipartReader.t :=
  match k with
  | ReaderNext fuel => '(_, r) <- MultipartReader.next fuel r ;; ret r
  | ReaderRelease fuel => MultipartReader.release fuel r
  | OnPart k =>
      '(_, r) <- MultipartReader.on_last_part
                   (fun b => b <- run k b ;; ret (tt, b)) r ;;
      ret r
  end.

Fixpoint reader_run_all (ks : list reader_call) (r : MultipartReader.t)
  : M MultipartReader.t :=
  match ks with
  | [] => ret r
  | k :: ks' => r <- reader_run k r ;; reader_run_all ks' r
  end.

End Runs.

(** The sizes asked of [read_chunk] satisfy [ok]. *)
Definition sizes_ok (ok : Z -> Prop) (k : call) : Prop :=
  match k with
  | ReadChunk size => ok size
  | _ => True
  end.

(** The sizes asked of [read_chunk] are not negative. *)
Definition sound (k : call) : Prop := sizes_ok (fun size => 0 <= size)%Z k.

(** The counter of a part with a declared length is within the
    length. *)
Definition counter_ok (b : BodyPartReader.t) : Prop :=
  match BodyPartReader._length b with
  | Some length => (0 <= BodyPartReader._read_bytes b <= length)%Z
  | None => True
  end.

(** The pushback of a part: empty while the part is open, at most the
    one boundary line that ended it afterwards. *)
Definition pushback_ok (b : BodyPartReader.t) : Prop :=
  match BodyPartReader._unread b with
  | [] => True
  | [line] =>
      BodyPartReader._at_eof b = true
      /\ Wire.matches_boundary (BodyPartReader._boundary b) line = true
  | _ :: _ :: _ => False
  end.

End Calls.

(** Two states of one reader: the fields set at construction agree,
    and the end of the body, once reached, stays reached. *)
Definition same_reader (r r' : MultipartReader.t) : Prop :=
  MultipartReader.headers r' = MultipartReader.headers r
  /\ MultipartReader._boundary r' = MultipartReader._boundary r
  /\ MultipartReader._content r' = MultipartReader._content r
  /\ (MultipartReader._at_eof r = true -> MultipartReader._at_eof r' = true).

(** Three codecs on text of the ASCII range, where they agree, and whole
    numbers in decimal as the JSON values.  Every byte is a character
    of [latin1]; a byte outside the ASCII range is refused by [ascii],
    and by [utf-8] here, whose longer sequences are left out.  No other
    codec exists; no codec is looked up for empty data. *)
Module PlainText.

Definition decode (encoding : string) (d : bytes) : decoding :=
  match d with
  | [] => Decoded ""
  | _ :: _ =>
      if String.eqb encoding "latin1" then Decoded (string_of_list_byte d)
      else if String.eqb encoding "utf-8" || String.eqb encoding "ascii"
      then match Plain.decode d with
           | Some s => Decoded s
           | None => UndecodableBytes
           end
      else UnknownCodec
  end.

#[export] Instance Text : Text := @Build_Text decode Z Plain.int.

End PlainText.

(** A response whose body has arrived in full: [release()] drops what
    is left of the body and counts its calls. *)
Module PlainResponse.

Record t := mk { headers : Headers; content : content_ref; released : nat }.

Definition release (r : t) : M (ST := Buffered.Stream) t :=
  fun w => Ret (mk (headers r) (content r) (S (released r)),
                upd (ST := Buffered.Stream) (content r) [] w).

#[export] Instance Response : Response (ST := Buffered.Stream) :=
  @Build_Response Buffered.Stream t headers content release.

End PlainResponse.

(** The pushback of a reader between two calls: empty, the part it
    yielded last holding at most the boundary line that ended it (see
    [Calls.pushback_ok]) or, for a nested reader, being in the same
    state in turn. *)
Fixpoint reader_pushback_ok (r : MultipartReader.t) : Prop :=
  match r with
  | MultipartReader.mk _ _ _ last_part _ unread =>
      unread = []
      /\ match last_part with
         | Some (MultipartReader.BodyPart b) => Calls.pushback_ok b
         | Some (MultipartReader.Multipart m) => reader_pushback_ok m
         | None => True
         end
  end.

Definition part_pushback_ok (p : MultipartReader.part) : Prop :=
  match p with
  | MultipartReader.BodyPart b => Calls.pushback_ok b
  | MultipartReader.Multipart m => reader_pushback_ok m
  end.

(* ================================================================== *)
(** * Properties *)

Unset Implicit Arguments.

(** ** Byte strings *)

Lemma bytes_eqb_refl (x : bytes) : bytes_eqb x x = true.
Proof.
  induction x as [|a x IH]; simpl; [reflexivity|].
  now rewrite (Byte.byte_dec_lb (eq_refl a)), IH.
Qed.

Lemma bytes_eqb_eq (x y : bytes) : bytes_eqb x y = true <-> x = y.
Proof.
  split; [|intros ->; apply bytes_eqb_refl].
  revert y; induction x as [|a x IH]; intros [|c y]; simpl; try easy.
  rewrite andb_true_iff; intros [Hac Hxy].
  apply Byte.byte_dec_bl in Hac. f_equal; auto.
Qed.

Lemma bytes_eqb_neq (x y : bytes) : bytes_eqb x y = false <-> x <> y.
Proof.
  split.
  - intros H E. apply bytes_eqb_eq in E. congruence.
  - intros H. destruct (bytes_eqb x y) eqn:E; [|reflexivity].
    apply bytes_eqb_eq in E. contradiction.
Qed.

Lemma byte_eqb_refl (a : byte) : Byte.eqb a a = true.
Proof. apply Byte.byte_dec_lb; reflexivity. Qed.

Lemma startswith_app (p s : bytes) : startswith p (p ++ s) = true.
Proof.
  induction p as [|a p IH]; simpl; [reflexivity|].
  now rewrite byte_eqb_refl, IH.
Qed.

Lemma rstrip_by_cons (f : byte -> bool) (c : byte) (s : bytes) :
  rstrip_by f (c :: s) =
  match rstrip_by f s with
  | [] => if f c then [] else [c]
  | _ :: _ => c :: rstrip_by f s
  end.
Proof. reflexivity. Qed.

Lemma rstrip_by_all (f : byte -> bool) (t : bytes) :
  forallb f t = true -> rstrip_by f t = [].
Proof.
  induction t as [|c t IH]; [reflexivity|].
  simpl forallb. rewrite andb_true_iff. intros [Hc Ht].
  rewrite rstrip_by_cons, IH, Hc; auto.
Qed.

Lemma rstrip_by_app_all (f : byte -> bool) (s t : bytes) :
  forallb f t = true -> rstrip_by f (s ++ t) = rstrip_by f s.
Proof.
  intros Ht. induction s as [|c s IH].
  - simpl. now apply rstrip_by_all.
  - rewrite <- app_comm_cons, !rstrip_by_cons, IH. reflexivity.
Qed.

Lemma rstrip_by_snoc_keep (f : byte -> bool) (s : bytes) (c : byte) :
  f c = false -> rstrip_by f (s ++ [c]) = s ++ [c].
Proof.
  intros Hc. induction s as [|a s IH].
  - simpl. unfold rstrip_by. simpl. now rewrite Hc.
  - rewrite <- app_comm_cons, rstrip_by_cons, IH.
    destruct (s ++ [c]) eqn:E; [now destruct s|reflexivity].
Qed.

(** The stripped line is a prefix of the line; what is removed is in
    the set. *)
Lemma rstrip_by_split (f : byte -> bool) (s : bytes) :
  exists t, s = rstrip_by f s ++ t /\ forallb f t = true.
Proof.
  induction s as [|c s (t & Hs & Ht)].
  - exists []. split; reflexivity.
  - rewrite rstrip_by_cons. destruct (rstrip_by f s) as [|a r] eqn:E.
    + destruct (f c) eqn:Hc.
      * exists (c :: s). split; [reflexivity|].
        simpl in Hs. subst t. simpl. now rewrite Hc.
      * exists s. split; [reflexivity|]. simpl in Hs. now subst t.
    + exists t. split; [|assumption]. simpl in *. now f_equal.
Qed.

(** Stripping less leaves a fixed point of stripping more alone. *)
Lemma rstrip_by_weaker (f g : byte -> bool) (s : bytes) :
  (forall c, g c = true -> f c = true) ->
  rstrip_by f s = s -> rstrip_by g s = s.
Proof.
  intros Hgf. induction s as [|c s IH]; [reflexivity|].
  rewrite !rstrip_by_cons.
  destruct (rstrip_by f s) as [|a r] eqn:E.
  - destruct (f c) eqn:Hc; [discriminate|].
    intros H. injection H as H. subst s. simpl.
    destruct (g c) eqn:Hg; [|reflexivity].
    apply Hgf in Hg. congruence.
  - intros H. injection H as H.
    rewrite (IH H). destruct s; [discriminate|reflexivity].
Qed.

Lemma is_crlf_char_space (c : byte) : is_crlf_char c = true -> is_space c = true.
Proof.
  unfold is_crlf_char, is_space, CR, LF.
  destruct (Byte.eqb c x0d), (Byte.eqb c x0a); simpl; intros H;
    rewrite ?orb_true_r; auto; discriminate.
Qed.

Lemma startswith_rstrip_by (f : byte -> bool) (line : bytes) :
  startswith (rstrip_by f line) line = true.
Proof.
  destruct (rstrip_by_split f line) as (t & E & _).
  rewrite E at 2. apply startswith_app.
Qed.

Lemma startswith_prefix (p q s : bytes) :
  startswith (p ++ q) s = true -> startswith p s = true.
Proof.
  revert s; induction p as [|a p IH]; intros s; [reflexivity|].
  destruct s as [|c s]; simpl; [easy|].
  rewrite !andb_true_iff. intros [H1 H2]. split; auto.
Qed.

(** ** The monad *)

Section MonadFacts.

Context {ST : Stream}.

Lemma upd_same (c : content_ref) (s : stream) (w : world) : upd c s w c = s.
Proof. unfold upd. now rewrite Nat.eqb_refl. Qed.

Lemma bind_Ret {A B} (m : M A) (k : A -> M B) {w w' : world} {a : A} :
  m w = Ret (a, w') -> bind m k w = k a w'.
Proof. unfold bind. now intros ->. Qed.

Lemma bind_Raise {A B} (m : M A) (k : A -> M B) {w : world} {e : exn} :
  m w = Raise e -> bind m k w = Raise e.
Proof. unfold bind. now intros ->. Qed.

(** A bind that returns went through a return of its first part. *)
Lemma bind_inv {A B} (m : M A) (k : A -> M B) (w w2 : world) (b : B) :
  bind m k w = Ret (b, w2) ->
  exists a w1, m w = Ret (a, w1) /\ k a w1 = Ret (b, w2).
Proof.
  unfold bind. destruct (m w) as [[a w1]| |]; try discriminate.
  intros H. now exists a, w1.
Qed.

Lemma runs_ret {A} (a : A) (c : content_ref) (s : stream) :
  runs (ret a) c s a s.
Proof. intros w Hw. exists w. now split. Qed.

Lemma runs_ret_inv {A} (a a' : A) (c : content_ref) (s s' : stream) :
  runs (ret a) c s a' s' -> a' = a /\ s' = s.
Proof.
  intros H. destruct (H (store s) eq_refl) as (w' & E & Hw').
  injection E as <- <-. now split.
Qed.

Lemma runs_bind {A B} (m : M A) (k : A -> M B) (c : content_ref)
  (s s1 s2 : stream) (a : A) (b : B) :
  runs m c s a s1 -> runs (k a) c s1 b s2 -> runs (bind m k) c s b s2.
Proof.
  intros Hm Hk w Hw. destruct (Hm w Hw) as (w1 & E1 & Hw1).
  destruct (Hk w1 Hw1) as (w2 & E2 & Hw2).
  exists w2. split; [|assumption]. now rewrite (bind_Ret _ _ E1).
Qed.

Lemma runs_content_readline (c : content_ref) (s : stream) :
  runs (content_readline c) c s (fst (s_readline s)) (snd (s_readline s)).
Proof.
  intros w Hw. unfold content_readline. rewrite Hw.
  destruct (s_readline s) as [l s']. eexists. split; [reflexivity|].
  apply upd_same.
Qed.

End MonadFacts.

(** ** BodyPartReader: one call *)

Section BodyPartCalls.

Context {L : Lib} {ST : Stream}.

Import BodyPartReader.

(** A call of [read_chunk] on an open part with a declared length. *)
Lemma read_chunk_open (n length : Z) (self : t) (w : world) :
  _at_eof self = false -> _length self = Some length ->
  read_chunk n self w =
  let requested := Z.min n (length - _read_bytes self) in
  let (chunk, s) := s_read requested (w (_content self)) in
  Ret (chunk,
       mk (headers self) (_boundary self) (_content self)
          (_read_bytes self + requested =? length)%Z
          (Some length) (_read_bytes self + requested) (_unread self),
       upd (_content self) s w).
Proof.
  intros He Hl. unfold read_chunk. rewrite He, Hl.
  unfold bind, content_read. cbv zeta.
  destruct (s_read _ _) as [chunk s]. unfold ret.
  destruct self as [h b c e l r u]; simpl in *. subst.
  destruct (_ =? _)%Z; reflexivity.
Qed.

Lemma read_chunk_at_eof (n : Z) (self : t) (w : world) :
  _at_eof self = true -> read_chunk n self w = Ret ([], self, w).
Proof. intros He. unfold read_chunk. now rewrite He. Qed.

(** Successive calls on a part with a declared length: the counter
    advances by the sizes asked for, whatever the stream delivers. *)
Lemma chunk_calls_counter (length : Z) (sizes : list Z) :
  forall (self : t) (w : world),
    _length self = Some length ->
    (_at_eof self = true -> _read_bytes self = length) ->
    Forall (fun n => 0 <= n)%Z sizes ->
    (_read_bytes self + fold_right Z.add 0 sizes <= length)%Z ->
    exists data self' w',
      Caller.chunk_calls sizes self w = Ret (data, self', w')
      /\ _read_bytes self' = (_read_bytes self + fold_right Z.add 0 sizes)%Z
      /\ _length self' = Some length
      /\ _content self' = _content self
      /\ (_at_eof self' = true -> _read_bytes self' = length)
      /\ (_read_bytes self' = length ->
          sizes <> [] \/ _at_eof self = true -> _at_eof self' = true).
Proof.
  induction sizes as [|n sizes IH]; intros self w Hl Hinv Hpos Hsum.
  - exists [], self, w. simpl in *. repeat split; auto; try lia.
    intros _ [H|H]; [congruence|assumption].
  - inversion Hpos as [|? ? Hn Hpos']; subst. simpl in Hsum.
    assert (Hs : (0 <= fold_right Z.add 0 sizes)%Z).
    { clear -Hpos'. induction Hpos'; simpl; lia. }
    simpl Caller.chunk_calls.
    destruct (_at_eof self) eqn:He.
    + specialize (Hinv eq_refl).
      destruct (IH self w Hl (fun _ => Hinv) Hpos' ltac:(lia))
        as (data & self' & w' & E & Hrb & Hl' & Hc & Hinv' & Heof).
      exists data, self', w'.
      rewrite (bind_Ret _ _ (read_chunk_at_eof n self w He)).
      rewrite (bind_Ret _ _ E). simpl.
      repeat split; auto; lia.
    + pose proof (read_chunk_open n length self w He Hl) as E1. cbv zeta in E1.
      destruct (s_read _ _) as [chunk s].
      set (self1 := mk _ _ _ _ _ _ _) in E1.
      assert (Hmin : Z.min n (length - _read_bytes self) = n) by lia.
      destruct (IH self1 (upd (_content self) s w)) as
        (data & self' & w' & E & Hrb & Hl' & Hc & Hinv' & Heof);
        subst self1; simpl; auto; try lia.
      simpl in *.
      exists (chunk ++ data), self', w'.
      rewrite (bind_Ret _ _ E1), (bind_Ret _ _ E). simpl.
      repeat split; auto; try lia.
      intros H _. apply Heof; auto.
      destruct sizes as [|m sizes']; [right|left; discriminate].
      simpl in *. rewrite Z.eqb_eq. lia.
Qed.

(** A call of [readline] on an open part, whatever its mode. *)
Lemma readline_open (self : t) (w : world) :
  _at_eof self = false ->
  readline self w =
  let (line, s) := s_readline (w (_content self)) in
  if Wire.matches_boundary (_boundary self) line
  then Ret ([], set_unread (_unread self ++ [line]) (set_at_eof true self),
            upd (_content self) s w)
  else Ret (line, self, upd (_content self) s w).
Proof.
  intros He. unfold readline. rewrite He.
  unfold bind, content_readline.
  destruct (s_readline _) as [line s].
  unfold Wire.matches_boundary.
  destruct (bytes_eqb (rstrip_crlf line) (_boundary self)
            || bytes_eqb (rstrip_crlf line) (_boundary self ++ bytes_of "--"))
    eqn:Em.
  - assert (Hs : startswith (_boundary self) line = true).
    { apply orb_true_iff in Em as [Em|Em]; apply bytes_eqb_eq in Em.
      - rewrite <- Em. apply startswith_rstrip_by.
      - apply startswith_prefix with (q := bytes_of "--").
        rewrite <- Em. apply startswith_rstrip_by. }
    now rewrite Hs.
  - destruct (startswith _ _); reflexivity.
Qed.

End BodyPartCalls.

(** ** Length-bounded parts: what [read_chunk] counts *)

(** C10.  On an open part with a declared length, [read_chunk(n)] asks
    the stream for [min(n, remaining)] bytes and advances the counter of
    consumed bytes by that number, not by the number of bytes the
    stream delivered; [_at_eof] is set as soon as the counter equals
    the declared length.  Hence calls whose sizes sum to the declared
    length set [_at_eof], whatever the stream delivered. *)
Theorem read_chunk_counts_requested_bytes {ST : Stream}
  (self : BodyPartReader.t) (n length : Z) (w : world) :
  BodyPartReader._at_eof self = false ->
  BodyPartReader._length self = Some length ->
  let requested := Z.min n (length - BodyPartReader._read_bytes self) in
  (exists self' w',
     BodyPartReader.read_chunk n self w =
       Ret (fst (s_read requested (w (BodyPartReader._content self))), self', w')
     /\ BodyPartReader._read_bytes self' =
        (BodyPartReader._read_bytes self + requested)%Z
     /\ BodyPartReader._at_eof self' =
        (BodyPartReader._read_bytes self' =? length)%Z)
  /\ (forall sizes,
        sizes <> [] -> Forall (fun k => 0 <= k)%Z sizes ->
        (BodyPartReader._read_bytes self + fold_right Z.add 0 sizes = length)%Z ->
        exists data self' w',
          Caller.chunk_calls sizes self w = Ret (data, self', w')
          /\ BodyPartReader._at_eof self' = true).
Proof.
  intros He Hl requested. split.
  - rewrite (read_chunk_open n length self w He Hl). cbv zeta.
    fold requested. destruct (s_read _ _) as [chunk s]. simpl.
    eexists _, _. split; [reflexivity|]. simpl. split; reflexivity.
  - intros sizes Hne Hpos Hsum.
    destruct (chunk_calls_counter length sizes self w Hl) as
      (data & self' & w' & E & Hrb & _ & _ & _ & Heof); auto; try lia.
    { rewrite He. discriminate. }
    exists data, self', w'. split; [assumption|].
    apply Heof; [lia|now left].
Qed.

(** The stream delivers two bytes of the five asked for: the counter
    is at five and the part is at its end. *)
Lemma read_chunk_counts_requested_bytes_witness :
  exists self' w',
    BodyPartReader.read_chunk (ST := Chunked.Stream) 8192
      Examples.hello_part (store (ST := Chunked.Stream) Examples.hello_pieces)
    = Ret (bytes_of "he", self', w')
    /\ BodyPartReader._read_bytes self' = 5%Z
    /\ BodyPartReader._at_eof self' = true.
Proof.
  destruct (read_chunk_counts_requested_bytes
              (ST := Chunked.Stream) Examples.hello_part 8192 5
              (store (ST := Chunked.Stream) Examples.hello_pieces) eq_refl eq_refl)
    as [(self' & w' & E & Hrb & He) _].
  exists self', w'. split; [exact E|]. split; [exact Hrb|].
  rewrite He, Hrb. reflexivity.
Defined.

(** ** Line-bounded parts: [readline] and the boundary *)

Lemma pop_snoc {A} (l : list A) (x : A) : pop (l ++ [x]) = Some (x, l).
Proof. unfold pop. rewrite rev_app_distr. simpl. now rewrite rev_involutive. Qed.

Lemma matches_boundary_true (boundary line : bytes) :
  Wire.matches_boundary boundary line = true <->
  rstrip_crlf line = boundary \/ rstrip_crlf line = boundary ++ bytes_of "--".
Proof.
  unfold Wire.matches_boundary. rewrite orb_true_iff, !bytes_eqb_eq. tauto.
Qed.

Lemma matches_boundary_false (boundary line : bytes) :
  Wire.matches_boundary boundary line = false <->
  rstrip_crlf line <> boundary /\ rstrip_crlf line <> boundary ++ bytes_of "--".
Proof.
  unfold Wire.matches_boundary. rewrite orb_false_iff, !bytes_eqb_neq. tauto.
Qed.

(** C5.  On an open line-bounded part, [readline] takes one line from
    the stream.  If the line, stripped of its trailing carriage returns
    and line feeds, is neither the delimiter nor the terminator, the
    line is returned and the part is unchanged.  Otherwise the result
    is empty, [_at_eof] is set and the raw line is appended to the
    pushback of the part; the owning reader then gets that very line
    from [_readline] after [_maybe_release_last_part], and the store of
    streams is not touched. *)
Theorem readline_keeps_boundary_line {L : Lib} {ST : Stream}
  (self : BodyPartReader.t) (w : world) (line : bytes) (s : stream) :
  BodyPartReader._length self = None ->
  BodyPartReader._at_eof self = false ->
  s_readline (w (BodyPartReader._content self)) = (line, s) ->
  (rstrip_crlf line <> BodyPartReader._boundary self /\
   rstrip_crlf line <> BodyPartReader._boundary self ++ bytes_of "--" ->
   BodyPartReader.readline self w =
     Ret (line, self, upd (BodyPartReader._content self) s w))
  /\ (rstrip_crlf line = BodyPartReader._boundary self \/
      rstrip_crlf line = BodyPartReader._boundary self ++ bytes_of "--" ->
      let self' :=
        BodyPartReader.set_unread (BodyPartReader._unread self ++ [line])
          (BodyPartReader.set_at_eof true self) in
      BodyPartReader.readline self w =
        Ret ([], self', upd (BodyPartReader._content self) s w)
      /\ BodyPartReader.at_eof self' = true
      /\ forall fuel owner w1,
           MultipartReader._last_part owner
             = Some (MultipartReader.BodyPart self') ->
           (o <- MultipartReader._maybe_release_last_part fuel owner ;;
            MultipartReader._readline o) w1
           = Ret (line,
                  MultipartReader.set_unread
                    (MultipartReader._unread owner
                     ++ BodyPartReader._unread self)
                    (MultipartReader.set_last_part None owner),
                  w1)).
Proof.
  intros _ He Hs.
  pose proof (readline_open self w He) as E. rewrite Hs in E.
  split.
  - intros H. apply matches_boundary_false in H. now rewrite H in E.
  - intros H. apply matches_boundary_true in H. rewrite H in E.
    cbv zeta. split; [exact E|]. split; [reflexivity|].
    intros fuel owner w1 Hp.
    unfold MultipartReader._maybe_release_last_part,
      MultipartReader._maybe_release_last_part_with.
    rewrite Hp. simpl.
    unfold MultipartReader._readline. simpl.
    destruct owner as [h b c p e u]. simpl in *.
    unfold bind, ret. simpl.
    rewrite app_assoc, pop_snoc. reflexivity.
Qed.

(** The terminator line ends a part: nothing is returned, the line is
    kept. *)
Lemma readline_keeps_boundary_line_witness :
  BodyPartReader.readline (ST := Buffered.Stream) Examples.text_part
    (store (ST := Buffered.Stream) (Examples.ln "--XBOUND--"))
  = Ret ([],
         BodyPartReader.mk [] Examples.XBOUND 0 true None 0%Z
           [Examples.ln "--XBOUND--"],
         upd (ST := Buffered.Stream) 0 []
           (store (ST := Buffered.Stream) (Examples.ln "--XBOUND--"))).
Proof.
  apply (readline_keeps_boundary_line (L := Plain.Lib) (ST := Buffered.Stream)
           Examples.text_part
           (store (ST := Buffered.Stream) (Examples.ln "--XBOUND--"))
           (Examples.ln "--XBOUND--") []
           eq_refl eq_refl eq_refl).
  right. reflexivity.
Defined.

(** [readline] has no check of the mode: it returns on every part. *)
Lemma readline_returns {ST : Stream}
  (self : BodyPartReader.t) (w : world) :
  exists r w', BodyPartReader.readline self w = Ret (r, w').
Proof.
  destruct (BodyPartReader._at_eof self) eqn:He.
  - unfold BodyPartReader.readline. rewrite He. now eexists _, _.
  - rewrite (readline_open self w He).
    destruct (s_readline _) as [line s].
    destruct (Wire.matches_boundary _ _); now eexists _, _.
Qed.

(** ** The mode of a part is checked by [read_chunk] only *)

(** [read_chunk] on an open part without a declared length raises. *)
Lemma read_chunk_asserts_length {ST : Stream}
  (self : BodyPartReader.t) (n : Z) (w : world) :
  BodyPartReader._at_eof self = false ->
  BodyPartReader._length self = None ->
  BodyPartReader.read_chunk n self w = Raise AssertionError.
Proof. intros He Hl. unfold BodyPartReader.read_chunk. now rewrite He, Hl. Qed.

(** C9.  The code at the failing input: [readline] on a part that
    declares a length of five returns the line and leaves the counter
    of consumed bytes at zero, where the specification asks for a fatal
    error; a [read] after it takes five more bytes, which belong to the
    terminator line, and fails on what follows.  [read_chunk] on an open
    part without a declared length does raise. *)
Theorem readline_ignores_declared_length :
  observe (ST := Buffered.Stream) 0
    (BodyPartReader.readline Examples.hello_part
       (store (ST := Buffered.Stream) Examples.hello_stream))
  = Ret (Examples.ln "hello", Examples.hello_part, Examples.ln "--XBOUND--")
  /\ observe (ST := Buffered.Stream) 0
       (('(_, b) <- BodyPartReader.readline Examples.hello_part ;;
         BodyPartReader.read (L := Plain.Lib) 10 false b)
          (store (ST := Buffered.Stream) Examples.hello_stream))
     = Raise AssertionError
  /\ BodyPartReader.read_chunk (ST := Buffered.Stream) 5
       Examples.text_part (store (ST := Buffered.Stream) Examples.text_stream)
     = Raise AssertionError.
Proof. repeat split. Qed.

(** ** The line terminator after a declared length *)

(** C4.  The code at the failing input.  The part declares five bytes
    and the stream holds seven before the line terminator.  A caller
    that takes the five bytes with [read_chunk] puts the part at its
    end, and no call of the part looks at what follows: [release] and
    [read] return at once, the two excess bytes stay in the stream.
    [read] on the same input, which runs the same [read_chunk] and then
    reads a line, raises [AssertionError].  On the well-formed body of
    the scenario the same caller makes the following [next] raise
    [ValueError], the line terminator of the payload being read as a
    boundary line. *)
Theorem read_chunk_leaves_terminator_unchecked :
  observe (ST := Buffered.Stream) 0
    (('(d, b) <- BodyPartReader.read_chunk 5 Examples.hello_part ;;
      b <- BodyPartReader.release 10 b ;;
      '(r, b) <- BodyPartReader.read (L := Plain.Lib) 10 false b ;;
      ret (d, r, BodyPartReader.at_eof b))
       (store (ST := Buffered.Stream) Examples.hello_overlong))
  = Ret (bytes_of "hello", [], true,
         Examples.ln "XX" ++ Examples.ln "--XBOUND--")
  /\ observe (ST := Buffered.Stream) 0
       (BodyPartReader.read (L := Plain.Lib) 10 false Examples.hello_part
          (store (ST := Buffered.Stream) Examples.hello_overlong))
     = Raise AssertionError
  /\ observe (ST := Buffered.Stream) 0
       (('(_, r) <- MultipartReader.next (L := Plain.Lib) 100
                      Examples.reader ;;
         '(_, r) <- MultipartReader.next (L := Plain.Lib) 100 r ;;
         '(d, r) <- MultipartReader.on_last_part
                      (BodyPartReader.read_chunk 5) r ;;
         MultipartReader.next (L := Plain.Lib) 100 r)
          (store (ST := Buffered.Stream) Examples.scenario))
     = Raise ValueError.
Proof. repeat split; vm_compute; reflexivity. Qed.

(** ** The boundary line *)

Section ReaderFields.

Context {L : Lib} {ST : Stream}.

Import MultipartReader.

Lemma _readline_fields (self self' : t) (line : bytes) (w w' : world) :
  _readline self w = Ret (line, self', w') ->
  _boundary self' = _boundary self /\ _content self' = _content self
  /\ _at_eof self' = _at_eof self /\ _last_part self' = _last_part self.
Proof.
  unfold _readline. destruct (pop (_unread self)) as [[l rest]|].
  - intros H. injection H as <- <- <-. destruct self; now simpl.
  - intros H. apply bind_inv in H as (l & w1 & _ & H).
    injection H as <- <- <-. now repeat split.
Qed.

Lemma _maybe_release_last_part_fields (fuel : nat) (self self' : t)
  (w w' : world) :
  _maybe_release_last_part fuel self w = Ret (self', w') ->
  _boundary self' = _boundary self /\ _content self' = _content self
  /\ _at_eof self' = _at_eof self /\ _last_part self' = None.
Proof.
  unfold _maybe_release_last_part, _maybe_release_last_part_with.
  destruct (_last_part self) as [p|] eqn:Hp.
  - intros H. apply bind_inv in H as (p' & w1 & _ & H).
    injection H as <- <-. destruct self; now simpl.
  - intros H. injection H as <- <-. now repeat split.
Qed.


End ReaderFields.

(** C3, as the code has it.  Whenever [next] reads a line where a
    boundary is expected, and the line with its trailing ASCII
    whitespace stripped ([bytes.rstrip()]: spaces and tabs as well as
    the line terminator) is neither the boundary token nor the token
    followed by two dashes, [next] raises [ValueError]. *)
Theorem next_rejects_other_lines {L : Lib} {ST : Stream}
  (fuel : nat) (self self1 self2 : MultipartReader.t)
  (w w1 w2 : world) (line : bytes) :
  MultipartReader._at_eof self = false ->
  MultipartReader._maybe_release_last_part fuel self w = Ret (self1, w1) ->
  MultipartReader._readline self1 w1 = Ret (line, self2, w2) ->
  rstrip line <> MultipartReader._boundary self ->
  rstrip line <> MultipartReader._boundary self ++ bytes_of "--" ->
  MultipartReader.next fuel self w = Raise ValueError.
Proof.
  intros He H1 H2 Hd Ht.
  unfold MultipartReader.next, MultipartReader.next_with. rewrite He.
  fold (MultipartReader._maybe_release_last_part fuel).
  rewrite (bind_Ret _ _ H1).
  apply bind_Raise. unfold MultipartReader._read_boundary.
  rewrite (bind_Ret _ _ H2).
  apply _maybe_release_last_part_fields in H1 as (Hb1 & _).
  apply _readline_fields in H2 as (Hb2 & _).
  rewrite Hb2, Hb1.
  apply bytes_eqb_neq in Hd, Ht. now rewrite Hd, Ht.
Qed.

(** The scenario with the boundary line [--WRONG]. *)
Lemma next_rejects_other_lines_witness :
  MultipartReader.next (L := Plain.Lib) (ST := Buffered.Stream) 100
    Examples.reader (store (ST := Buffered.Stream) Examples.wrong_boundary)
  = Raise ValueError.
Proof.
  apply (next_rejects_other_lines (L := Plain.Lib) (ST := Buffered.Stream)
           100 Examples.reader Examples.reader Examples.reader
           (store (ST := Buffered.Stream) Examples.wrong_boundary)
           (store (ST := Buffered.Stream) Examples.wrong_boundary)
           (upd (ST := Buffered.Stream) 0 (skipn 10 Examples.scenario)
              (store (ST := Buffered.Stream) Examples.wrong_boundary))
           (Examples.ln "--WRONG")
           eq_refl eq_refl eq_refl);
    vm_compute; discriminate.
Defined.

(** C3, as stated, fails: with the line terminator alone stripped, the
    line [--XBOUND ] followed by a space is neither the delimiter nor
    the terminator, and [next] accepts it as the delimiter. *)
Lemma padded_boundary_line_is_accepted :
  ~ Statement.boundary_checked (L := Plain.Lib) (ST := Buffered.Stream)
      rstrip_crlf 100 Examples.reader
      (store (ST := Buffered.Stream) Examples.padded_boundary).
Proof.
  intros H.
  specialize (H Examples.reader
                (store (ST := Buffered.Stream) Examples.padded_boundary)
                (bytes_of "--XBOUND " ++ CRLF)
                Examples.reader
                (upd (ST := Buffered.Stream) 0 (skipn 10 Examples.scenario)
                   (store (ST := Buffered.Stream) Examples.padded_boundary))
                eq_refl eq_refl eq_refl).
  assert (E : observe (ST := Buffered.Stream) 0
                (MultipartReader.next (L := Plain.Lib) 100 Examples.reader
                   (store (ST := Buffered.Stream) Examples.padded_boundary))
              <> Raise ValueError)
    by (vm_compute; discriminate).
  apply E. rewrite H; [reflexivity| |]; vm_compute; discriminate.
Qed.

(** ** Content decoding *)

Lemma getattr_decoder {L : Lib} {ST : Stream} (encoding : string) :
  BodyPartReader.getattr ("decode_" ++ encoding) =
  if String.eqb encoding "deflate" then Some BodyPartReader.decode_deflate
  else if String.eqb encoding "gzip" then Some BodyPartReader.decode_gzip
  else None.
Proof. reflexivity. Qed.


(** C7, as the code has it.  [decode] looks at the Content-Encoding
    header: without the header, or with an empty value, the payload is
    returned unchanged; [gzip] runs [zlib.decompress] with the gzip
    framing and [deflate] runs it on raw deflate data; every other
    non-empty value raises [AttributeError]. *)
Theorem decode_by_content_encoding {L : Lib} {ST : Stream}
  (self : BodyPartReader.t) (data : bytes) (w : world) :
  let declared := hget hdrs.CONTENT_ENCODING (BodyPartReader.headers self) in
  (declared = None \/ declared = Some ""%string ->
   BodyPartReader.decode self data w = Ret (data, w))
  /\ (declared = Some "gzip"%string ->
      BodyPartReader.decode self data w =
      lift_opt (zlib_decompress data (16 + MAX_WBITS)) ZlibError w)
  /\ (declared = Some "deflate"%string ->
      BodyPartReader.decode self data w =
      lift_opt (zlib_decompress data (- MAX_WBITS)) ZlibError w)
  /\ (forall encoding,
        declared = Some encoding -> encoding <> ""%string ->
        encoding <> "gzip"%string -> encoding <> "deflate"%string ->
        BodyPartReader.decode self data w = Raise AttributeError).
Proof.
  intros declared. unfold BodyPartReader.decode. fold declared.
  repeat split.
  - intros [-> | ->]; reflexivity.
  - intros ->. reflexivity.
  - intros ->. reflexivity.
  - intros encoding -> Hne Hg Hd.
    destruct encoding as [|a e]; [contradiction|]. cbn [str_is_empty].
    rewrite getattr_decoder.
    apply String.eqb_neq in Hg, Hd. now rewrite Hg, Hd.
Qed.

Lemma decode_by_content_encoding_witness :
  BodyPartReader.decode (L := Plain.Lib) (ST := Buffered.Stream)
    (BodyPartReader.mk [("CONTENT-ENCODING", "br")%string] Examples.XBOUND
       0 false None 0%Z [])
    (bytes_of "payload") (store (ST := Buffered.Stream) [])
  = Raise AttributeError.
Proof.
  destruct (decode_by_content_encoding (L := Plain.Lib)
              (ST := Buffered.Stream)
              (BodyPartReader.mk [("CONTENT-ENCODING", "br")%string]
                 Examples.XBOUND 0 false None 0%Z [])
              (bytes_of "payload") (store (ST := Buffered.Stream) []))
    as (_ & _ & _ & H).
  apply (H "br"%string); [reflexivity | discriminate ..].
Defined.

(** C7, as stated, fails: an empty Content-Encoding value is declared,
    is neither [gzip] nor [deflate], and the payload passes through. *)
Lemma empty_encoding_passes_through :
  ~ Statement.other_encodings_fail (L := Plain.Lib) (ST := Buffered.Stream)
      (BodyPartReader.mk [("CONTENT-ENCODING", "")%string] Examples.XBOUND
         0 false None 0%Z []).
Proof.
  intros H.
  specialize (H ""%string (bytes_of "payload")
                (store (ST := Buffered.Stream) []) eq_refl).
  discriminate H; discriminate.
Qed.

(** ** Dispatch on the media type of a part *)

Section Dispatch.

Context {L : Lib} {ST : Stream}.

Import MultipartReader.

Lemma init_inv (hs : Headers) (c : content_ref) (m : t) (w w' : world) :
  init hs c w = Ret (m, w') ->
  exists ctype boundary,
    hget hdrs.CONTENT_TYPE hs = Some ctype
    /\ mtype (parse_mimetype ctype) = "multipart"%string
    /\ pget "boundary" (params (parse_mimetype ctype)) = Some boundary
    /\ m = mk hs (str_encode ("--" ++ boundary)) c None false []
    /\ w' = w.
Proof.
  unfold init, _get_boundary. intros H.
  apply bind_inv in H as (b & w1 & H1 & H).
  injection H as <- <-.
  apply bind_inv in H1 as (ctype & w2 & Hc & H1).
  destruct (hget hdrs.CONTENT_TYPE hs) as [v|]; [|discriminate].
  injection Hc as <- <-.
  apply bind_inv in H1 as ([] & w3 & Ha & H1).
  unfold assert in Ha.
  destruct (String.eqb _ _) eqn:Em; [|discriminate].
  injection Ha as <-. apply String.eqb_eq in Em.
  destruct (pget _ _) as [b'|] eqn:Ep; [|discriminate].
  injection H1 as <- <-. now exists v, b'.
Qed.

Lemma body_init_inv (boundary : bytes) (hs : Headers) (c : content_ref)
  (b : BodyPartReader.t) (w w' : world) :
  BodyPartReader.init boundary hs c w = Ret (b, w') ->
  exists len, b = BodyPartReader.mk hs boundary c false len 0%Z [] /\ w' = w.
Proof.
  unfold BodyPartReader.init. intros H.
  apply bind_inv in H as (len & w1 & H1 & H).
  injection H as <- <-. exists len. split; [reflexivity|].
  destruct (hget _ _) as [v|].
  - apply bind_inv in H1 as (n & w2 & Hn & H1).
    destruct (py_int v); [|discriminate].
    injection Hn as <- <-. now injection H1 as <- <-.
  - now injection H1 as <- <-.
Qed.


Lemma _get_part_reader_body (self : t) (hs : Headers) (len : option Z)
  (w : world) :
  mtype (parse_mimetype (Wire.content_type hs)) <> "multipart"%string ->
  match hget hdrs.CONTENT_LENGTH hs with
  | None => Some None
  | Some v => option_map Some (py_int v)
  end = Some len ->
  _get_part_reader self hs w =
  Ret (BodyPart (BodyPartReader.mk hs (_boundary self) (_content self)
                   false len 0%Z []), w).
Proof.
  intros Hm Hl.
  unfold _get_part_reader. fold (Wire.content_type hs).
  apply String.eqb_neq in Hm. rewrite Hm.
  unfold BodyPartReader.init.
  destruct (hget hdrs.CONTENT_LENGTH hs) as [v|].
  - destruct (py_int v) as [n|] eqn:En; [|discriminate].
    injection Hl as <-. reflexivity.
  - now injection Hl as <-.
Qed.

End Dispatch.



(** A nested body: the first [next] yields a reader for the inner
    boundary; its own [next] yields the first inner part; the following
    [next] of the outer reader drains what is left of the inner body
    and yields the plain part, then the end of the body. *)
Example nested_reader_is_yielded_and_drained :
  observe (ST := Buffered.Stream) 0
    (('(p1, r) <- MultipartReader.next (L := Plain.Lib) 100 Examples.reader ;;
      '(q1, r) <-
         match MultipartReader._last_part r with
         | Some (MultipartReader.Multipart m) =>
             '(q, m) <- MultipartReader.next (L := Plain.Lib) 100 m ;;
             ret (q, MultipartReader.set_last_part
                       (Some (MultipartReader.Multipart m)) r)
         | _ => raise AttributeError
         end ;;
      '(p2, r) <- MultipartReader.next (L := Plain.Lib) 100 r ;;
      '(d2, r) <- MultipartReader.on_last_part
                    (BodyPartReader.read (L := Plain.Lib) 100 false) r ;;
      '(p3, r) <- MultipartReader.next (L := Plain.Lib) 100 r ;;
      ret (Examples.kind p1, Examples.kind q1, Examples.kind p2, d2,
           Examples.kind p3, MultipartReader.at_eof r))
       (store (ST := Buffered.Stream) Examples.nested))
  = Ret (("multipart",
          [("CONTENT-TYPE", "multipart/related; boundary=INNER")])%string,
         ("body", [("CONTENT-TYPE", "text/plain")])%string,
         ("body", [("CONTENT-TYPE", "text/plain")])%string,
         Examples.ln "outer two",
         ("none", [])%string, true, []).
Proof. vm_compute. reflexivity. Qed.

(** ** What the calls of a part leave unchanged *)

Section BodyPartFields.

Context {ST : Stream}.

Import BodyPartReader.

Lemma same_part_refl (self : t) : same_part self self.
Proof. now repeat split. Qed.

Lemma same_part_trans (a b c : t) :
  same_part a b -> same_part b c -> same_part a c.
Proof. unfold same_part. intuition congruence. Qed.

Lemma read_chunk_same (n : Z) (self self' : t) (d : bytes) (w w' : world) :
  read_chunk n self w = Ret (d, self', w') -> same_part self self'.
Proof.
  destruct (_at_eof self) eqn:He.
  - rewrite (read_chunk_at_eof n self w He). intros H.
    injection H as <- <- <-. apply same_part_refl.
  - destruct (_length self) as [len|] eqn:Hl.
    + rewrite (read_chunk_open n len self w He Hl). cbv zeta.
      destruct (s_read _ _) as [chunk s]. intros H.
      injection H as <- <- <-. now repeat split.
    + now rewrite (read_chunk_asserts_length self n w He Hl).
Qed.

Lemma readline_same (self self' : t) (d : bytes) (w w' : world) :
  readline self w = Ret (d, self', w') -> same_part self self'.
Proof.
  destruct (_at_eof self) eqn:He.
  - unfold readline. rewrite He. intros H.
    injection H as <- <- <-. apply same_part_refl.
  - rewrite (readline_open self w He).
    destruct (s_readline _) as [line s].
    destruct (Wire.matches_boundary _ _); intros H;
      injection H as <- <- <-; now repeat split.
Qed.



End BodyPartFields.


(** ** The round trip through a content encoding *)





(** ** Lines of a buffer *)

Lemma has_lf_app (a b : bytes) :
  Wire.has_lf (a ++ b) = Wire.has_lf a || Wire.has_lf b.
Proof. apply existsb_app. Qed.

Lemma take_line_no_lf (l r : bytes) :
  Wire.has_lf l = false -> take_line (l ++ LF :: r) = (l ++ [LF], r).
Proof.
  induction l as [|a l IH]; simpl.
  - reflexivity.
  - rewrite orb_false_iff. intros [Ha Hl].
    rewrite Ha, (IH Hl). reflexivity.
Qed.

Lemma take_line_complete (l r : bytes) :
  Position.complete l -> take_line (l ++ r) = (l, r).
Proof.
  intros (l0 & -> & H). rewrite <- app_assoc. simpl.
  now apply take_line_no_lf.
Qed.

Lemma complete_length (l : bytes) : Position.complete l -> (0 < List.length l)%nat.
Proof. intros (l0 & -> & _). rewrite length_app. simpl. lia. Qed.

Lemma complete_crlf (l : bytes) :
  Wire.has_lf l = false -> Position.complete (l ++ CRLF).
Proof.
  intros H. exists (l ++ [CR]). split.
  - now rewrite <- app_assoc.
  - rewrite has_lf_app, H. reflexivity.
Qed.

Lemma split_lines_complete (s : bytes) :
  Forall Position.complete (Wire.split_lines (s ++ [LF]))
  /\ List.concat (Wire.split_lines (s ++ [LF])) = s ++ [LF].
Proof.
  induction s as [|a s (IHc & IHs)].
  - simpl. split; [|reflexivity].
    constructor; [|constructor]. now exists [].
  - simpl. destruct (Byte.eqb a LF) eqn:Ea.
    + apply Byte.byte_dec_bl in Ea. subst a. split.
      * constructor; [now exists []|assumption].
      * simpl. now rewrite IHs.
    + destruct (Wire.split_lines (s ++ [LF])) as [|l ls].
      * now destruct s.
      * inversion IHc as [|? ? (l0 & -> & Hl0) Hls]; subst. split.
        -- constructor; [|assumption].
           exists (a :: l0). split; [reflexivity|].
           simpl. now rewrite Ea.
        -- simpl in *. now rewrite IHs.
Qed.

Lemma concat_complete_length (ls : list bytes) :
  Forall Position.complete ls -> (List.length ls <= List.length (List.concat ls))%nat.
Proof.
  induction 1 as [|l ls Hl _ IH]; simpl; [lia|].
  apply complete_length in Hl. rewrite length_app. lia.
Qed.

(** ** The stream of a body that has arrived in full *)

Section BufferedBody.

Context {L : Lib}.

Local Existing Instance Buffered.Stream.

Lemma runs_readline_complete (c : content_ref) (l r : bytes) :
  Position.complete l -> runs (content_readline c) c (l ++ r) l r.
Proof.
  intros Hl.
  pose proof (runs_content_readline c (l ++ r)) as H.
  simpl in H. unfold Buffered.readline in H.
  now rewrite (take_line_complete l r Hl) in H.
Qed.

Lemma read_prefix (x r : bytes) (n : Z) :
  n = Z.of_nat (List.length x) -> Buffered.read n (x ++ r) = (x, r).
Proof.
  intros ->. unfold Buffered.read.
  destruct (Z.ltb_spec (Z.of_nat (List.length x)) 0); [lia|].
  rewrite Nat2Z.id, firstn_app, skipn_app, Nat.sub_diag. simpl.
  now rewrite firstn_all, skipn_all, app_nil_r.
Qed.

Import BodyPartReader.

Lemma runs_readline_line (b : t) (l r : bytes) :
  _at_eof b = false -> Position.complete l ->
  Wire.matches_boundary (_boundary b) l = false ->
  runs (readline b) (_content b) (l ++ r) (l, b) r.
Proof.
  intros He Hl Hm w Hw. rewrite (readline_open b w He), Hw.
  simpl. unfold Buffered.readline. rewrite (take_line_complete l r Hl), Hm.
  eexists. split; [reflexivity|]. apply (upd_same (ST := Buffered.Stream)).
Qed.

Lemma runs_readline_boundary (b : t) (l r : bytes) :
  _at_eof b = false -> Position.complete l ->
  Wire.matches_boundary (_boundary b) l = true ->
  runs (readline b) (_content b) (l ++ r)
    ([], set_unread (_unread b ++ [l]) (set_at_eof true b)) r.
Proof.
  intros He Hl Hm w Hw. rewrite (readline_open b w He), Hw.
  simpl. unfold Buffered.readline. rewrite (take_line_complete l r Hl), Hm.
  eexists. split; [reflexivity|]. apply (upd_same (ST := Buffered.Stream)).
Qed.

(** The loop over the lines of a part, up to the boundary line. *)
Lemma runs_read_lines (b : t) (bl r : bytes) (ls : list bytes) :
  _at_eof b = false ->
  Forall Position.complete ls ->
  Forall (fun l => Wire.matches_boundary (_boundary b) l = false) ls ->
  Position.complete bl ->
  Wire.matches_boundary (_boundary b) bl = true ->
  forall (fuel : nat) (data : bytes),
    (List.length ls < fuel)%nat ->
    runs (read_lines fuel data b) (_content b)
      (List.concat ls ++ bl ++ r)
      (data ++ List.concat ls,
       set_unread (_unread b ++ [bl]) (set_at_eof true b))
      r.
Proof.
  intros He Hc Hm Hbl Hb.
  induction Hc as [|l ls Hl Hls IH]; intros fuel data Hf;
    (destruct fuel as [|fuel]; [simpl in Hf; lia|]);
    simpl read_lines; rewrite He.
  - simpl List.concat. rewrite app_nil_r. simpl app.
    eapply runs_bind; [now apply runs_readline_boundary|].
    destruct fuel; simpl; rewrite app_nil_r; apply runs_ret.
  - inversion Hm as [|? ? Hml Hmls]; subst.
    simpl List.concat. rewrite <- app_assoc, (app_assoc data l).
    eapply runs_bind; [now apply runs_readline_line|].
    apply IH; [assumption|]. simpl in Hf. lia.
Qed.

(** The loop over the bytes of a part with a declared length. *)
Lemma runs_read_chunks (n : Z) (r : bytes) (fuel : nat) :
  forall (b : t) (x data : bytes),
    _at_eof b = false -> _length b = Some n ->
    Z.of_nat (List.length x) = (n - _read_bytes b)%Z ->
    (List.length x < fuel)%nat ->
    runs (read_chunks fuel data b) (_content b) (x ++ r)
      (data ++ x,
       mk (headers b) (_boundary b) (_content b) true (Some n) n (_unread b))
      r.
Proof.
  induction fuel as [|fuel IH]; intros b x data He Hl Hx Hf; [lia|].
  simpl read_chunks. rewrite He.
  set (m := Z.min chunk_size (n - _read_bytes b)).
  assert (Hm : (0 <= m <= Z.of_nat (List.length x))%Z)
    by (unfold m, chunk_size; lia).
  assert (Hsplit : exists xa xb,
             x = xa ++ xb /\ Z.of_nat (List.length xa) = m).
  { exists (firstn (Z.to_nat m) x), (skipn (Z.to_nat m) x). split.
    - symmetry. apply firstn_skipn.
    - rewrite length_firstn. lia. }
  destruct Hsplit as (xa & xb & -> & Hxa).
  rewrite length_app in Hx, Hf, Hm.
  intros w Hw.
  pose proof (read_chunk_open chunk_size n b w He Hl) as E.
  cbv zeta in E. fold m in E. rewrite Hw in E.
  simpl s_read in E. rewrite <- app_assoc in E.
  rewrite (read_prefix xa (xb ++ r) m) in E by lia.
  rewrite (bind_Ret _ _ E). clear E.
  destruct (Z.eqb_spec (_read_bytes b + m) n) as [Hend|Hmore].
  - assert (Hnil : xb = []) by (apply length_zero_iff_nil; lia).
    subst xb. rewrite app_nil_r.
    destruct fuel; simpl; rewrite Hend; eexists;
      (split; [reflexivity|apply (upd_same (ST := Buffered.Stream))]).
  - set (b1 := mk (headers b) (_boundary b) (_content b) false (Some n)
                  (_read_bytes b + m) (_unread b)).
    assert (H1 : Z.of_nat (List.length xb) = (n - _read_bytes b1)%Z)
      by (subst b1; simpl; lia).
    assert (H2 : (List.length xb < fuel)%nat)
      by (unfold m, chunk_size in *; lia).
    destruct (IH b1 xb (data ++ xa) eq_refl eq_refl H1 H2
                (upd (ST := Buffered.Stream) (_content b) (xb ++ r) w)
                (upd_same (ST := Buffered.Stream) _ _ _))
      as (w' & E & Hw').
    exists w'. split; [|assumption].
    simpl. rewrite E. now rewrite <- app_assoc.
Qed.

End BufferedBody.

(** ** Boundary lines *)

Lemma well_formed_boundary_inv (boundary : bytes) :
  Wire.well_formed_boundary boundary = true ->
  Wire.has_lf boundary = false /\ rstrip boundary = boundary.
Proof.
  unfold Wire.well_formed_boundary. rewrite andb_true_iff, negb_true_iff.
  intros [H1 H2]. now apply bytes_eqb_eq in H2.
Qed.

Lemma rstrip_delimiter (boundary : bytes) :
  rstrip boundary = boundary -> rstrip (boundary ++ CRLF) = boundary.
Proof. intros H. unfold rstrip. now rewrite rstrip_by_app_all. Qed.

Lemma rstrip_terminator (boundary : bytes) :
  rstrip (Wire.terminator boundary) = boundary ++ bytes_of "--".
Proof.
  unfold Wire.terminator, rstrip. rewrite app_assoc.
  rewrite rstrip_by_app_all by reflexivity.
  change (bytes_of "--") with ([x2d] ++ [x2d]). rewrite app_assoc.
  now apply rstrip_by_snoc_keep.
Qed.

Lemma rstrip_crlf_delimiter (boundary : bytes) :
  rstrip boundary = boundary -> rstrip_crlf (boundary ++ CRLF) = boundary.
Proof.
  intros H. unfold rstrip_crlf. rewrite rstrip_by_app_all by reflexivity.
  apply rstrip_by_weaker with (f := is_space); [|exact H].
  apply is_crlf_char_space.
Qed.

Lemma rstrip_crlf_terminator (boundary : bytes) :
  rstrip_crlf (Wire.terminator boundary) = boundary ++ bytes_of "--".
Proof.
  unfold Wire.terminator, rstrip_crlf. rewrite app_assoc.
  rewrite rstrip_by_app_all by reflexivity.
  change (bytes_of "--") with ([x2d] ++ [x2d]). rewrite app_assoc.
  now apply rstrip_by_snoc_keep.
Qed.

Lemma terminator_is_not_delimiter (boundary : bytes) :
  bytes_eqb (boundary ++ bytes_of "--") boundary = false.
Proof.
  apply bytes_eqb_neq. intros H.
  apply (f_equal (@List.length byte)) in H.
  rewrite length_app in H. simpl in H. lia.
Qed.

Lemma render_next_line (boundary : bytes) (ps : list Wire.part) :
  Wire.render boundary ps
  = Position.next_line boundary ps ++ Position.after_line boundary ps.
Proof.
  destruct ps as [|p ps]; simpl.
  - unfold Wire.render. simpl. now rewrite app_nil_r.
  - unfold Wire.render. simpl. unfold Wire.render_part, Wire.between.
    now rewrite <- !app_assoc.
Qed.

Lemma next_line_complete (boundary : bytes) (ps : list Wire.part) :
  Wire.has_lf boundary = false ->
  Position.complete (Position.next_line boundary ps).
Proof.
  intros H. destruct ps; simpl.
  - unfold Wire.terminator. rewrite app_assoc. apply complete_crlf.
    rewrite has_lf_app, H. reflexivity.
  - now apply complete_crlf.
Qed.

Lemma next_line_matches (boundary : bytes) (ps : list Wire.part) :
  rstrip boundary = boundary ->
  Wire.matches_boundary boundary (Position.next_line boundary ps) = true.
Proof.
  intros H. apply matches_boundary_true. destruct ps; simpl.
  - right. apply rstrip_crlf_terminator.
  - left. now apply rstrip_crlf_delimiter.
Qed.

Lemma next_line_length (boundary : bytes) (ps : list Wire.part) :
  (2 <= List.length (Position.next_line boundary ps))%nat.
Proof.
  destruct ps; simpl; unfold Wire.terminator;
    rewrite ?length_app; simpl; lia.
Qed.

(** Two buffers that start with a complete line start with the same. *)
Lemma complete_line_unique (l l' r r' : bytes) :
  Position.complete l -> Position.complete l' ->
  l ++ r = l' ++ r' -> l = l' /\ r = r'.
Proof.
  intros Hl Hl' E.
  pose proof (take_line_complete l r Hl) as H.
  rewrite E, (take_line_complete l' r' Hl') in H.
  now injection H as <- <-.
Qed.

Lemma header_block_length (p : Wire.part) :
  (List.length (Wire.header_lines p) < List.length (Wire.header_block p))%nat.
Proof.
  unfold Wire.header_block. rewrite length_app. simpl.
  induction (Wire.header_lines p) as [|l ls IH]; simpl; [lia|].
  rewrite !length_app. simpl. lia.
Qed.

(** ** The reader between two parts *)

Section BufferedReader.

Context {L : Lib}.

Local Existing Instance Buffered.Stream.

Import MultipartReader.

Variable boundary : bytes.
Variable c : content_ref.
Variable hs : Headers.

Hypothesis boundary_has_no_lf : Wire.has_lf boundary = false.
Hypothesis boundary_is_stripped : rstrip boundary = boundary.

(** The boundary line comes from the stream or from the pushback. *)
Lemma runs__readline (p : option part) (e : bool) (u : list bytes)
  (l s s' : bytes) :
  (u = [] /\ s = l ++ s' /\ Position.complete l) \/ (u = [l] /\ s = s') ->
  runs (_readline (mk hs boundary c p e u)) c s
    (l, mk hs boundary c p e []) s'.
Proof.
  intros [(-> & -> & Hl) | (-> & ->)]; unfold _readline; simpl.
  - eapply runs_bind; [now apply runs_readline_complete|]. apply runs_ret.
  - apply runs_ret.
Qed.

Lemma runs__read_boundary (ps : list Wire.part) (p : option part)
  (u : list bytes) (s : bytes) :
  (u = [] /\ s = Wire.render boundary ps) \/
  (u = [Position.next_line boundary ps]
   /\ s = Position.after_line boundary ps) ->
  runs (_read_boundary (mk hs boundary c p false u)) c s
    (mk hs boundary c p
       (match ps with [] => true | _ :: _ => false end) [])
    (Position.after_line boundary ps).
Proof.
  intros H. unfold _read_boundary.
  eapply runs_bind.
  - apply runs__readline with (l := Position.next_line boundary ps).
    destruct H as [(-> & ->) | (-> & ->)]; [left|right; now split].
    split; [reflexivity|]. split; [apply render_next_line|].
    now apply next_line_complete.
  - simpl. destruct ps as [|p0 ps]; simpl.
    + rewrite rstrip_terminator, terminator_is_not_delimiter,
        bytes_eqb_refl.
      apply runs_ret.
    + rewrite (rstrip_delimiter _ boundary_is_stripped), bytes_eqb_refl.
      apply runs_ret.
Qed.

(** The header block. *)
Lemma runs__read_headers_loop (t0 : string) (rest : bytes) :
  Wire.header_text [] = Some t0 -> str_is_empty t0 = true ->
  forall (lines : list bytes) (ts acc : list string) (fuel : nat),
    forallb (fun l => negb (Wire.has_lf l)) lines = true ->
    Wire.header_texts lines = Some ts ->
    (List.length lines < fuel)%nat ->
    runs (_read_headers_loop fuel c acc) c
      (List.concat (map (fun l => l ++ CRLF) lines) ++ CRLF ++ rest)
      (acc ++ ts ++ [t0]) rest.
Proof.
  intros Ht0 He0.
  induction lines as [|l lines IH]; intros ts acc fuel Hlf Hts Hf;
    (destruct fuel as [|fuel]; [simpl in Hf; lia|]);
    simpl _read_headers_loop.
  - injection Hts as <-. simpl.
    eapply runs_bind.
    { apply runs_readline_complete with (l := CRLF). now exists [CR]. }
    unfold Wire.header_text in Ht0. simpl in Ht0.
    destruct (bytes_decode CRLF) as [t|]; [|discriminate].
    simpl in Ht0. injection Ht0 as Ht0.
    eapply runs_bind; [apply runs_ret|].
    simpl. rewrite Ht0, He0. apply runs_ret.
  - simpl in Hlf. apply andb_true_iff in Hlf as [Hl Hlf].
    apply negb_true_iff in Hl.
    simpl in Hts. unfold Wire.header_text in Hts at 1.
    destruct (bytes_decode (l ++ CRLF)) as [t|] eqn:Ed; [|discriminate].
    simpl in Hts.
    destruct (Wire.header_texts lines) as [ts'|]; [|discriminate].
    destruct (str_is_empty (str_strip t)) eqn:Ee; [discriminate|].
    injection Hts as <-.
    simpl map. simpl List.concat. rewrite <- app_assoc.
    eapply runs_bind.
    { apply runs_readline_complete. now apply complete_crlf. }
    rewrite Ed. eapply runs_bind; [apply runs_ret|].
    simpl. rewrite Ee.
    replace (acc ++ str_strip t :: ts' ++ [t0])
      with ((acc ++ [str_strip t]) ++ ts' ++ [t0])
      by now rewrite <- app_assoc.
    apply IH; [assumption|reflexivity|simpl in Hf; lia].
Qed.

Lemma runs__read_headers (p : Wire.part) (hs' : Headers)
  (self : t) (rest : bytes) (fuel : nat) :
  _content self = c ->
  forallb (fun l => negb (Wire.has_lf l)) (Wire.header_lines p) = true ->
  Wire.block_headers p = Some hs' ->
  (List.length (Wire.header_lines p) < fuel)%nat ->
  runs (_read_headers fuel self) c (Wire.header_block p ++ rest) hs' rest.
Proof.
  intros Hc Hlf Hb Hf. unfold Wire.block_headers in Hb.
  destruct (Wire.header_texts (Wire.header_lines p)) as [ts|] eqn:Ets;
    [|discriminate].
  destruct (Wire.header_text []) as [t0|] eqn:Et0; [|discriminate].
  destruct (str_is_empty t0) eqn:Ee; [|discriminate].
  unfold _read_headers, Wire.header_block. rewrite Hc, <- app_assoc.
  eapply runs_bind.
  - now apply (runs__read_headers_loop t0 rest Et0 Ee _ ts).
  - simpl. rewrite Hb. apply runs_ret.
Qed.

End BufferedReader.

(** ** Well-formed parts *)

Section WellFormedParts.

Context {L : Lib}.

Lemma well_formed_part_inv (boundary : bytes) (p : Wire.part) :
  Wire.well_formed_part boundary p = true ->
  forallb (fun l => negb (Wire.has_lf l)) (Wire.header_lines p) = true
  /\ Wire.block_headers p = Some (Wire.part_headers p)
  /\ mtype (parse_mimetype (Wire.content_type (Wire.part_headers p)))
     <> "multipart"%string
  /\ match hget hdrs.CONTENT_LENGTH (Wire.part_headers p) with
     | None => Some None
     | Some v => option_map Some (py_int v)
     end = Some (Position.declared_length p)
  /\ ((hget hdrs.CONTENT_LENGTH (Wire.part_headers p) = None
       /\ Position.declared_length p = None
       /\ Forall (fun l => Wire.matches_boundary boundary l = false)
            (Wire.split_lines (Wire.between p)))
      \/ ((exists v, hget hdrs.CONTENT_LENGTH (Wire.part_headers p) = Some v)
          /\ Position.declared_length p
             = Some (Z.of_nat (List.length (Wire.payload p))))).
Proof.
  unfold Wire.well_formed_part, Position.declared_length, Wire.part_headers.
  rewrite andb_true_iff. intros [Hlf H].
  destruct (Wire.block_headers p) as [hs|]; [|discriminate].
  apply andb_true_iff in H as [Hm H].
  apply negb_true_iff, String.eqb_neq in Hm.
  repeat split; try assumption.
  - destruct (hget _ hs) as [v|]; [|reflexivity].
    destruct (py_int v); [reflexivity|discriminate].
  - destruct (hget _ hs) as [v|].
    + right. split; [now exists v|].
      destruct (py_int v) as [n|]; [|discriminate].
      apply Z.eqb_eq in H. now subst.
    + left. repeat split. apply Forall_forall. intros l Hl.
      rewrite forallb_forall in H. apply negb_true_iff. now apply H.
Qed.

Lemma well_formed_boundary_of (boundary : bytes) (ps : list Wire.part) :
  Wire.well_formed boundary ps = true ->
  Wire.has_lf boundary = false /\ rstrip boundary = boundary.
Proof.
  unfold Wire.well_formed. rewrite andb_true_iff. intros [H _].
  now apply well_formed_boundary_inv.
Qed.

(** The lines of the payload of a line-bounded part. *)
Lemma between_lines (p : Wire.part) :
  Forall Position.complete (Wire.split_lines (Wire.between p))
  /\ List.concat (Wire.split_lines (Wire.between p)) = Wire.between p.
Proof.
  unfold Wire.between.
  change CRLF with ([CR] ++ [LF]). rewrite app_assoc.
  apply split_lines_complete.
Qed.

End WellFormedParts.

(** ** Draining a part *)

Section Drain.

Context {L : Lib}.

Local Existing Instance Buffered.Stream.

Variable boundary : bytes.
Variable c : content_ref.

Hypothesis boundary_has_no_lf : Wire.has_lf boundary = false.
Hypothesis boundary_is_stripped : rstrip boundary = boundary.

(** From any position in a part, the release of the part, which [next]
    runs when the part is open, leaves the stream at the boundary line
    or just after it, the line then being in the pushback. *)
Lemma runs_release_in_part (ps : list Wire.part) (b : BodyPartReader.t)
  (s : bytes) (fuel : nat) :
  Position.in_part boundary c (Wire.render boundary ps) b s ->
  (List.length s <= fuel)%nat ->
  exists b' s',
    runs (if negb (BodyPartReader.at_eof b)
          then BodyPartReader.release fuel b else ret b) c s b' s'
    /\ ((BodyPartReader._unread b' = [] /\ s' = Wire.render boundary ps)
        \/ (BodyPartReader._unread b' = [Position.next_line boundary ps]
            /\ s' = Position.after_line boundary ps))
    /\ (List.length (Position.after_line boundary ps) <= List.length s)%nat.
Proof.
  intros Hpos Hf.
  pose proof (render_next_line boundary ps) as Hr.
  pose proof (next_line_length boundary ps) as Hn.
  assert (Hrl : (List.length (Position.after_line boundary ps) + 2
                 <= List.length (Wire.render boundary ps))%nat)
    by (rewrite Hr, length_app; lia).
  destruct Hpos as [b ls He Hl Hb Hc Hu Hcs Hms
                  | b line rest' He Hu Hrest Hline
                  | b n x He Hl Hc Hu Hx
                  | b He Hu]; unfold BodyPartReader.at_eof.
  - (* in the lines *)
    rewrite He. simpl negb. cbv iota.
    rewrite length_app in Hf.
    pose proof (concat_complete_length ls Hcs) as Hlen.
    eexists _, _. split; [|split].
    + unfold BodyPartReader.release. rewrite He, Hl, Hr, <- Hc.
      eapply runs_bind.
      { apply runs_read_lines with (data := []);
          [assumption | assumption | now rewrite Hb
          | now apply next_line_complete
          | rewrite Hb; now apply next_line_matches | lia]. }
      simpl. apply runs_ret.
    + right. simpl. now rewrite Hu.
    + rewrite length_app. lia.
  - (* past the lines *)
    rewrite He. simpl negb. cbv iota.
    rewrite Hr in Hrest.
    destruct (complete_line_unique _ _ _ _
                (next_line_complete boundary ps boundary_has_no_lf)
                Hline Hrest) as [<- <-].
    exists b, (Position.after_line boundary ps).
    split; [apply runs_ret|]. split; [now right|lia].
  - (* in the bytes *)
    rewrite He. simpl negb. cbv iota.
    rewrite !length_app in Hf. simpl in Hf.
    eexists _, _. split; [|split].
    + unfold BodyPartReader.release. rewrite He, Hl, <- Hc.
      eapply runs_bind.
      { apply runs_read_chunks with (data := []) (n := n);
          [assumption|assumption|exact Hx|lia]. }
      simpl. eapply runs_bind.
      { apply runs_readline_complete with (l := CRLF). now exists [CR]. }
      simpl. eapply runs_bind; [apply runs_ret|apply runs_ret].
    + left. simpl. now split.
    + rewrite !length_app. simpl. lia.
  - (* past the bytes *)
    rewrite He. simpl negb. cbv iota.
    exists b, (Wire.render boundary ps).
    split; [apply runs_ret|]. split; [now left|lia].
Qed.

End Drain.

(** ** One call of [next] *)

Section NextPart.

Context {L : Lib}.

Local Existing Instance Buffered.Stream.

Import MultipartReader.

Variable boundary : bytes.
Variable c : content_ref.
Variable hs : Headers.

Hypothesis boundary_has_no_lf : Wire.has_lf boundary = false.
Hypothesis boundary_is_stripped : rstrip boundary = boundary.

Lemma runs_maybe_release_between (ps : list Wire.part) (r : t) (s : bytes)
  (fuel : nat) :
  Position.between_parts boundary c hs ps r s ->
  (List.length s <= fuel)%nat ->
  exists u s',
    runs (_maybe_release_last_part fuel r) c s
      (mk hs boundary c None false u) s'
    /\ ((u = [] /\ s' = Wire.render boundary ps)
        \/ (u = [Position.next_line boundary ps]
            /\ s' = Position.after_line boundary ps))
    /\ (List.length (Position.after_line boundary ps) <= List.length s)%nat.
Proof.
  intros Hbetween Hf. destruct Hbetween as [|b s Hpos].
  - exists [], (Wire.render boundary ps). split; [apply runs_ret|].
    split; [now left|]. rewrite render_next_line, length_app. lia.
  - destruct (runs_release_in_part boundary c boundary_has_no_lf
                boundary_is_stripped ps b s fuel Hpos Hf)
      as (b' & s' & Hrun & Hcases & Hlen).
    exists (BodyPartReader._unread b'), s'.
    split; [|now split].
    unfold _maybe_release_last_part, _maybe_release_last_part_with.
    simpl. unfold BodyPartReader.at_eof in *.
    destruct (BodyPartReader._at_eof b); simpl in *.
    + destruct (runs_ret_inv _ _ _ _ _ Hrun) as [-> ->].
      eapply runs_bind; apply runs_ret.
    + eapply runs_bind.
      { unfold part_release, part_release_with.
        eapply runs_bind; [exact Hrun|apply runs_ret]. }
      apply runs_ret.
Qed.

(** [next] between two parts: the end of the body after the last part,
    else the reader of the following part, the stream at its payload. *)
Lemma runs_next_between (ps : list Wire.part) (r : t) (s : bytes)
  (fuel : nat) :
  forallb (Wire.well_formed_part boundary) ps = true ->
  Position.between_parts boundary c hs ps r s ->
  (List.length s <= fuel)%nat ->
  runs (next fuel r) c s
    (match ps with
     | [] => (None, mk hs boundary c None true [])
     | p :: _ =>
         let b := BodyPart (Position.fresh_part boundary c p) in
         (Some b, mk hs boundary c (Some b) false [])
     end)
    (match ps with
     | [] => []
     | p :: ps' => Wire.between p ++ Wire.render boundary ps'
     end).
Proof.
  intros Hwf Hpos Hf.
  destruct (runs_maybe_release_between ps r s fuel Hpos Hf)
    as (u & s' & Hrel & Hcases & Hlen).
  assert (He : _at_eof r = false) by now destruct Hpos.
  unfold next, next_with. rewrite He.
  fold (_maybe_release_last_part fuel).
  eapply runs_bind; [exact Hrel|].
  eapply runs_bind.
  { exact (runs__read_boundary boundary c hs boundary_has_no_lf
             boundary_is_stripped ps None u s' Hcases). }
  destruct ps as [|p ps']; simpl _at_eof; cbv iota.
  - apply runs_ret.
  - simpl in Hwf. apply andb_true_iff in Hwf as [Hp _].
    destruct (well_formed_part_inv boundary p Hp)
      as (Hlf & Hb & Hm & Hlen' & _).
    simpl Position.after_line in *.
    pose proof (header_block_length p) as Hh.
    rewrite length_app in Hlen.
    eapply runs_bind.
    + unfold fetch_next_part. eapply runs_bind.
      * apply runs__read_headers with (p := p);
          [reflexivity|assumption|exact Hb|lia].
      * intros w Hw. exists w. split; [|exact Hw].
        apply _get_part_reader_body; [exact Hm|exact Hlen'].
    + apply runs_ret.
Qed.

End NextPart.

(** ** The calls of the caller on a part *)

Section CallsOnPart.

Context {L : Lib}.

Local Existing Instance Buffered.Stream.

Variable boundary : bytes.
Variable c : content_ref.

Hypothesis boundary_has_no_lf : Wire.has_lf boundary = false.
Hypothesis boundary_is_stripped : rstrip boundary = boundary.

Lemma runs_on_last_part {A} (op : BodyPartReader.t -> M (A * BodyPartReader.t))
  (r : MultipartReader.t) (b b' : BodyPartReader.t) (a : A) (s s' : bytes) :
  MultipartReader._last_part r = Some (MultipartReader.BodyPart b) ->
  runs (op b) c s (a, b') s' ->
  runs (MultipartReader.on_last_part op r) c s
    (a, MultipartReader.set_last_part
          (Some (MultipartReader.BodyPart b')) r) s'.
Proof.
  intros Hp Hrun. unfold MultipartReader.on_last_part. rewrite Hp.
  eapply runs_bind; [exact Hrun|]. apply runs_ret.
Qed.

(** The part that [next] has just constructed is at the start of its
    payload. *)
Lemma fresh_part_in_part (p : Wire.part) (rest : bytes) :
  Wire.well_formed_part boundary p = true ->
  Position.in_part boundary c rest (Position.fresh_part boundary c p)
    (Wire.between p ++ rest).
Proof.
  intros Hp.
  destruct (well_formed_part_inv boundary p Hp)
    as (_ & _ & _ & _ & [(_ & Hd & Hms) | (_ & Hd)]).
  - destruct (between_lines p) as (Hc & <-).
    apply Position.in_lines; try reflexivity; assumption.
  - unfold Wire.between. rewrite <- app_assoc.
    apply Position.in_bytes
      with (n := Z.of_nat (List.length (Wire.payload p)));
      try reflexivity.
    + exact Hd.
    + simpl. lia.
Qed.

(** [read()] on that part. *)
Lemma runs_read_fresh (p : Wire.part) (ps : list Wire.part) (fuel : nat) :
  Wire.well_formed_part boundary p = true ->
  (List.length (Wire.between p ++ Wire.render boundary ps) <= fuel)%nat ->
  exists b' s',
    runs (BodyPartReader.read fuel false (Position.fresh_part boundary c p))
      c (Wire.between p ++ Wire.render boundary ps)
      (Wire.expected_read p, b') s'
    /\ Position.in_part boundary c (Wire.render boundary ps) b' s'
    /\ (List.length s' <= List.length (Wire.render boundary ps))%nat.
Proof.
  intros Hp Hf.
  pose proof (render_next_line boundary ps) as Hr.
  pose proof (next_line_complete boundary ps boundary_has_no_lf) as Hnl.
  rewrite length_app in Hf.
  assert (Hrl : (2 <= List.length (Wire.render boundary ps))%nat).
  { pose proof (next_line_length boundary ps).
    rewrite Hr, length_app. lia. }
  destruct (well_formed_part_inv boundary p Hp)
    as (_ & _ & _ & _ & Hmode).
  unfold BodyPartReader.read, Wire.expected_read, Position.fresh_part.
  simpl.
  destruct Hmode as [(Hh & Hd & Hms) | ((v & Hh) & Hd)]; rewrite Hh, Hd.
  - destruct (between_lines p) as (Hc & Hcat).
    eexists _, (Position.after_line boundary ps). split; [|split].
    + change (Wire.payload p ++ CRLF) with (Wire.between p).
      rewrite <- Hcat, Hr.
      eapply runs_bind.
      { apply (runs_read_lines
                 (BodyPartReader.mk (Wire.part_headers p) boundary c false
                    None 0%Z [])
                 (Position.next_line boundary ps)
                 (Position.after_line boundary ps)
                 (Wire.split_lines (Wire.between p)));
          try assumption; try reflexivity.
        * now apply next_line_matches.
        * pose proof (concat_complete_length _ Hc) as Hlen.
          rewrite Hcat in Hlen. lia. }
      simpl. apply runs_ret.
    + eapply Position.past_lines; [reflexivity|reflexivity|exact Hr|exact Hnl].
    + rewrite Hr, length_app. lia.
  - eexists _, (Wire.render boundary ps). split; [|split].
    + unfold Wire.between. rewrite <- app_assoc.
      eapply runs_bind.
      { eapply runs_bind.
        { apply (runs_read_chunks (Z.of_nat (List.length (Wire.payload p)))
                   (CRLF ++ Wire.render boundary ps) fuel
                   (BodyPartReader.mk (Wire.part_headers p) boundary c false
                      (Some (Z.of_nat (List.length (Wire.payload p)))) 0%Z [])
                   (Wire.payload p) []);
            try reflexivity.
          - simpl. lia.
          - unfold Wire.between in Hf. rewrite length_app in Hf. lia. }
        simpl. eapply runs_bind.
        { apply runs_readline_complete with (l := CRLF). now exists [CR]. }
        simpl. eapply runs_bind; apply runs_ret. }
      simpl. apply runs_ret.
    + now apply Position.past_bytes.
    + lia.
Qed.

End CallsOnPart.

(** ** Ordering and completeness *)

Section Ordering.

Context {L : Lib}.

Local Existing Instance Buffered.Stream.

Variable boundary : bytes.
Variable c : content_ref.
Variable hs : Headers.

Hypothesis boundary_has_no_lf : Wire.has_lf boundary = false.
Hypothesis boundary_is_stripped : rstrip boundary = boundary.

Lemma between_parts_length (ps : list Wire.part) (r : MultipartReader.t)
  (s : bytes) :
  Position.between_parts boundary c hs ps r s ->
  (List.length (Position.after_line boundary ps) <= List.length s)%nat.
Proof.
  intros H.
  destruct (runs_maybe_release_between boundary c hs boundary_has_no_lf
              boundary_is_stripped ps r s (List.length s) H (le_n _))
    as (_ & _ & _ & _ & Hlen).
  exact Hlen.
Qed.

Lemma runs_read_parts (ps : list Wire.part) :
  forallb (Wire.well_formed_part boundary) ps = true ->
  forall (r : MultipartReader.t) (s : bytes) (fuel : nat),
    Position.between_parts boundary c hs ps r s ->
    (List.length s < fuel)%nat ->
    exists self,
      runs (Caller.read_parts fuel r) c s
        (map (fun p => (Wire.part_headers p, Wire.expected_read p)) ps, self)
        []
      /\ MultipartReader.at_eof self = true.
Proof.
  induction ps as [|p ps IH]; intros Hwf r s fuel Hpos Hf;
    (destruct fuel as [|fuel]; [lia|]);
    pose proof (runs_next_between boundary c hs boundary_has_no_lf
                  boundary_is_stripped _ r s fuel Hwf Hpos
                  ltac:(lia)) as Hnext;
    simpl Caller.read_parts.
  - cbv iota in Hnext. eexists. split.
    + eapply runs_bind; [exact Hnext|]. apply runs_ret.
    + reflexivity.
  - cbv iota zeta in Hnext.
    pose proof (between_parts_length _ r s Hpos) as Hlen.
    simpl Position.after_line in Hlen.
    pose proof (header_block_length p) as Hh.
    rewrite length_app in Hlen.
    simpl in Hwf. apply andb_true_iff in Hwf as [Hp Hps].
    destruct (runs_read_fresh boundary c boundary_has_no_lf
                boundary_is_stripped p ps fuel Hp ltac:(lia))
      as (b' & s' & Hread & Hin & Hlen').
    rewrite length_app in Hlen.
    destruct (IH Hps
                (MultipartReader.mk hs boundary c
                   (Some (MultipartReader.BodyPart b')) false [])
                s' fuel (@Position.after_part boundary c hs ps b' s' Hin)
                ltac:(lia))
      as (self & Hrest & Heof).
    exists self. split; [|exact Heof].
    eapply runs_bind; [exact Hnext|]. cbv zeta. cbv iota beta.
    eapply runs_bind.
    { apply runs_on_last_part with (b := Position.fresh_part boundary c p);
        [reflexivity|exact Hread]. }
    cbv iota beta. simpl MultipartReader.set_last_part.
    eapply runs_bind; [exact Hrest|]. apply runs_ret.
Qed.

End Ordering.

(** C1, as the code has it.  For every well-formed body whose parts
    have a payload of their own, on a stream that holds the body in
    full, the loop of [next()] and [read()] yields the parts in order,
    each with its headers, then the end of the body: [next()] returns
    no part and [at_eof()] holds.  The [read()] of a part without a
    declared length returns all the bytes between its header block and
    the following boundary line, the line terminator before that line
    included; the [read()] of a part with a declared length returns the
    declared number of bytes, which leaves that line terminator out.
    Enough fuel is more than the length of the body. *)
Theorem parts_are_read_in_order {L : Lib} (boundary : bytes)
  (ps : list Wire.part) :
  Wire.well_formed boundary ps = true ->
  Statement.reads_in_order Wire.expected_read boundary ps.
Proof.
  intros Hwf hs c fuel Hf.
  destruct (well_formed_boundary_of boundary ps Hwf) as [Hlf Hst].
  unfold Wire.well_formed in Hwf. apply andb_true_iff in Hwf as [_ Hps].
  apply (runs_read_parts boundary c hs Hlf Hst ps Hps); [|exact Hf].
  apply Position.at_start.
Qed.

(** The scenario: two parts, the second with a declared length. *)
Lemma parts_are_read_in_order_witness :
  Statement.reads_in_order (L := Plain.Lib)
    (Wire.expected_read (L := Plain.Lib))
    Examples.XBOUND [Examples.json_part; Examples.hello_wire].
Proof.
  apply (parts_are_read_in_order (L := Plain.Lib) Examples.XBOUND
           [Examples.json_part; Examples.hello_wire]).
  vm_compute. reflexivity.
Defined.

(** C1, as stated, fails: the [read()] of a part that declares its
    length does not return all the bytes between the header block and
    the following boundary line.  For the part [hello] of the scenario
    these bytes are [hello] and the line terminator, and [read()]
    returns [hello].  Reading "the bytes between" as the payload without
    that line terminator does not save the statement: the [read()] of
    the other part of the scenario, which declares no length, returns
    the line terminator too. *)
Lemma declared_length_leaves_terminator_out :
  ~ Statement.reads_in_order (L := Plain.Lib) Wire.between
      Examples.XBOUND [Examples.hello_wire]
  /\ ~ Statement.reads_in_order (L := Plain.Lib) Wire.payload
        Examples.XBOUND [Examples.json_part].
Proof.
  split; intros H;
    destruct (H [] 0 100 ltac:(vm_compute; lia)) as (self & Hrun & _);
    destruct (Hrun (store (ST := Buffered.Stream) _) eq_refl)
      as (w' & E & _);
    apply (f_equal (observe (ST := Buffered.Stream) 0)) in E;
    vm_compute in E; discriminate E.
Qed.

(** ** A part left half read *)

Section HalfRead.

Context {L : Lib}.

Local Existing Instance Buffered.Stream.

Variable boundary : bytes.
Variable c : content_ref.

Hypothesis boundary_has_no_lf : Wire.has_lf boundary = false.
Hypothesis boundary_is_stripped : rstrip boundary = boundary.






End HalfRead.

(** ** The drain invariant *)




(** ** The round trip from the wire *)

Section Codec.

Context {L : Lib}.

(** The compressors that produced the payload, and what zlib
    guarantees of them: [zlib.decompress] returns the data of the
    stream that its input starts with and ignores what follows. *)
Variables gzip_compress deflate_compress : bytes -> bytes.

Hypothesis gzip_round_trip :
  forall plain rest,
    zlib_decompress (gzip_compress plain ++ rest) (16 + MAX_WBITS)
    = Some plain.

Hypothesis deflate_round_trip :
  forall plain rest,
    zlib_decompress (deflate_compress plain ++ rest) (- MAX_WBITS)
    = Some plain.



End Codec.



(* ================================================================== *)
(** * Properties of the rest of the module *)

(** ** What every call of a part keeps *)

Section Lifting.

Context {L : Lib} {ST : Stream}.

Import BodyPartReader.

(** A relation between the part before and after a call that holds of
    the two primitive calls holds of every call. *)
Variable P : t -> t -> Prop.
Variable ok : Z -> Prop.

Hypothesis P_refl : forall b, P b b.
Hypothesis P_trans : forall a b c, P a b -> P b c -> P a c.
Hypothesis ok_chunk_size : ok chunk_size.
Hypothesis P_read_chunk :
  forall n b d b' w w',
    ok n -> read_chunk n b w = Ret (d, b', w') -> P b b'.
Hypothesis P_readline :
  forall b d b' w w', readline b w = Ret (d, b', w') -> P b b'.

Lemma lift_read_lines (fuel : nat) :
  forall data b d b' w w',
    read_lines fuel data b w = Ret (d, b', w') -> P b b'.
Proof.
  induction fuel as [|fuel IH]; intros data b d b' w w'; simpl;
    destruct (_at_eof b); intros H;
    try (injection H as <- <- <-; apply P_refl); try discriminate.
  apply bind_inv in H as ([l b1] & w1 & H1 & H).
  eapply P_trans; [eapply P_readline; exact H1|eapply IH; exact H].
Qed.

Lemma lift_read_chunks (fuel : nat) :
  forall data b d b' w w',
    read_chunks fuel data b w = Ret (d, b', w') -> P b b'.
Proof.
  induction fuel as [|fuel IH]; intros data b d b' w w'; simpl;
    destruct (_at_eof b); intros H;
    try (injection H as <- <- <-; apply P_refl); try discriminate.
  apply bind_inv in H as ([l b1] & w1 & H1 & H).
  eapply P_trans;
    [eapply P_read_chunk; [exact ok_chunk_size|exact H1]|eapply IH; exact H].
Qed.

Lemma lift_release (fuel : nat) (b b' : t) (w w' : world) :
  release fuel b w = Ret (b', w') -> P b b'.
Proof.
  unfold release. destruct (_at_eof b).
  { intros H. injection H as <- <-. apply P_refl. }
  destruct (_length b); intros H.
  - apply bind_inv in H as ([d b1] & w1 & H1 & H).
    apply bind_inv in H as (l & w2 & _ & H).
    apply bind_inv in H as ([] & w3 & _ & H).
    injection H as <- <-. eapply lift_read_chunks; exact H1.
  - apply bind_inv in H as ([d b1] & w1 & H1 & H).
    injection H as <- <-. eapply lift_read_lines; exact H1.
Qed.

Lemma lift_read (fuel : nat) (flag : bool) (b b' : t) (d : bytes)
  (w w' : world) :
  read fuel flag b w = Ret (d, b', w') -> P b b'.
Proof.
  unfold read. destruct (_at_eof b).
  { intros H. injection H as <- <- <-. apply P_refl. }
  intros H. apply bind_inv in H as ([d1 b1] & w1 & H1 & H).
  assert (Hb : b' = b1).
  { destruct flag.
    - apply bind_inv in H as (d2 & w2 & _ & H). now injection H as <- <- <-.
    - now injection H as <- <- <-. }
  subst b'. clear H.
  destruct (_length b).
  - apply bind_inv in H1 as ([d2 b2] & w2 & H2 & H1).
    apply bind_inv in H1 as (l & w3 & _ & H1).
    apply bind_inv in H1 as ([] & w4 & _ & H1).
    injection H1 as <- <- <-. eapply lift_read_chunks; exact H2.
  - eapply lift_read_lines; exact H1.
Qed.

Lemma lift_next (fuel : nat) (b b' : t) (d : option bytes) (w w' : world) :
  next fuel b w = Ret (d, b', w') -> P b b'.
Proof.
  unfold next. intros H.
  apply bind_inv in H as ([item b1] & w1 & H1 & H).
  apply lift_read in H1.
  destruct item; injection H as <- <- <-; exact H1.
Qed.

Lemma lift_run (k : Calls.call) (b b' : t) (w w' : world) :
  Calls.sizes_ok ok k -> Calls.run k b w = Ret (b', w') -> P b b'.
Proof.
  destruct k as [n| |fuel flag|fuel|fuel]; simpl; intros Hok H.
  - apply bind_inv in H as ([d b1] & w1 & H1 & H).
    injection H as <- <-. eapply P_read_chunk; eassumption.
  - apply bind_inv in H as ([d b1] & w1 & H1 & H).
    injection H as <- <-. eapply P_readline; eassumption.
  - apply bind_inv in H as ([d b1] & w1 & H1 & H).
    injection H as <- <-. eapply lift_read; eassumption.
  - apply bind_inv in H as ([d b1] & w1 & H1 & H).
    injection H as <- <-. eapply lift_next; eassumption.
  - eapply lift_release; eassumption.
Qed.

Lemma lift_run_all (ks : list Calls.call) :
  Forall (Calls.sizes_ok ok) ks ->
  forall b b' w w', Calls.run_all ks b w = Ret (b', w') -> P b b'.
Proof.
  induction 1 as [|k ks Hk _ IH]; intros b b' w w' H; simpl in H.
  - injection H as <- <-. apply P_refl.
  - apply bind_inv in H as (b1 & w1 & H1 & H).
    eapply P_trans; [eapply lift_run; eassumption|eapply IH; exact H].
Qed.

End Lifting.

(** ** A part is read once *)

Section BodyPartEnd.

Context {L : Lib} {ST : Stream}.

Import BodyPartReader.

Lemma read_lines_ends (fuel : nat) :
  forall data b d b' w w',
    read_lines fuel data b w = Ret (d, b', w') -> _at_eof b' = true.
Proof.
  induction fuel as [|fuel IH]; intros data b d b' w w'; simpl;
    destruct (_at_eof b) eqn:He; intros H;
    try (injection H as <- <- <-; exact He); try discriminate.
  apply bind_inv in H as ([l b1] & w1 & _ & H). eapply IH; exact H.
Qed.

Lemma read_chunks_ends (fuel : nat) :
  forall data b d b' w w',
    read_chunks fuel data b w = Ret (d, b', w') -> _at_eof b' = true.
Proof.
  induction fuel as [|fuel IH]; intros data b d b' w w'; simpl;
    destruct (_at_eof b) eqn:He; intros H;
    try (injection H as <- <- <-; exact He); try discriminate.
  apply bind_inv in H as ([l b1] & w1 & _ & H). eapply IH; exact H.
Qed.

Lemma release_ends (fuel : nat) (b b' : t) (w w' : world) :
  release fuel b w = Ret (b', w') -> _at_eof b' = true.
Proof.
  unfold release. destruct (_at_eof b) eqn:He.
  { intros H. injection H as <- <-. exact He. }
  destruct (_length b); intros H.
  - apply bind_inv in H as ([d b1] & w1 & H1 & H).
    apply bind_inv in H as (l & w2 & _ & H).
    apply bind_inv in H as ([] & w3 & _ & H).
    injection H as <- <-. eapply read_chunks_ends; exact H1.
  - apply bind_inv in H as ([d b1] & w1 & H1 & H).
    injection H as <- <-. eapply read_lines_ends; exact H1.
Qed.

Lemma read_ends (fuel : nat) (flag : bool) (b b' : t) (d : bytes)
  (w w' : world) :
  read fuel flag b w = Ret (d, b', w') -> _at_eof b' = true.
Proof.
  unfold read. destruct (_at_eof b) eqn:He.
  { intros H. injection H as <- <- <-. exact He. }
  intros H. apply bind_inv in H as ([d1 b1] & w1 & H1 & H).
  assert (Hb : b' = b1).
  { destruct flag.
    - apply bind_inv in H as (d2 & w2 & _ & H). now injection H as <- <- <-.
    - now injection H as <- <- <-. }
  subst b'. clear H.
  destruct (_length b).
  - apply bind_inv in H1 as ([d2 b2] & w2 & H2 & H1).
    apply bind_inv in H1 as (l & w3 & _ & H1).
    apply bind_inv in H1 as ([] & w4 & _ & H1).
    injection H1 as <- <- <-. eapply read_chunks_ends; exact H2.
  - eapply read_lines_ends; exact H1.
Qed.

Lemma next_ends (fuel : nat) (b b' : t) (o : option bytes) (w w' : world) :
  next fuel b w = Ret (o, b', w') -> _at_eof b' = true.
Proof.
  unfold next. intros H.
  apply bind_inv in H as ([item b1] & w1 & H1 & H).
  apply read_ends in H1.
  destruct item; injection H as <- <- <-; exact H1.
Qed.

Lemma read_at_eof (fuel : nat) (flag : bool) (b : t) (w : world) :
  _at_eof b = true -> read fuel flag b w = Ret ([], b, w).
Proof. intros He. unfold read. now rewrite He. Qed.

Lemma next_at_eof (fuel : nat) (b : t) (w : world) :
  _at_eof b = true -> next fuel b w = Ret (None, b, w).
Proof.
  intros He. unfold next. now rewrite (bind_Ret _ _ (read_at_eof fuel false b w He)).
Qed.

Lemma release_at_eof (fuel : nat) (b : t) (w : world) :
  _at_eof b = true -> release fuel b w = Ret (b, w).
Proof. intros He. unfold release. now rewrite He. Qed.

Lemma readline_at_eof (b : t) (w : world) :
  _at_eof b = true -> readline b w = Ret ([], b, w).
Proof. intros He. unfold readline. now rewrite He. Qed.

Lemma run_at_eof (k : Calls.call) (b : t) (w : world) :
  _at_eof b = true -> Calls.run k b w = Ret (b, w).
Proof.
  intros He. destruct k as [n| |fuel flag|fuel|fuel]; simpl.
  - now rewrite (bind_Ret _ _ (read_chunk_at_eof n b w He)).
  - now rewrite (bind_Ret _ _ (readline_at_eof b w He)).
  - now rewrite (bind_Ret _ _ (read_at_eof fuel flag b w He)).
  - now rewrite (bind_Ret _ _ (next_at_eof fuel b w He)).
  - now apply release_at_eof.
Qed.

Lemma run_all_at_eof (ks : list Calls.call) (b : t) (w : world) :
  _at_eof b = true -> Calls.run_all ks b w = Ret (b, w).
Proof.
  intros He. induction ks as [|k ks IH]; simpl; [reflexivity|].
  now rewrite (bind_Ret _ _ (run_at_eof k b w He)).
Qed.

End BodyPartEnd.

(** X1.  When [read], [next] or [release] of a part returns, the part
    is at its end, and a second [read], with or without decoding,
    returns the empty byte string and leaves the part and the stream
    alone: the payload is delivered once. *)
Theorem payload_is_read_once {L : Lib} {ST : Stream}
  (fuel : nat) (flag : bool) (b b' : BodyPartReader.t) (d : bytes)
  (o : option bytes) (w w' : world) :
  BodyPartReader.read fuel flag b w = Ret (d, b', w')
  \/ BodyPartReader.next fuel b w = Ret (o, b', w')
  \/ BodyPartReader.release fuel b w = Ret (b', w') ->
  BodyPartReader.at_eof b' = true
  /\ forall fuel' flag',
       BodyPartReader.read fuel' flag' b' w' = Ret ([], b', w').
Proof.
  intros H.
  assert (He : BodyPartReader._at_eof b' = true).
  { destruct H as [H|[H|H]];
      [eapply read_ends|eapply next_ends|eapply release_ends]; exact H. }
  split; [exact He|]. intros fuel' flag'. now apply read_at_eof.
Qed.

(** The part of five declared bytes, read over [hello]. *)
Lemma payload_is_read_once_witness :
  exists b' w',
    BodyPartReader.read (L := Plain.Lib) (ST := Buffered.Stream) 10 false
      Examples.hello_part (store (ST := Buffered.Stream) Examples.hello_stream)
    = Ret (bytes_of "hello", b', w')
    /\ BodyPartReader.read (L := Plain.Lib) 3 true b' w' = Ret ([], b', w').
Proof.
  eexists _, _. split; [reflexivity|].
  apply (proj2 (payload_is_read_once (L := Plain.Lib) (ST := Buffered.Stream)
                  10 false Examples.hello_part _ (bytes_of "hello") None
                  (store (ST := Buffered.Stream) Examples.hello_stream) _
                  (or_introl eq_refl))).
Defined.

(** X2.  A part at its end is inert: every call on it, and every
    sequence of calls, returns at once with an empty result and leaves
    both the part and the stream as they are. *)
Theorem part_at_its_end_is_inert {L : Lib} {ST : Stream}
  (b : BodyPartReader.t) (w : world) :
  BodyPartReader.at_eof b = true ->
  (forall n, BodyPartReader.read_chunk n b w = Ret ([], b, w))
  /\ BodyPartReader.readline b w = Ret ([], b, w)
  /\ (forall fuel flag, BodyPartReader.read fuel flag b w = Ret ([], b, w))
  /\ (forall fuel, BodyPartReader.next fuel b w = Ret (None, b, w))
  /\ (forall fuel, BodyPartReader.release fuel b w = Ret (b, w))
  /\ (forall ks, Calls.run_all ks b w = Ret (b, w)).
Proof.
  intros He. repeat split; intros.
  - now apply read_chunk_at_eof.
  - now apply readline_at_eof.
  - now apply read_at_eof.
  - now apply next_at_eof.
  - now apply release_at_eof.
  - now apply run_all_at_eof.
Qed.

(** A part at its end over a stream that still holds bytes. *)
Lemma part_at_its_end_is_inert_witness :
  Calls.run_all (L := Plain.Lib) (ST := Buffered.Stream)
    [Calls.Read 5 true; Calls.ReadChunk 3; Calls.Readline; Calls.Release 2]
    (BodyPartReader.set_at_eof true Examples.hello_part)
    (store (ST := Buffered.Stream) Examples.hello_stream)
  = Ret (BodyPartReader.set_at_eof true Examples.hello_part,
         store (ST := Buffered.Stream) Examples.hello_stream).
Proof.
  destruct (part_at_its_end_is_inert (L := Plain.Lib) (ST := Buffered.Stream)
              (BodyPartReader.set_at_eof true Examples.hello_part)
              (store (ST := Buffered.Stream) Examples.hello_stream) eq_refl)
    as (_ & _ & _ & _ & _ & H).
  apply H.
Defined.

(** ** Invariants of a part over the calls of its caller *)

Lemma sizes_ok_any (ks : list Calls.call) :
  Forall (Calls.sizes_ok (fun _ => True)) ks.
Proof.
  induction ks as [|k ks IH]; constructor; [|exact IH].
  destruct k; exact I.
Qed.

(** X3.  Whatever the caller calls on a part, in whatever order and
    with whatever sizes, the headers, the boundary, the content stream
    and the declared length of the part stay as they were at
    construction. *)
Theorem calls_keep_the_part {L : Lib} {ST : Stream}
  (ks : list Calls.call) (b b' : BodyPartReader.t) (w w' : world) :
  Calls.run_all ks b w = Ret (b', w') ->
  BodyPartReader.same_part b b'.
Proof.
  apply (lift_run_all BodyPartReader.same_part (fun _ => True)
           same_part_refl same_part_trans I
           (fun n b d b' w w' _ H => read_chunk_same n b b' d w w' H)
           (fun b d b' w w' H => readline_same b b' d w w' H)
           ks (sizes_ok_any ks)).
Qed.

(** Three bytes, one byte and the rest of the part of five declared
    bytes. *)
Lemma calls_keep_the_part_witness :
  exists b' w',
    Calls.run_all (L := Plain.Lib) (ST := Buffered.Stream)
      [Calls.ReadChunk 3; Calls.ReadChunk 1; Calls.Release 4]
      Examples.hello_part
      (store (ST := Buffered.Stream) Examples.hello_stream)
    = Ret (b', w')
    /\ BodyPartReader.same_part Examples.hello_part b'.
Proof.
  eexists _, _. split; [reflexivity|].
  apply (calls_keep_the_part (L := Plain.Lib) (ST := Buffered.Stream)
           [Calls.ReadChunk 3; Calls.ReadChunk 1; Calls.Release 4]
           Examples.hello_part _
           (store (ST := Buffered.Stream) Examples.hello_stream) _ eq_refl).
Defined.

Section BodyPartInvariants.

Context {L : Lib} {ST : Stream}.

Import BodyPartReader.

Lemma pushback_ok_open (b : t) :
  Calls.pushback_ok b -> _at_eof b = false -> _unread b = [].
Proof.
  unfold Calls.pushback_ok. destruct (_unread b) as [|l [|l' u]].
  - reflexivity.
  - intros (He & _) He'. congruence.
  - intros [].
Qed.

Lemma read_chunk_pushback (n : Z) (b b' : t) (d : bytes) (w w' : world) :
  read_chunk n b w = Ret (d, b', w') ->
  Calls.pushback_ok b -> Calls.pushback_ok b'.
Proof.
  destruct (_at_eof b) eqn:He.
  - rewrite (read_chunk_at_eof n b w He). intros H.
    now injection H as <- <- <-.
  - destruct (_length b) as [len|] eqn:Hl.
    + rewrite (read_chunk_open n len b w He Hl). cbv zeta.
      destruct (s_read _ _) as [chunk s]. intros H Hok.
      injection H as <- <- <-.
      unfold Calls.pushback_ok. simpl.
      now rewrite (pushback_ok_open b Hok He).
    + now rewrite (read_chunk_asserts_length b n w He Hl).
Qed.

Lemma readline_pushback (b b' : t) (d : bytes) (w w' : world) :
  readline b w = Ret (d, b', w') ->
  Calls.pushback_ok b -> Calls.pushback_ok b'.
Proof.
  destruct (_at_eof b) eqn:He.
  - rewrite (readline_at_eof b w He). intros H.
    now injection H as <- <- <-.
  - rewrite (readline_open b w He).
    destruct (s_readline _) as [line s].
    destruct (Wire.matches_boundary _ _) eqn:Em; intros H Hok;
      injection H as <- <- <-; [|exact Hok].
    unfold Calls.pushback_ok. simpl.
    rewrite (pushback_ok_open b Hok He). simpl. now split.
Qed.

Lemma read_chunk_counter (n : Z) (b b' : t) (d : bytes) (w w' : world) :
  (0 <= n)%Z ->
  read_chunk n b w = Ret (d, b', w') ->
  Calls.counter_ok b -> Calls.counter_ok b'.
Proof.
  intros Hn. destruct (_at_eof b) eqn:He.
  - rewrite (read_chunk_at_eof n b w He). intros H.
    now injection H as <- <- <-.
  - destruct (_length b) as [len|] eqn:Hl.
    + rewrite (read_chunk_open n len b w He Hl). cbv zeta.
      destruct (s_read _ _) as [chunk s]. intros H.
      injection H as <- <- <-.
      unfold Calls.counter_ok. rewrite Hl. simpl. lia.
    + now rewrite (read_chunk_asserts_length b n w He Hl).
Qed.

Lemma readline_counter (b b' : t) (d : bytes) (w w' : world) :
  readline b w = Ret (d, b', w') ->
  Calls.counter_ok b -> Calls.counter_ok b'.
Proof.
  destruct (_at_eof b) eqn:He.
  - rewrite (readline_at_eof b w He). intros H.
    now injection H as <- <- <-.
  - rewrite (readline_open b w He).
    destruct (s_readline _) as [line s].
    destruct (Wire.matches_boundary _ _); intros H;
      now injection H as <- <- <-.
Qed.

End BodyPartInvariants.

(** X4.  The pushback of a part holds at most one line, and only once
    the part is at its end: the boundary line that [readline] met.
    Every sequence of calls keeps it so; a part as constructed has an
    empty pushback. *)
Theorem pushback_is_one_boundary_line {L : Lib} {ST : Stream}
  (ks : list Calls.call) (b b' : BodyPartReader.t) (w w' : world) :
  Calls.pushback_ok b ->
  Calls.run_all ks b w = Ret (b', w') ->
  Calls.pushback_ok b'.
Proof.
  intros Hok H. revert Hok.
  apply (lift_run_all
           (fun b b' => Calls.pushback_ok b -> Calls.pushback_ok b')
           (fun _ => True)
           (fun b H => H) (fun a b c H1 H2 H => H2 (H1 H)) I
           (fun n b d b' w w' _ H => read_chunk_pushback n b b' d w w' H)
           (fun b d b' w w' H => readline_pushback b b' d w w' H)
           ks (sizes_ok_any ks) b b' w w' H).
Qed.

(** The part without a declared length, read by lines to its
    boundary. *)
Lemma pushback_is_one_boundary_line_witness :
  exists b' w',
    Calls.run_all (L := Plain.Lib) (ST := Buffered.Stream)
      [Calls.Readline; Calls.Read 5 false; Calls.Readline]
      Examples.text_part
      (store (ST := Buffered.Stream) Examples.text_stream)
    = Ret (b', w')
    /\ Calls.pushback_ok b'.
Proof.
  eexists _, _. split; [reflexivity|].
  apply (pushback_is_one_boundary_line (L := Plain.Lib)
           (ST := Buffered.Stream)
           [Calls.Readline; Calls.Read 5 false; Calls.Readline]
           Examples.text_part _
           (store (ST := Buffered.Stream) Examples.text_stream) _
           I eq_refl).
Defined.

(** X5.  On a part with a declared length, the counter of consumed
    bytes stays between zero and the declared length under every
    sequence of calls whose [read_chunk] sizes are not negative: the
    part never asks the stream for bytes past its declared length. *)
Theorem counter_stays_within_length {L : Lib} {ST : Stream}
  (ks : list Calls.call) (b b' : BodyPartReader.t) (w w' : world) :
  Forall Calls.sound ks ->
  Calls.counter_ok b ->
  Calls.run_all ks b w = Ret (b', w') ->
  Calls.counter_ok b'.
Proof.
  intros Hks Hok H. revert Hok.
  apply (lift_run_all
           (fun b b' => Calls.counter_ok b -> Calls.counter_ok b')
           (fun n => 0 <= n)%Z
           (fun b H => H) (fun a b c H1 H2 H => H2 (H1 H))
           ltac:(unfold BodyPartReader.chunk_size; lia)
           (fun n b d b' w w' Hn H => read_chunk_counter n b b' d w w' Hn H)
           (fun b d b' w w' H => readline_counter b b' d w w' H)
           ks Hks b b' w w' H).
Qed.

Lemma counter_stays_within_length_witness :
  exists b' w',
    Calls.run_all (L := Plain.Lib) (ST := Buffered.Stream)
      [Calls.ReadChunk 3; Calls.ReadChunk 100; Calls.Readline]
      Examples.hello_part
      (store (ST := Buffered.Stream) Examples.hello_stream)
    = Ret (b', w')
    /\ Calls.counter_ok b'.
Proof.
  eexists _, _. split; [reflexivity|].
  eapply (counter_stays_within_length (L := Plain.Lib)
           (ST := Buffered.Stream)
           [Calls.ReadChunk 3; Calls.ReadChunk 100; Calls.Readline]
           Examples.hello_part _
           (store (ST := Buffered.Stream) Examples.hello_stream)).
  - repeat constructor; unfold Calls.sound; simpl; lia.
  - vm_compute. split; discriminate.
  - reflexivity.
Defined.

(** ** Failures and loops that do not end *)

Section Failures.

Context {ST : Stream}.

Lemma fails_bind {A B} (m : M A) (k : A -> M B) (c : content_ref)
  (s : stream) (e : exn) :
  fails m c s e -> fails (bind m k) c s e.
Proof. intros H w Hw. unfold bind. now rewrite (H w Hw). Qed.

Lemma fails_after {A B} (m : M A) (k : A -> M B) (c : content_ref)
  (s s1 : stream) (a : A) (e : exn) :
  runs m c s a s1 -> fails (k a) c s1 e -> fails (bind m k) c s e.
Proof.
  intros Hm Hk w Hw. destruct (Hm w Hw) as (w1 & E1 & Hw1).
  rewrite (bind_Ret _ _ E1). now apply Hk.
Qed.

End Failures.

(** ** The line after the declared bytes *)

Section DeclaredLength.

Context {L : Lib}.

Import BodyPartReader.

(** The check that follows the loop of [read] and of [release]. *)
Lemma runs_terminator_check {A} (a : A) (c : content_ref) (r : bytes) :
  fst (take_line r) = CRLF ->
  runs (ST := Buffered.Stream)
    (l <- content_readline c ;; assert (bytes_eqb CRLF l) ;;; ret a)
    c r a (snd (take_line r)).
Proof.
  intros Hl. eapply runs_bind; [apply runs_content_readline|].
  cbv [s_readline stream Buffered.Stream Buffered.readline]. rewrite Hl.
  intros w Hw. exists w. split; [reflexivity|exact Hw].
Qed.

Lemma fails_terminator_check {A} (a : A) (c : content_ref) (r : bytes) :
  fst (take_line r) <> CRLF ->
  fails (ST := Buffered.Stream)
    (l <- content_readline c ;; assert (bytes_eqb CRLF l) ;;; ret a)
    c r AssertionError.
Proof.
  intros Hl. eapply fails_after; [apply runs_content_readline|].
  cbv [s_readline stream Buffered.Stream Buffered.readline].
  assert (E : bytes_eqb CRLF (fst (take_line r)) = false).
  { apply bytes_eqb_neq. congruence. }
  intros w _. unfold bind. now rewrite E.
Qed.

(** X6.  On a response that has arrived in full, [read] and [release]
    of an open part with a declared length take the declared bytes not
    consumed yet and then one line.  When that line is exactly CRLF
    they return, the stream left after it; when it is anything else,
    the end of the stream included, they raise [AssertionError],
    before any decoding. *)
Theorem read_checks_the_line_after (n : Z) (b : t) (x r : bytes)
  (fuel : nat) (flag : bool) :
  _at_eof b = false -> _length b = Some n ->
  Z.of_nat (List.length x) = (n - _read_bytes b)%Z ->
  (List.length x < fuel)%nat ->
  let b' := mk (headers b) (_boundary b) (_content b) true (Some n) n
               (_unread b) in
  (fst (take_line r) = CRLF ->
   runs (ST := Buffered.Stream) (read fuel false b) (_content b) (x ++ r)
     (x, b') (snd (take_line r))
   /\ runs (ST := Buffered.Stream) (release fuel b) (_content b) (x ++ r)
        b' (snd (take_line r)))
  /\ (fst (take_line r) <> CRLF ->
      fails (ST := Buffered.Stream) (read fuel flag b) (_content b) (x ++ r)
        AssertionError
      /\ fails (ST := Buffered.Stream) (release fuel b) (_content b) (x ++ r)
           AssertionError).
Proof.
  intros He Hl Hx Hf b'.
  pose proof (runs_read_chunks n r fuel b x [] He Hl Hx Hf) as Hloop.
  simpl app in Hloop. fold b' in Hloop.
  unfold read, release. rewrite He, Hl.
  split; intros Hline; split.
  - eapply runs_bind.
    { eapply runs_bind; [exact Hloop|].
      apply (runs_terminator_check (x, b') (_content b) r Hline). }
    simpl. apply runs_ret.
  - eapply runs_bind; [exact Hloop|].
    apply (runs_terminator_check b' (_content b) r Hline).
  - apply fails_bind. eapply fails_after; [exact Hloop|].
    apply (fails_terminator_check (x, b') (_content b) r Hline).
  - eapply fails_after; [exact Hloop|].
    apply (fails_terminator_check b' (_content b) r Hline).
Qed.

End DeclaredLength.

(** Five declared bytes followed by two more before the line ends. *)
Lemma read_checks_the_line_after_witness :
  fails (ST := Buffered.Stream)
    (BodyPartReader.read (L := Plain.Lib) 10 true Examples.hello_part) 0
    (bytes_of "hello" ++ Examples.ln "!!" ++ Examples.ln "--XBOUND--")
    AssertionError.
Proof.
  refine (proj1 (proj2 (read_checks_the_line_after (L := Plain.Lib)
                   5 Examples.hello_part
                   (bytes_of "hello")
                   (Examples.ln "!!" ++ Examples.ln "--XBOUND--")
                   10 true eq_refl eq_refl eq_refl _) _)).
  - simpl. lia.
  - vm_compute. discriminate.
Defined.

(** ** A response that ends before the boundary *)

Lemma split_lines_take_line (c : byte) (s : bytes) :
  Wire.split_lines (c :: s)
  = fst (take_line (c :: s)) :: Wire.split_lines (snd (take_line (c :: s))).
Proof.
  revert c. induction s as [|a s IH]; intros c; simpl.
  - destruct (Byte.eqb c LF); reflexivity.
  - destruct (Byte.eqb c LF); [reflexivity|].
    specialize (IH a). simpl in IH. rewrite IH.
    destruct (Byte.eqb a LF); [reflexivity|].
    destruct (take_line s) as [l r]. reflexivity.
Qed.

Lemma matches_boundary_nil (boundary : bytes) :
  boundary <> [] -> Wire.matches_boundary boundary [] = false.
Proof.
  intros Hb. unfold Wire.matches_boundary.
  destruct boundary as [|a boundary]; [contradiction|reflexivity].
Qed.

Section Truncated.

Context {L : Lib}.

Import BodyPartReader.

(** The loop over the lines of a part never ends on a response that
    holds no boundary line. *)
Lemma read_lines_hangs (fuel : nat) :
  forall (s data : bytes) (b : t) (w : world (ST := Buffered.Stream)),
    _at_eof b = false -> _boundary b <> [] ->
    forallb (fun l => negb (Wire.matches_boundary (_boundary b) l))
      (Wire.split_lines s) = true ->
    w (_content b) = s ->
    read_lines fuel data b w = OutOfFuel.
Proof.
  induction fuel as [|fuel IH]; intros s data b w He Hb Hs Hw; simpl;
    rewrite He; [reflexivity|].
  pose proof (readline_open b w He) as E. rewrite Hw in E.
  cbv [s_readline stream Buffered.Stream Buffered.readline] in E.
  assert (Hline : Wire.matches_boundary (_boundary b) (fst (take_line s))
                  = false
                  /\ forallb (fun l => negb (Wire.matches_boundary
                                                (_boundary b) l))
                       (Wire.split_lines (snd (take_line s))) = true).
  { destruct s as [|c s].
    - simpl. split; [now apply matches_boundary_nil|reflexivity].
    - rewrite split_lines_take_line in Hs. simpl forallb in Hs.
      apply andb_true_iff in Hs as [H1 H2].
      split; [now apply negb_true_iff|exact H2]. }
  destruct (take_line s) as [l r]. simpl in Hline.
  destruct Hline as [Hl Hr]. rewrite Hl in E.
  rewrite (bind_Ret _ _ E).
  apply (IH r); try assumption.
  apply (upd_same (ST := Buffered.Stream)).
Qed.

(** X7.  On a response that has arrived in full and holds no line that
    reads as the boundary of the part, [read] and [release] of an open
    part without a declared length do not return and do not fail: at
    the end of the stream [readline] keeps delivering the empty line,
    and the loop goes on. *)
Theorem read_spins_without_boundary (b : t) (s : bytes) (flag : bool) :
  _at_eof b = false -> _length b = None -> _boundary b <> [] ->
  forallb (fun l => negb (Wire.matches_boundary (_boundary b) l))
    (Wire.split_lines s) = true ->
  hangs (ST := Buffered.Stream) (fun fuel => read fuel flag b)
    (_content b) s
  /\ hangs (ST := Buffered.Stream) (fun fuel => release fuel b)
       (_content b) s.
Proof.
  intros He Hl Hb Hs. split; intros fuel w Hw.
  - unfold read. rewrite He, Hl. unfold bind at 1.
    now rewrite (read_lines_hangs fuel s [] b w He Hb Hs Hw).
  - unfold release. rewrite He, Hl. unfold bind.
    now rewrite (read_lines_hangs fuel s [] b w He Hb Hs Hw).
Qed.

End Truncated.

(** Two lines of payload and the end of the response. *)
Lemma read_spins_without_boundary_witness :
  hangs (ST := Buffered.Stream)
    (fun fuel => BodyPartReader.read (L := Plain.Lib) fuel false
                   Examples.text_part)
    0 (Examples.ln "one" ++ Examples.ln "two").
Proof.
  refine (proj1 (read_spins_without_boundary (L := Plain.Lib)
                   Examples.text_part
                   (Examples.ln "one" ++ Examples.ln "two") false
                   eq_refl eq_refl _ eq_refl)).
  discriminate.
Defined.

(** ** A negative declared length *)

(** X8.  A part whose declared length is negative (Python's [int]
    accepts a sign) asks the stream for a negative number of bytes at
    its first [read_chunk]: on a response that has arrived in full the
    call delivers the whole rest of the response and ends the part, and
    [read] then fails on the missing line terminator. *)
Theorem negative_length_takes_the_stream {L : Lib}
  (n size : Z) (b : BodyPartReader.t) (s : bytes) :
  BodyPartReader._at_eof b = false ->
  BodyPartReader._length b = Some n ->
  BodyPartReader._read_bytes b = 0%Z ->
  (n < 0)%Z -> (0 <= size)%Z ->
  runs (ST := Buffered.Stream) (BodyPartReader.read_chunk size b)
    (BodyPartReader._content b) s
    (s, BodyPartReader.mk (BodyPartReader.headers b)
          (BodyPartReader._boundary b) (BodyPartReader._content b) true
          (Some n) n (BodyPartReader._unread b))
    []
  /\ forall fuel flag,
       fails (ST := Buffered.Stream)
         (BodyPartReader.read (S fuel) flag b)
         (BodyPartReader._content b) s AssertionError.
Proof.
  intros He Hl Hrb Hn Hsize.
  assert (Hchunk : forall size, (0 <= size)%Z ->
            runs (ST := Buffered.Stream) (BodyPartReader.read_chunk size b)
              (BodyPartReader._content b) s
              (s, BodyPartReader.mk (BodyPartReader.headers b)
                    (BodyPartReader._boundary b) (BodyPartReader._content b)
                    true (Some n) n (BodyPartReader._unread b))
              []).
  { intros k Hk w Hw.
    rewrite (read_chunk_open k n b w He Hl). cbv zeta.
    rewrite Hrb, Z.sub_0_r, Z.min_r, Hw by lia. simpl Z.add.
    cbv [s_read Buffered.Stream Buffered.read].
    destruct (Z.ltb_spec n 0) as [_|]; [|lia].
    rewrite Z.eqb_refl.
    eexists. split; [reflexivity|apply (upd_same (ST := Buffered.Stream))]. }
  split; [now apply Hchunk|].
  intros fuel flag. unfold BodyPartReader.read. rewrite He, Hl.
  apply fails_bind. simpl BodyPartReader.read_chunks. rewrite He.
  eapply fails_after.
  { eapply runs_bind.
    - apply Hchunk. unfold BodyPartReader.chunk_size. lia.
    - simpl. destruct fuel; simpl; apply runs_ret. }
  apply fails_terminator_check. simpl. discriminate.
Qed.

Lemma negative_length_takes_the_stream_witness :
  runs (ST := Buffered.Stream)
    (BodyPartReader.read_chunk 2
       (BodyPartReader.mk [] Examples.XBOUND 0 false (Some (-1)%Z) 0%Z []))
    0 Examples.hello_stream
    (Examples.hello_stream,
     BodyPartReader.mk [] Examples.XBOUND 0 true (Some (-1)%Z) (-1)%Z [])
    [].
Proof.
  refine (proj1 (negative_length_takes_the_stream (L := Plain.Lib) (-1) 2
                   (BodyPartReader.mk [] Examples.XBOUND 0 false
                      (Some (-1)%Z) 0%Z [])
                   Examples.hello_stream eq_refl eq_refl eq_refl _ _)); lia.
Defined.

(** ** Chunks and the rest of a payload *)

Lemma firstn_add_skipn (a b : nat) (l : bytes) :
  firstn (a + b) l = firstn a l ++ firstn b (skipn a l).
Proof.
  revert l. induction a as [|a IH]; intros l; [reflexivity|].
  destruct l as [|c l]; simpl.
  - now rewrite firstn_nil.
  - now rewrite IH.
Qed.

Lemma sum_sizes_nonneg (sizes : list Z) :
  Forall (fun k => 0 <= k)%Z sizes -> (0 <= fold_right Z.add 0 sizes)%Z.
Proof. induction 1; simpl; lia. Qed.

Lemma chunk_calls_at_eof {L : Lib} {ST : Stream} (sizes : list Z)
  (b : BodyPartReader.t) (w : world) :
  BodyPartReader._at_eof b = true ->
  Caller.chunk_calls sizes b w = Ret ([], b, w).
Proof.
  intros He. induction sizes as [|m sizes IH]; simpl; [reflexivity|].
  rewrite (bind_Ret _ _ (read_chunk_at_eof m b w He)).
  now rewrite (bind_Ret _ _ IH).
Qed.

Section ChunksThenRead.

Context {L : Lib}.

Import BodyPartReader.

Lemma runs_read_declared (n : Z) (b : t) (x r : bytes) (fuel : nat) :
  _at_eof b = false -> _length b = Some n ->
  Z.of_nat (List.length x) = (n - _read_bytes b)%Z ->
  (List.length x < fuel)%nat ->
  fst (take_line r) = CRLF ->
  runs (ST := Buffered.Stream) (read fuel false b) (_content b) (x ++ r)
    (x, mk (headers b) (_boundary b) (_content b) true (Some n) n (_unread b))
    (snd (take_line r)).
Proof.
  intros He Hl Hx Hf Hline.
  pose proof (runs_read_chunks n r fuel b x [] He Hl Hx Hf) as Hloop.
  simpl app in Hloop. unfold read. rewrite He, Hl.
  eapply runs_bind.
  { eapply runs_bind; [exact Hloop|].
    apply (runs_terminator_check _ (_content b) r Hline). }
  simpl. apply runs_ret.
Qed.

(** X9.  On a response that has arrived in full, [read_chunk] calls of
    any sizes that are not negative deliver the declared bytes of a
    part in order, each byte once: their results joined are the first
    bytes of what was left of the payload, as many as the sizes sum to,
    and a [read] after them returns the rest.  The line terminator
    after the payload is consumed by that [read] only if the chunks
    had not reached the declared length. *)
Theorem chunks_then_read_give_the_payload (n : Z) (r : bytes) (fuel : nat)
  (sizes : list Z) :
  forall (b : t) (x : bytes),
    _at_eof b = false -> _length b = Some n ->
    Z.of_nat (List.length x) = (n - _read_bytes b)%Z ->
    Forall (fun k => 0 <= k)%Z sizes ->
    (List.length x < fuel)%nat ->
    fst (take_line r) = CRLF ->
    exists d1 b1 s1 d2 b2,
      runs (ST := Buffered.Stream) (Caller.chunk_calls sizes b)
        (_content b) (x ++ r) (d1, b1) s1
      /\ runs (ST := Buffered.Stream) (read fuel false b1)
           (_content b) s1 (d2, b2)
           (if _at_eof b1 then r else snd (take_line r))
      /\ d1 = firstn (Z.to_nat (fold_right Z.add 0%Z sizes)) x
      /\ d1 ++ d2 = x
      /\ _at_eof b2 = true.
Proof.
  induction sizes as [|m sizes IH]; intros b x He Hl Hx Hpos Hf Hline.
  { exists [], b, (x ++ r), x. eexists. rewrite He.
    split; [apply runs_ret|].
    split; [now apply (runs_read_declared n b x r fuel)|].
    now repeat split. }
  inversion Hpos as [|? ? Hm Hpos']. subst.
  pose proof (sum_sizes_nonneg sizes Hpos') as Hsum.
  set (k := Z.min m (n - _read_bytes b)).
  assert (Hk : (0 <= k <= Z.of_nat (List.length x))%Z) by (unfold k; lia).
  assert (Hsplit : x = firstn (Z.to_nat k) x ++ skipn (Z.to_nat k) x)
    by (symmetry; apply firstn_skipn).
  assert (Hxa : Z.of_nat (List.length (firstn (Z.to_nat k) x)) = k)
    by (rewrite length_firstn; lia).
  set (xa := firstn (Z.to_nat k) x) in *.
  set (xb := skipn (Z.to_nat k) x) in *.
  assert (Hlen : List.length x = (List.length xa + List.length xb)%nat)
    by (rewrite Hsplit at 1; apply length_app).
  set (b1 := mk (headers b) (_boundary b) (_content b)
               (_read_bytes b + k =? n)%Z (Some n) (_read_bytes b + k)
               (_unread b)).
  assert (Hstep : runs (ST := Buffered.Stream) (read_chunk m b) (_content b)
                    (x ++ r) (xa, b1) (xb ++ r)).
  { intros w Hw. rewrite (read_chunk_open m n b w He Hl). cbv zeta.
    fold k. rewrite Hw, Hsplit, <- app_assoc. simpl s_read.
    rewrite (read_prefix xa (xb ++ r) k) by lia.
    eexists. split; [reflexivity|apply (upd_same (ST := Buffered.Stream))]. }
  destruct (Z.eqb_spec (_read_bytes b + k) n) as [Hend|Hmore].
  - assert (Hnil : xb = []) by (apply length_zero_iff_nil; lia).
    exists xa, b1, r, [], b1.
    assert (He1 : _at_eof b1 = true) by reflexivity.
    rewrite He1. split; [|split; [|split; [|split]]].
    + simpl Caller.chunk_calls. eapply runs_bind; [exact Hstep|]. simpl.
      rewrite Hnil. simpl. intros w Hw.
      rewrite (bind_Ret _ _ (chunk_calls_at_eof sizes b1 w He1)).
      simpl. rewrite app_nil_r. now exists w.
    + intros w Hw. rewrite (read_at_eof fuel false b1 w He1). now exists w.
    + rewrite Hnil, app_nil_r in Hsplit. rewrite <- Hsplit.
      symmetry. apply firstn_all2. simpl. lia.
    + rewrite Hnil, app_nil_r in Hsplit. now rewrite app_nil_r.
    + exact He1.
  - assert (Hkm : k = m) by (unfold k in *; lia).
    assert (He1 : _at_eof b1 = false) by reflexivity.
    destruct (IH b1 xb He1 eq_refl ltac:(unfold b1; simpl; lia) Hpos'
                ltac:(lia) Hline)
      as (d1 & b1' & s1 & d2 & b2 & Hc & Hr & Hd1 & Hcat & He2).
    exists (xa ++ d1), b1', s1, d2, b2.
    split; [|split; [exact Hr|split; [|split; [|exact He2]]]].
    + simpl Caller.chunk_calls. eapply runs_bind; [exact Hstep|]. simpl.
      eapply runs_bind; [exact Hc|]. apply runs_ret.
    + simpl fold_right. rewrite Z2Nat.inj_add by lia.
      rewrite firstn_add_skipn, Hd1. unfold xa, xb. now rewrite Hkm.
    + rewrite <- app_assoc, Hcat. now symmetry.
Qed.

End ChunksThenRead.

(** [hello] in a chunk of three bytes, a chunk of one, and a [read]. *)
Lemma chunks_then_read_give_the_payload_witness :
  exists d1 b1 s1 d2 b2,
    runs (ST := Buffered.Stream)
      (Caller.chunk_calls [3; 1]%Z Examples.hello_part)
      0 (bytes_of "hello" ++ CRLF ++ Examples.ln "--XBOUND--") (d1, b1) s1
    /\ runs (ST := Buffered.Stream)
         (BodyPartReader.read (L := Plain.Lib) 10 false b1) 0 s1 (d2, b2)
         (if BodyPartReader._at_eof b1 then CRLF ++ Examples.ln "--XBOUND--"
          else snd (take_line (CRLF ++ Examples.ln "--XBOUND--")))
    /\ d1 = firstn (Z.to_nat (fold_right Z.add 0%Z [3; 1]%Z))
              (bytes_of "hello")
    /\ d1 ++ d2 = bytes_of "hello"
    /\ BodyPartReader._at_eof b2 = true.
Proof.
  apply (chunks_then_read_give_the_payload (L := Plain.Lib) 5
           (CRLF ++ Examples.ln "--XBOUND--") 10 [3; 1]%Z
           Examples.hello_part (bytes_of "hello") eq_refl eq_refl eq_refl).
  - repeat constructor; lia.
  - simpl. lia.
  - reflexivity.
Defined.

(** ** The reader over its calls *)

Lemma same_reader_refl (r : MultipartReader.t) : same_reader r r.
Proof. now repeat split. Qed.

Lemma same_reader_trans (a b c : MultipartReader.t) :
  same_reader a b -> same_reader b c -> same_reader a c.
Proof. unfold same_reader. intuition congruence. Qed.

Section ReaderSteps.

Context {L : Lib} {ST : Stream}.

Import MultipartReader.

Lemma _readline_keeps (self self' : t) (line : bytes) (w w' : world) :
  _readline self w = Ret (line, self', w') ->
  headers self' = headers self /\ _boundary self' = _boundary self
  /\ _content self' = _content self /\ _at_eof self' = _at_eof self
  /\ _last_part self' = _last_part self.
Proof.
  unfold _readline. destruct (pop (_unread self)) as [[l rest]|].
  - intros H. injection H as <- <- <-. destruct self; now simpl.
  - intros H. apply bind_inv in H as (l & w1 & _ & H).
    injection H as <- <- <-. now repeat split.
Qed.

Lemma _read_boundary_keeps (self self' : t) (w w' : world) :
  _read_boundary self w = Ret (self', w') ->
  headers self' = headers self /\ _boundary self' = _boundary self
  /\ _content self' = _content self
  /\ (_at_eof self = true -> _at_eof self' = true)
  /\ _last_part self' = _last_part self.
Proof.
  unfold _read_boundary. intros H.
  apply bind_inv in H as ([line self1] & w1 & H1 & H).
  apply _readline_keeps in H1 as (Hh & Hb & Hc & He & Hp).
  destruct (bytes_eqb _ _).
  - injection H as <- <-. repeat split; congruence.
  - destruct (bytes_eqb _ _); [|discriminate].
    injection H as <- <-. destruct self1; simpl in *. now repeat split.
Qed.

Section OverRelease.

Variable part_release : part -> M part.

Lemma _maybe_release_last_part_with_keeps (self self' : t) (w w' : world) :
  _maybe_release_last_part_with part_release self w = Ret (self', w') ->
  headers self' = headers self /\ _boundary self' = _boundary self
  /\ _content self' = _content self /\ _at_eof self' = _at_eof self
  /\ _last_part self' = None.
Proof.
  unfold _maybe_release_last_part_with.
  destruct (_last_part self) as [p|] eqn:Hp.
  - intros H. apply bind_inv in H as (p' & w1 & _ & H).
    injection H as <- <-. destruct self; now simpl.
  - intros H. injection H as <- <-. now repeat split.
Qed.

(** What a call of [next] returns, whatever releases the parts. *)
Lemma next_with_returns (fuel : nat) (self self' : t)
  (item : option part) (w w' : world) :
  next_with part_release fuel self w = Ret (item, self', w') ->
  same_reader self self'
  /\ (item = None <-> _at_eof self' = true)
  /\ (forall p, item = Some p -> _last_part self' = Some p)
  /\ (_at_eof self = true -> self' = self /\ w' = w).
Proof.
  unfold next_with. destruct (_at_eof self) eqn:He.
  { intros H. injection H as <- <- <-.
    repeat split; auto; discriminate. }
  intros H. apply bind_inv in H as (self1 & w1 & H1 & H).
  apply _maybe_release_last_part_with_keeps in H1
    as (Hh1 & Hb1 & Hc1 & He1 & _).
  apply bind_inv in H as (self2 & w2 & H2 & H).
  apply _read_boundary_keeps in H2 as (Hh2 & Hb2 & Hc2 & _ & _).
  destruct (_at_eof self2) eqn:He2.
  - injection H as <- <- <-. unfold same_reader.
    repeat split; try congruence; discriminate.
  - apply bind_inv in H as (p & w3 & _ & H).
    injection H as <- <- <-. unfold same_reader.
    destruct self2; simpl in *.
    repeat split; try congruence; discriminate.
Qed.

End OverRelease.

(** The loop of [release], by induction on its fuel. *)
Lemma release_returns (fuel : nat) :
  forall (self self' : t) (w w' : world),
    release fuel self w = Ret (self', w') ->
    same_reader self self' /\ _at_eof self' = true
    /\ (_at_eof self = true -> self' = self /\ w' = w).
Proof.
  induction fuel as [|fuel IH]; intros self self' w w'; simpl;
    destruct (_at_eof self) eqn:He; intros H;
    try (injection H as <- <-; repeat split; auto; apply same_reader_refl);
    try discriminate.
  apply bind_inv in H as ([item self1] & w1 & H1 & H).
  apply next_with_returns in H1 as (Hs1 & Hitem & Hlast & _).
  destruct item as [p|].
  - rewrite (Hlast p eq_refl) in H.
    apply bind_inv in H as (p' & w2 & _ & H).
    apply IH in H as (Hs2 & He2 & _).
    split; [|split; [exact He2|discriminate]].
    eapply same_reader_trans; [exact Hs1|].
    eapply same_reader_trans; [|exact Hs2].
    destruct self1; now repeat split.
  - injection H as <- <-.
    split; [exact Hs1|]. split; [now apply Hitem|discriminate].
Qed.

Lemma on_last_part_same {A} (op : BodyPartReader.t -> M (A * BodyPartReader.t))
  (self self' : t) (a : A) (w w' : world) :
  on_last_part op self w = Ret (a, self', w') -> same_reader self self'.
Proof.
  unfold on_last_part. destruct (_last_part self) as [[b|m]|]; try discriminate.
  intros H. apply bind_inv in H as ([a' b'] & w1 & _ & H).
  injection H as <- <- <-. destruct self; now repeat split.
Qed.

Lemma reader_run_same (k : Calls.reader_call) (r r' : t) (w w' : world) :
  Calls.reader_run k r w = Ret (r', w') -> same_reader r r'.
Proof.
  destruct k as [fuel|fuel|k]; simpl; intros H.
  - apply bind_inv in H as ([item r1] & w1 & H1 & H).
    injection H as <- <-. now apply next_with_returns in H1.
  - now apply release_returns in H.
  - apply bind_inv in H as ([u r1] & w1 & H1 & H).
    injection H as <- <-. now apply on_last_part_same in H1.
Qed.

End ReaderSteps.

(** X10.  On a reader at the end of the body [next] returns no part at
    once: it reads nothing and changes neither the reader nor the
    stream.  On every reader, whenever [next] returns, it returns no
    part exactly when it leaves the reader at the end of the body. *)
Theorem next_returns_none_at_the_end {L : Lib} {ST : Stream}
  (fuel : nat) (r : MultipartReader.t) (w : world) :
  (MultipartReader.at_eof r = true ->
   MultipartReader.next fuel r w = Ret (None, r, w))
  /\ (forall item r' w',
        MultipartReader.next fuel r w = Ret (item, r', w') ->
        (item = None <-> MultipartReader.at_eof r' = true)).
Proof.
  split.
  - unfold MultipartReader.at_eof. intros He.
    unfold MultipartReader.next, MultipartReader.next_with. now rewrite He.
  - unfold MultipartReader.next. intros item r' w' H.
    now apply next_with_returns in H as (_ & Hitem & _).
Qed.

(** A reader at the end of the scenario, the stream holding an
    epilogue; and a body of no parts, where the first [next] meets the
    terminator. *)
Lemma next_returns_none_at_the_end_witness :
  MultipartReader.next (L := Plain.Lib) (ST := Buffered.Stream) 5
    (MultipartReader.set_at_eof true Examples.reader)
    (store (ST := Buffered.Stream) (bytes_of "epilogue"))
  = Ret (None, MultipartReader.set_at_eof true Examples.reader,
         store (ST := Buffered.Stream) (bytes_of "epilogue"))
  /\ exists r' w',
       MultipartReader.next (L := Plain.Lib) (ST := Buffered.Stream) 5
         Examples.reader (store (ST := Buffered.Stream)
                            (Wire.render Examples.XBOUND []))
       = Ret (None, r', w')
       /\ MultipartReader.at_eof r' = true.
Proof.
  split.
  - apply (proj1 (next_returns_none_at_the_end (L := Plain.Lib)
                    (ST := Buffered.Stream) 5
                    (MultipartReader.set_at_eof true Examples.reader)
                    (store (ST := Buffered.Stream) (bytes_of "epilogue")))
             eq_refl).
  - eexists _, _. split; [reflexivity|].
    apply (proj1 (proj2 (next_returns_none_at_the_end (L := Plain.Lib)
                           (ST := Buffered.Stream) 5 Examples.reader
                           (store (ST := Buffered.Stream)
                              (Wire.render Examples.XBOUND [])))
                    None _ _ eq_refl)
             eq_refl).
Defined.

(** X11.  When [release] of a reader returns, the reader is at the end
    of the body, and from then on [next] returns no part and [release]
    returns at once, the stream left alone. *)
Theorem release_leaves_the_reader_at_the_end {L : Lib} {ST : Stream}
  (fuel : nat) (r r' : MultipartReader.t) (w w' : world) :
  MultipartReader.release fuel r w = Ret (r', w') ->
  MultipartReader.at_eof r' = true
  /\ forall fuel',
       MultipartReader.next fuel' r' w' = Ret (None, r', w')
       /\ MultipartReader.release fuel' r' w' = Ret (r', w').
Proof.
  intros H. apply release_returns in H as (_ & He & _).
  split; [exact He|]. intros fuel'. split.
  - unfold MultipartReader.next, MultipartReader.next_with.
    unfold MultipartReader.at_eof in He. now rewrite He.
  - unfold MultipartReader.at_eof in He.
    destruct fuel'; simpl; now rewrite He.
Qed.

(** The scenario released from its start. *)
Lemma release_leaves_the_reader_at_the_end_witness :
  exists r' w',
    MultipartReader.release (L := Plain.Lib) (ST := Buffered.Stream) 30
      Examples.reader (store (ST := Buffered.Stream) Examples.scenario)
    = Ret (r', w')
    /\ MultipartReader.next (L := Plain.Lib) 5 r' w' = Ret (None, r', w').
Proof.
  eexists _, _. split; [vm_compute; reflexivity|].
  eapply (proj1 (proj2 (release_leaves_the_reader_at_the_end
                          (L := Plain.Lib) (ST := Buffered.Stream) 30
                          Examples.reader _
                          (store (ST := Buffered.Stream) Examples.scenario)
                          _ eq_refl) 5)).
Defined.

(** X12.  Whatever the caller calls on a reader and on the parts it
    yields, in whatever order, the headers, the boundary and the
    content stream of the reader stay as they were at construction,
    and a reader at the end of the body stays there. *)
Theorem calls_keep_the_reader {L : Lib} {ST : Stream}
  (ks : list Calls.reader_call) :
  forall (r r' : MultipartReader.t) (w w' : world),
    Calls.reader_run_all ks r w = Ret (r', w') -> same_reader r r'.
Proof.
  induction ks as [|k ks IH]; intros r r' w w' H; simpl in H.
  - injection H as <- <-. apply same_reader_refl.
  - apply bind_inv in H as (r1 & w1 & H1 & H).
    eapply same_reader_trans; [eapply reader_run_same; exact H1|].
    eapply IH; exact H.
Qed.

(** The first part of the scenario, one line of it, and the next
    part. *)
Lemma calls_keep_the_reader_witness :
  exists r' w',
    Calls.reader_run_all (L := Plain.Lib) (ST := Buffered.Stream)
      [Calls.ReaderNext 10; Calls.OnPart Calls.Readline; Calls.ReaderNext 10]
      Examples.reader (store (ST := Buffered.Stream) Examples.scenario)
    = Ret (r', w')
    /\ same_reader Examples.reader r'.
Proof.
  eexists _, _. split; [vm_compute; reflexivity|].
  eapply (calls_keep_the_reader (L := Plain.Lib) (ST := Buffered.Stream)
            [Calls.ReaderNext 10; Calls.OnPart Calls.Readline;
             Calls.ReaderNext 10]
            Examples.reader _
            (store (ST := Buffered.Stream) Examples.scenario) _ eq_refl).
Defined.

(** X13.  The constructor of a reader takes the boundary from the
    Content-Type of the headers: it raises [KeyError] without the
    header, [AssertionError] when the media type is not multipart,
    [KeyError] when the type has no [boundary] parameter; otherwise the
    reader starts with the token [--boundary], no part and an empty
    pushback, and the stream is not touched. *)
Theorem reader_needs_a_multipart_type {L : Lib} {ST : Stream}
  (hs : Headers) (c : content_ref) (w : world) :
  (hget hdrs.CONTENT_TYPE hs = None ->
   MultipartReader.init hs c w = Raise KeyError)
  /\ (forall ctype,
        hget hdrs.CONTENT_TYPE hs = Some ctype ->
        mtype (parse_mimetype ctype) <> "multipart"%string ->
        MultipartReader.init hs c w = Raise AssertionError)
  /\ (forall ctype,
        hget hdrs.CONTENT_TYPE hs = Some ctype ->
        mtype (parse_mimetype ctype) = "multipart"%string ->
        pget "boundary" (params (parse_mimetype ctype)) = None ->
        MultipartReader.init hs c w = Raise KeyError)
  /\ (forall ctype boundary,
        hget hdrs.CONTENT_TYPE hs = Some ctype ->
        mtype (parse_mimetype ctype) = "multipart"%string ->
        pget "boundary" (params (parse_mimetype ctype)) = Some boundary ->
        MultipartReader.init hs c w
        = Ret (MultipartReader.mk hs (str_encode ("--" ++ boundary)) c
                 None false [], w)).
Proof.
  unfold MultipartReader.init, MultipartReader._get_boundary.
  repeat split.
  - intros H. unfold bind. now rewrite H.
  - intros ctype H Hm. apply String.eqb_neq in Hm.
    unfold bind. rewrite H. simpl. now rewrite Hm.
  - intros ctype H Hm Hb. unfold bind. rewrite H. simpl.
    rewrite Hm. simpl. now rewrite Hb.
  - intros ctype boundary H Hm Hb. unfold bind. rewrite H. simpl.
    rewrite Hm. simpl. now rewrite Hb.
Qed.

(** A JSON response, and a multipart response without a boundary. *)
Lemma reader_needs_a_multipart_type_witness :
  MultipartReader.init (L := Plain.Lib) (ST := Buffered.Stream)
    [("CONTENT-TYPE", "application/json")%string] 0
    (store (ST := Buffered.Stream) [])
  = Raise AssertionError
  /\ MultipartReader.init (L := Plain.Lib) (ST := Buffered.Stream)
       [("CONTENT-TYPE", "multipart/mixed")%string] 0
       (store (ST := Buffered.Stream) [])
     = Raise KeyError.
Proof.
  split.
  - apply (proj1 (proj2 (reader_needs_a_multipart_type (L := Plain.Lib)
                           (ST := Buffered.Stream)
                           [("CONTENT-TYPE", "application/json")%string] 0
                           (store (ST := Buffered.Stream) [])))
             "application/json"%string eq_refl).
    vm_compute. discriminate.
  - apply (proj1 (proj2 (proj2 (reader_needs_a_multipart_type
                                  (L := Plain.Lib) (ST := Buffered.Stream)
                                  [("CONTENT-TYPE", "multipart/mixed")%string]
                                  0 (store (ST := Buffered.Stream) []))))
             "multipart/mixed"%string eq_refl eq_refl eq_refl).
Defined.

(** ** The wrapper of the response *)

(** X14.  [MultipartResponseWrapper.next] hands on what the reader's
    [next] returns.  While a part is returned the response is left
    alone; on the call that returns no part, and on every such call
    after it, the response is released. *)
Theorem response_is_released_at_the_end {L : Lib} {ST : Stream}
  {R : Response} (fuel : nat) (self : MultipartResponseWrapper.t)
  (item : option MultipartReader.part) (s' : MultipartReader.t)
  (w w1 : world) :
  MultipartReader.next fuel (MultipartResponseWrapper.stream self) w
  = Ret (item, s', w1) ->
  (forall p, item = Some p ->
     MultipartResponseWrapper.next fuel self w
     = Ret (Some p,
            MultipartResponseWrapper.mk (MultipartResponseWrapper.resp self)
              s', w1))
  /\ (item = None ->
      MultipartResponseWrapper.next fuel self w
      = (r <- resp_release (MultipartResponseWrapper.resp self) ;;
         ret (None, MultipartResponseWrapper.mk r s')) w1).
Proof.
  intros H. unfold MultipartResponseWrapper.next.
  rewrite (bind_Ret _ _ H).
  cbn [MultipartResponseWrapper.stream MultipartResponseWrapper.resp].
  pose proof H as H'. unfold MultipartReader.next in H'.
  apply next_with_returns in H' as (_ & Hitem & _).
  unfold MultipartReader.at_eof.
  split.
  - intros p ->. destruct (MultipartReader._at_eof s').
    + discriminate (proj2 Hitem eq_refl).
    + reflexivity.
  - intros ->. rewrite (proj1 Hitem eq_refl).
    unfold MultipartResponseWrapper.release, bind. simpl.
    destruct (resp_release _ w1) as [[r w2]| |]; reflexivity.
Qed.

(** A response with a body of no parts: the first [next] releases it,
    and so does the second. *)
Lemma response_is_released_at_the_end_witness :
  observe (ST := Buffered.Stream) 0
    (('(_, self) <- MultipartResponseWrapper.next (L := Plain.Lib)
                      (R := PlainResponse.Response) 5
                      (MultipartResponseWrapper.mk
                         (R := PlainResponse.Response)
                         (PlainResponse.mk [] 0 0) Examples.reader) ;;
      MultipartResponseWrapper.next (L := Plain.Lib) 5 self)
       (store (ST := Buffered.Stream)
          (Wire.render Examples.XBOUND [] ++ bytes_of "epilogue")))
  = Ret (None,
         MultipartResponseWrapper.mk (R := PlainResponse.Response)
           (PlainResponse.mk [] 0 2)
           (MultipartReader.set_at_eof true Examples.reader),
         []).
Proof.
  unfold observe.
  rewrite (bind_Ret _ _
             (proj2 (response_is_released_at_the_end (L := Plain.Lib)
                       (R := PlainResponse.Response) 5
                       (MultipartResponseWrapper.mk
                          (R := PlainResponse.Response)
                          (PlainResponse.mk [] 0 0) Examples.reader)
                       None (MultipartReader.set_at_eof true Examples.reader)
                       (store (ST := Buffered.Stream)
                          (Wire.render Examples.XBOUND []
                           ++ bytes_of "epilogue"))
                       _ eq_refl) eq_refl)).
  reflexivity.
Defined.

(** ** The payload as text and as JSON *)

Section TextFacts.

Context {L : Lib} {T : Text} {ST : Stream}.

Lemma text_ends (fuel : nat) (enc : option string)
  (b b' : BodyPartReader.t) (s : string) (w w' : world) :
  BodyPartText.text fuel enc b w = Ret (s, b', w') ->
  BodyPartReader._at_eof b' = true.
Proof.
  unfold BodyPartText.text. intros H.
  apply bind_inv in H as ([data b1] & w1 & H1 & H).
  apply bind_inv in H as (s1 & w2 & _ & H).
  injection H as <- <- <-. eapply read_ends; exact H1.
Qed.

Lemma json_ends (fuel : nat) (enc : option string)
  (b b' : BodyPartReader.t) (j : option json_value) (w w' : world) :
  BodyPartText.json fuel enc b w = Ret (j, b', w') ->
  BodyPartReader._at_eof b' = true.
Proof.
  unfold BodyPartText.json. intros H.
  apply bind_inv in H as ([data b1] & w1 & H1 & H).
  apply read_ends in H1. destruct data.
  - now injection H as <- <- <-.
  - apply bind_inv in H as (s1 & w2 & _ & H).
    apply bind_inv in H as (j1 & w3 & _ & H).
    now injection H as <- <- <-.
Qed.

Lemma read_keeps_headers (fuel : nat) (flag : bool)
  (b b' : BodyPartReader.t) (d : bytes) (w w' : world) :
  BodyPartReader.read fuel flag b w = Ret (d, b', w') ->
  BodyPartReader.headers b' = BodyPartReader.headers b.
Proof.
  intros H.
  apply (lift_read BodyPartReader.same_part (fun _ => True)
           same_part_refl same_part_trans I
           (fun n b d b' w w' _ H => read_chunk_same n b b' d w w' H)
           (fun b d b' w w' H => readline_same b b' d w w' H)) in H.
  apply H.
Qed.

End TextFacts.

(** X15.  The payload of a part is gone once it has been delivered:
    after a [read], a [text] or a [json] that returned, [json] returns
    [None], whatever the payload was, and asks nothing of the codec or
    of the parser. *)
Theorem json_after_the_payload_is_none {L : Lib} {T : Text} {ST : Stream}
  (fuel : nat) (flag : bool) (enc : option string)
  (b b' : BodyPartReader.t) (d : bytes) (s : string)
  (j : option json_value) (w w' : world) :
  BodyPartReader.read fuel flag b w = Ret (d, b', w')
  \/ BodyPartText.text fuel enc b w = Ret (s, b', w')
  \/ BodyPartText.json fuel enc b w = Ret (j, b', w') ->
  forall fuel' enc',
    BodyPartText.json fuel' enc' b' w' = Ret (None, b', w').
Proof.
  intros H fuel' enc'.
  assert (He : BodyPartReader._at_eof b' = true).
  { destruct H as [H|[H|H]];
      [eapply read_ends|eapply text_ends|eapply json_ends]; exact H. }
  unfold BodyPartText.json.
  now rewrite (bind_Ret _ _ (read_at_eof fuel' true b' w' He)).
Qed.

(** The payload [12345] of five declared bytes, as JSON twice. *)
Lemma json_after_the_payload_is_none_witness :
  exists b' w',
    BodyPartText.json (L := Plain.Lib) (T := PlainText.Text)
      (ST := Buffered.Stream) 10 None Examples.hello_part
      (store (ST := Buffered.Stream)
         (Examples.ln "12345" ++ Examples.ln "--XBOUND--"))
    = Ret (Some 12345%Z, b', w')
    /\ BodyPartText.json (L := Plain.Lib) (T := PlainText.Text) 10 None b' w'
       = Ret (None, b', w').
Proof.
  eexists _, _. split; [vm_compute; reflexivity|].
  apply (json_after_the_payload_is_none (L := Plain.Lib)
           (T := PlainText.Text) (ST := Buffered.Stream)
           10 false None Examples.hello_part _ [] ""%string
           (Some 12345%Z)
           (store (ST := Buffered.Stream)
              (Examples.ln "12345" ++ Examples.ln "--XBOUND--")) _
           (or_intror (or_intror eq_refl))).
Defined.

(** X16.  [text] decodes what [read(decode=True)] returns with the
    encoding of the call when one is given and is not empty; otherwise
    with the [charset] parameter of the Content-Type of the part;
    otherwise as [latin1].  The call raises [LookupError] when no codec
    has that name and [UnicodeDecodeError] when the codec refuses the
    bytes. *)
Theorem text_picks_the_encoding {L : Lib} {T : Text} {ST : Stream}
  (fuel : nat) (b b' : BodyPartReader.t) (data : bytes) (w w' : world) :
  BodyPartReader.read fuel true b w = Ret (data, b', w') ->
  let decoded enc :=
    match codec_decode enc data with
    | Decoded s => Ret (s, b', w')
    | UnknownCodec => Raise LookupError
    | UndecodableBytes => Raise UnicodeDecodeError
    end in
  (forall e, e <> ""%string ->
     BodyPartText.text fuel (Some e) b w = decoded e)
  /\ (forall enc c,
        enc = None \/ enc = Some ""%string ->
        BodyPartText.get_charset None b = Some c ->
        BodyPartText.text fuel enc b w = decoded c)
  /\ (forall enc,
        enc = None \/ enc = Some ""%string ->
        BodyPartText.get_charset None b = None ->
        BodyPartText.text fuel enc b w = decoded "latin1"%string).
Proof.
  intros H decoded.
  pose proof (read_keeps_headers fuel true b b' data w w' H) as Hh.
  assert (E : forall enc,
            BodyPartText.text fuel enc b w
            = decoded (BodyPartText.encoding_or_charset enc "latin1" b')).
  { intros enc. unfold BodyPartText.text. rewrite (bind_Ret _ _ H).
    cbv zeta. unfold bind, BodyPartText.bytes_decode_with, decoded.
    now destruct (codec_decode _ data). }
  assert (Hc : forall d, BodyPartText.get_charset d b'
                         = BodyPartText.get_charset d b).
  { intros d. unfold BodyPartText.get_charset. now rewrite Hh. }
  repeat split.
  - intros e He. rewrite E. unfold BodyPartText.encoding_or_charset.
    destruct e; [contradiction|reflexivity].
  - intros enc c Henc Hcs. rewrite E. f_equal.
    unfold BodyPartText.encoding_or_charset. rewrite Hc.
    clear Hc. unfold BodyPartText.get_charset in *.
    set (cs := pget _ _) in *.
    destruct cs; [|discriminate]. injection Hcs as ->.
    now destruct Henc as [-> | ->].
  - intros enc Henc Hcs. rewrite E. f_equal.
    unfold BodyPartText.encoding_or_charset. rewrite Hc.
    clear Hc. unfold BodyPartText.get_charset in *.
    set (cs := pget _ _) in *.
    destruct cs; [discriminate|].
    now destruct Henc as [-> | ->].
Qed.

(** A part whose Content-Type names the charset [utf-8], read as
    such, and read with the name of a codec that does not exist. *)
Lemma text_picks_the_encoding_witness :
  (exists b' w',
     BodyPartText.text (L := Plain.Lib) (T := PlainText.Text)
       (ST := Buffered.Stream) 10 None
       (BodyPartReader.mk
          [("CONTENT-TYPE", "text/plain; charset=utf-8")%string]
          Examples.XBOUND 0 false None 0%Z [])
       (store (ST := Buffered.Stream) Examples.text_stream)
     = Ret (("one" ++ String "013" (String "010"
              ("two" ++ String "013" (String "010" ""))))%string, b', w'))
  /\ BodyPartText.text (L := Plain.Lib) (T := PlainText.Text)
       (ST := Buffered.Stream) 10 (Some "nope"%string)
       (BodyPartReader.mk
          [("CONTENT-TYPE", "text/plain; charset=utf-8")%string]
          Examples.XBOUND 0 false None 0%Z [])
       (store (ST := Buffered.Stream) Examples.text_stream)
     = Raise LookupError.
Proof.
  split.
  - eexists _, _.
    refine (proj1 (proj2 (text_picks_the_encoding (L := Plain.Lib)
                     (T := PlainText.Text) (ST := Buffered.Stream) 10
                     (BodyPartReader.mk
                        [("CONTENT-TYPE", "text/plain; charset=utf-8")%string]
                        Examples.XBOUND 0 false None 0%Z [])
                     _ _ (store (ST := Buffered.Stream) Examples.text_stream)
                     _ eq_refl))
              None "utf-8"%string (or_introl eq_refl) eq_refl).
  - refine (proj1 (text_picks_the_encoding (L := Plain.Lib)
                     (T := PlainText.Text) (ST := Buffered.Stream) 10
                     (BodyPartReader.mk
                        [("CONTENT-TYPE", "text/plain; charset=utf-8")%string]
                        Examples.XBOUND 0 false None 0%Z [])
                     _ _ (store (ST := Buffered.Stream) Examples.text_stream)
                     _ eq_refl)
              "nope"%string _).
    discriminate.
Defined.

(** ** Releasing a reader *)

Section Drain.

Context {L : Lib}.

Local Existing Instance Buffered.Stream.

Variable boundary : bytes.
Variable c : content_ref.
Variable hs : Headers.

Hypothesis boundary_has_no_lf : Wire.has_lf boundary = false.
Hypothesis boundary_is_stripped : rstrip boundary = boundary.

(** The release of the part that [next] has just yielded leaves the
    reader between two parts. *)
Lemma runs_release_fresh (p : Wire.part) (ps : list Wire.part)
  (fuel : nat) :
  Wire.well_formed_part boundary p = true ->
  (List.length (Wire.between p ++ Wire.render boundary ps) <= fuel)%nat ->
  exists b' s',
    runs (BodyPartReader.release fuel (Position.fresh_part boundary c p))
      c (Wire.between p ++ Wire.render boundary ps) b' s'
    /\ Position.in_part boundary c (Wire.render boundary ps) b' s'
    /\ (List.length s' <= List.length (Wire.render boundary ps))%nat.
Proof.
  intros Hp Hf.
  pose proof (fresh_part_in_part boundary c p (Wire.render boundary ps) Hp)
    as Hin.
  destruct (runs_release_in_part boundary c boundary_has_no_lf
              boundary_is_stripped ps _ _ fuel Hin Hf)
    as (b' & s' & Hrun & Hcases & _).
  simpl in Hrun.
  assert (He : BodyPartReader._at_eof b' = true).
  { destruct (Hrun (store (ST := Buffered.Stream)
                      (Wire.between p ++ Wire.render boundary ps))
                eq_refl) as (w' & E & _).
    eapply release_ends; exact E. }
  pose proof (render_next_line boundary ps) as Hr.
  exists b', s'. split; [exact Hrun|].
  destruct Hcases as [(Hu & ->) | (Hu & ->)].
  - split; [now apply Position.past_bytes|lia].
  - split.
    + eapply Position.past_lines; [exact He|exact Hu|exact Hr|].
      now apply next_line_complete.
    + rewrite Hr, length_app. lia.
Qed.

Lemma runs_release_between (ps : list Wire.part) :
  forallb (Wire.well_formed_part boundary) ps = true ->
  forall (r : MultipartReader.t) (s : bytes) (fuel : nat),
    Position.between_parts boundary c hs ps r s ->
    (List.length s < fuel)%nat ->
    runs (MultipartReader.release fuel r) c s
      (MultipartReader.mk hs boundary c None true []) [].
Proof.
  induction ps as [|p ps IH]; intros Hwf r s fuel Hpos Hf;
    (destruct fuel as [|fuel]; [lia|]);
    pose proof (runs_next_between boundary c hs boundary_has_no_lf
                  boundary_is_stripped _ r s fuel Hwf Hpos
                  ltac:(lia)) as Hnext;
    assert (He : MultipartReader._at_eof r = false) by (now destruct Hpos);
    simpl MultipartReader.release; rewrite He;
    fold (MultipartReader.part_release fuel);
    fold (MultipartReader.next fuel).
  - cbv iota in Hnext.
    eapply runs_bind; [exact Hnext|]. apply runs_ret.
  - cbv iota zeta in Hnext.
    pose proof (between_parts_length boundary c hs boundary_has_no_lf
                  boundary_is_stripped _ r s Hpos) as Hlen.
    simpl Position.after_line in Hlen.
    pose proof (header_block_length p) as Hh.
    rewrite length_app in Hlen.
    simpl in Hwf. apply andb_true_iff in Hwf as [Hp Hps].
    destruct (runs_release_fresh p ps fuel Hp ltac:(lia))
      as (b' & s' & Hrel & Hin & Hlen').
    rewrite length_app in Hlen.
    pose proof (IH Hps
                  (MultipartReader.mk hs boundary c
                     (Some (MultipartReader.BodyPart b')) false [])
                  s' fuel (@Position.after_part boundary c hs ps b' s' Hin)
                  ltac:(lia)) as Hrest.
    eapply runs_bind; [exact Hnext|]. cbv iota beta.
    simpl MultipartReader._last_part. cbv iota.
    eapply runs_bind.
    { unfold MultipartReader.part_release, MultipartReader.part_release_with.
      eapply runs_bind; [exact Hrel|]. apply runs_ret. }
    exact Hrest.
Qed.

End Drain.

(** X17.  On a response that holds a well-formed body in full,
    [release] of the reader, called at the start of the body or between
    two parts, whether the part before was read, read in part or not at
    all, consumes the whole rest of the body and leaves the reader at
    the end, with no part and an empty pushback.  Enough fuel is more
    than the length of what is left. *)
Theorem release_drains_the_body {L : Lib} (boundary : bytes)
  (ps : list Wire.part) (hs : Headers) (c : content_ref)
  (r : MultipartReader.t) (s : bytes) (fuel : nat) :
  Wire.well_formed boundary ps = true ->
  Position.between_parts boundary c hs ps r s ->
  (List.length s < fuel)%nat ->
  runs (ST := Buffered.Stream) (MultipartReader.release fuel r) c s
    (MultipartReader.mk hs boundary c None true []) [].
Proof.
  intros Hwf Hpos Hf.
  destruct (well_formed_boundary_of boundary ps Hwf) as [Hlf Hst].
  unfold Wire.well_formed in Hwf. apply andb_true_iff in Hwf as [_ Hps].
  now apply (runs_release_between boundary c hs Hlf Hst ps Hps).
Qed.

(** The scenario released from its start. *)
Lemma release_drains_the_body_witness :
  runs (ST := Buffered.Stream)
    (MultipartReader.release (L := Plain.Lib) 200
       (MultipartReader.mk [] Examples.XBOUND 0 None false []))
    0 Examples.scenario
    (MultipartReader.mk [] Examples.XBOUND 0 None true []) [].
Proof.
  apply (release_drains_the_body (L := Plain.Lib) Examples.XBOUND
           [Examples.json_part; Examples.hello_wire] [] 0).
  - vm_compute. reflexivity.
  - apply Position.at_start.
  - vm_compute. lia.
Defined.

(** ** Headers that the constructors refuse *)

(** X18.  Once [next] has read the header block of a part, the
    constructor of the part reader may still fail: a Content-Length
    that is not an integer raises [ValueError], and a multipart
    Content-Type without a [boundary] parameter raises [KeyError].
    The header block is consumed by then. *)
Theorem part_with_bad_headers_is_refused {L : Lib} {ST : Stream}
  (fuel : nat) (self : MultipartReader.t) (hs : Headers) (w w1 : world) :
  MultipartReader._read_headers fuel self w = Ret (hs, w1) ->
  (forall v,
     mtype (parse_mimetype (Wire.content_type hs)) <> "multipart"%string ->
     hget hdrs.CONTENT_LENGTH hs = Some v -> py_int v = None ->
     MultipartReader.fetch_next_part fuel self w = Raise ValueError)
  /\ (mtype (parse_mimetype (Wire.content_type hs)) = "multipart"%string ->
      pget "boundary" (params (parse_mimetype (Wire.content_type hs)))
        = None ->
      MultipartReader.fetch_next_part fuel self w = Raise KeyError).
Proof.
  intros H. unfold MultipartReader.fetch_next_part.
  rewrite (bind_Ret _ _ H). unfold MultipartReader._get_part_reader.
  fold (Wire.content_type hs). split.
  - intros v Hm Hl Hv. apply String.eqb_neq in Hm. rewrite Hm.
    unfold BodyPartReader.init, bind. now rewrite Hl, Hv.
  - intros Hm Hb. rewrite Hm. simpl.
    unfold MultipartReader.init, MultipartReader._get_boundary, bind.
    unfold Wire.content_type in Hm, Hb.
    destruct (hget hdrs.CONTENT_TYPE hs) as [ctype|]; [|reflexivity].
    simpl. rewrite Hm. simpl. now rewrite Hb.
Qed.

(** A part that declares the length [abc]. *)
Lemma part_with_bad_headers_is_refused_witness :
  MultipartReader.fetch_next_part (L := Plain.Lib) (ST := Buffered.Stream)
    10 Examples.reader
    (store (ST := Buffered.Stream)
       (Examples.ln "Content-Length: abc" ++ Examples.ln ""
        ++ Examples.hello_stream))
  = Raise ValueError.
Proof.
  refine (proj1 (part_with_bad_headers_is_refused (L := Plain.Lib)
                   (ST := Buffered.Stream) 10 Examples.reader
                   [("CONTENT-LENGTH", "abc")%string]
                   (store (ST := Buffered.Stream)
                      (Examples.ln "Content-Length: abc" ++ Examples.ln ""
                       ++ Examples.hello_stream))
                   _ eq_refl)
            "abc"%string _ eq_refl eq_refl).
  vm_compute. discriminate.
Defined.

(** ** Lines and the rest of a payload *)

Lemma line_calls_at_eof {L : Lib} {ST : Stream} (k : nat)
  (b : BodyPartReader.t) (w : world) :
  BodyPartReader._at_eof b = true ->
  Caller.line_calls k b w = Ret ([], b, w).
Proof.
  intros He. induction k as [|k IH]; simpl; [reflexivity|].
  rewrite (bind_Ret _ _ (readline_at_eof b w He)).
  now rewrite (bind_Ret _ _ IH).
Qed.

(** X19.  On a response that has arrived in full, [readline] calls on
    a part without a declared length deliver the lines of the payload
    in order, each once, and a [read] after them returns the lines that
    are left, up to the boundary line.  The boundary line is taken from
    the stream and kept in the pushback of the part, whichever call
    met it. *)
Theorem lines_then_read_give_the_payload {L : Lib} (bl r : bytes)
  (fuel k : nat) :
  forall (ls : list bytes) (b : BodyPartReader.t),
    BodyPartReader._at_eof b = false ->
    BodyPartReader._length b = None ->
    Forall Position.complete ls ->
    Forall (fun l => Wire.matches_boundary (BodyPartReader._boundary b) l
                     = false) ls ->
    Position.complete bl ->
    Wire.matches_boundary (BodyPartReader._boundary b) bl = true ->
    (List.length ls < fuel)%nat ->
    let b' := BodyPartReader.set_unread (BodyPartReader._unread b ++ [bl])
                (BodyPartReader.set_at_eof true b) in
    exists d1 b1 s1 d2,
      runs (ST := Buffered.Stream) (Caller.line_calls k b)
        (BodyPartReader._content b) (List.concat ls ++ bl ++ r) (d1, b1) s1
      /\ runs (ST := Buffered.Stream) (BodyPartReader.read fuel false b1)
           (BodyPartReader._content b) s1 (d2, b') r
      /\ d1 = List.concat (firstn k ls)
      /\ d1 ++ d2 = List.concat ls.
Proof.
  induction k as [|k IH]; intros ls b He Hl Hc Hm Hbl Hb Hf b'.
  { exists [], b, (List.concat ls ++ bl ++ r), (List.concat ls).
    split; [apply runs_ret|]. split; [|now split].
    unfold BodyPartReader.read. rewrite He, Hl.
    eapply runs_bind.
    { apply (runs_read_lines b bl r ls He Hc Hm Hbl Hb fuel [] Hf). }
    simpl. apply runs_ret. }
  destruct ls as [|l ls].
  - exists [], b', r, []. simpl List.concat. simpl app.
    split; [|split; [|now split]].
    + simpl Caller.line_calls.
      eapply runs_bind; [now apply runs_readline_boundary|]. simpl.
      intros w Hw.
      rewrite (bind_Ret _ _ (line_calls_at_eof k b' w eq_refl)).
      now exists w.
    + intros w Hw. rewrite (read_at_eof fuel false b' w eq_refl).
      now exists w.
  - inversion Hc as [|? ? Hcl Hcls]. inversion Hm as [|? ? Hml Hmls].
    destruct (IH ls b He Hl Hcls Hmls Hbl Hb ltac:(simpl in Hf; lia))
      as (d1 & b1 & s1 & d2 & Hcalls & Hread & Hd1 & Hcat).
    exists (l ++ d1), b1, s1, d2.
    split; [|split; [exact Hread|split]].
    + simpl Caller.line_calls. simpl List.concat. rewrite <- app_assoc.
      eapply runs_bind; [now apply runs_readline_line|]. simpl.
      eapply runs_bind; [exact Hcalls|]. apply runs_ret.
    + simpl. now rewrite Hd1.
    + simpl. now rewrite <- app_assoc, Hcat.
Qed.

(** Two lines of payload: one [readline], then [read]. *)
Lemma lines_then_read_give_the_payload_witness :
  exists d1 b1 s1 d2,
    runs (ST := Buffered.Stream) (Caller.line_calls 1 Examples.text_part)
      0 Examples.text_stream (d1, b1) s1
    /\ runs (ST := Buffered.Stream)
         (BodyPartReader.read (L := Plain.Lib) 10 false b1) 0 s1
         (d2, BodyPartReader.mk [] Examples.XBOUND 0 true None 0%Z
                [Examples.ln "--XBOUND--"])
         []
    /\ d1 = Examples.ln "one"
    /\ d1 ++ d2 = Examples.ln "one" ++ Examples.ln "two".
Proof.
  destruct (lines_then_read_give_the_payload (L := Plain.Lib)
              (Examples.ln "--XBOUND--") [] 10 1
              [Examples.ln "one"; Examples.ln "two"] Examples.text_part
              eq_refl eq_refl)
    as (d1 & b1 & s1 & d2 & H1 & H2 & H3 & H4).
  - repeat constructor; [exists (bytes_of "one" ++ [x0d])
                        |exists (bytes_of "two" ++ [x0d])];
      split; reflexivity.
  - repeat constructor.
  - exists (bytes_of "--XBOUND--" ++ [x0d]). split; reflexivity.
  - reflexivity.
  - simpl. lia.
  - exists d1, b1, s1, d2. repeat split; assumption.
Defined.

(** ** A part with an empty payload *)

(** X20.  On a response that has arrived in full, the first [next] of a
    part that declares a length of zero returns [None], as it does on a
    part at its end: it consumes the line terminator after the empty
    payload and ends the part. *)
Theorem empty_payload_reads_as_none {L : Lib} (b : BodyPartReader.t)
  (r : bytes) (fuel : nat) :
  BodyPartReader._at_eof b = false ->
  BodyPartReader._length b = Some 0%Z ->
  BodyPartReader._read_bytes b = 0%Z ->
  fst (take_line r) = CRLF ->
  runs (ST := Buffered.Stream) (BodyPartReader.next (S fuel) b)
    (BodyPartReader._content b) r
    (None,
     BodyPartReader.mk (BodyPartReader.headers b) (BodyPartReader._boundary b)
       (BodyPartReader._content b) true (Some 0%Z) 0%Z
       (BodyPartReader._unread b))
    (snd (take_line r)).
Proof.
  intros He Hl Hrb Hline. unfold BodyPartReader.next.
  eapply runs_bind.
  { apply (runs_read_declared 0 b [] r (S fuel) He Hl); [|simpl; lia|exact Hline].
    rewrite Hrb. reflexivity. }
  apply runs_ret.
Qed.

(** A part of no bytes before the closing boundary line. *)
Lemma empty_payload_reads_as_none_witness :
  runs (ST := Buffered.Stream)
    (BodyPartReader.next (L := Plain.Lib) 1
       (BodyPartReader.mk [("CONTENT-LENGTH", "0")%string] Examples.XBOUND 0
          false (Some 0%Z) 0%Z []))
    0 (CRLF ++ Examples.ln "--XBOUND--")
    (None,
     BodyPartReader.mk [("CONTENT-LENGTH", "0")%string] Examples.XBOUND 0
       true (Some 0%Z) 0%Z [])
    (Examples.ln "--XBOUND--").
Proof.
  apply (empty_payload_reads_as_none (L := Plain.Lib)
           (BodyPartReader.mk [("CONTENT-LENGTH", "0")%string]
              Examples.XBOUND 0 false (Some 0%Z) 0%Z [])
           (CRLF ++ Examples.ln "--XBOUND--") 0
           eq_refl eq_refl eq_refl eq_refl).
Defined.

(** ** The pushback of the reader *)

Lemma reader_pushback_ok_eq (r : MultipartReader.t) :
  reader_pushback_ok r <->
  MultipartReader._unread r = []
  /\ match MultipartReader._last_part r with
     | Some p => part_pushback_ok p
     | None => True
     end.
Proof. destruct r as [h b c [[p|m]|] e u]; simpl; tauto. Qed.

Lemma part_unread_short (p : MultipartReader.part) :
  part_pushback_ok p ->
  MultipartReader.part_unread p = []
  \/ exists l, MultipartReader.part_unread p = [l].
Proof.
  destruct p as [b|m]; simpl.
  - unfold Calls.pushback_ok.
    destruct (BodyPartReader._unread b) as [|l [|l' u]]; intros H.
    + now left.
    + right. now exists l.
    + contradiction.
  - intros H. apply reader_pushback_ok_eq in H as [H _]. now left.
Qed.

Section ReaderPushback.

Context {L : Lib} {ST : Stream}.

Import MultipartReader.

Lemma body_release_pushback (fuel : nat) (b b' : BodyPartReader.t)
  (w w' : world) :
  BodyPartReader.release fuel b w = Ret (b', w') ->
  Calls.pushback_ok b -> Calls.pushback_ok b'.
Proof.
  apply (lift_release
           (fun b b' => Calls.pushback_ok b -> Calls.pushback_ok b')
           (fun _ => True)
           (fun b H => H) (fun a b c H1 H2 H => H2 (H1 H)) I
           (fun n b d b' w w' _ H => read_chunk_pushback n b b' d w w' H)
           (fun b d b' w w' H => readline_pushback b b' d w w' H)).
Qed.

Lemma fetch_next_part_pushback (fuel : nat) (self : t) (p : part)
  (w w' : world) :
  fetch_next_part fuel self w = Ret (p, w') -> part_pushback_ok p.
Proof.
  unfold fetch_next_part. intros H.
  apply bind_inv in H as (hs & w1 & _ & H).
  unfold _get_part_reader in H.
  destruct (String.eqb _ _).
  - apply bind_inv in H as (m & w2 & Hi & H). injection H as <- <-.
    apply init_inv in Hi as (ctype & bd & _ & _ & _ & -> & _).
    simpl. now split.
  - apply bind_inv in H as (b & w2 & Hi & H). injection H as <- <-.
    apply body_init_inv in Hi as (len & -> & _). exact I.
Qed.

Section OverRelease.

Variable part_release : part -> M part.

Hypothesis part_release_pushback :
  forall p p' w w',
    part_release p w = Ret (p', w') ->
    part_pushback_ok p -> part_pushback_ok p'.

Lemma next_with_pushback (fuel : nat) (self self' : t)
  (item : option part) (w w' : world) :
  next_with part_release fuel self w = Ret (item, self', w') ->
  reader_pushback_ok self -> reader_pushback_ok self'.
Proof.
  unfold next_with. destruct (_at_eof self).
  { intros H. now injection H as <- <- <-. }
  intros H Hok. apply reader_pushback_ok_eq in Hok as [Hu Hp].
  apply bind_inv in H as (self1 & w1 & H1 & H).
  assert (Hu1 : (_unread self1 = [] \/ exists l, _unread self1 = [l])
                /\ _last_part self1 = None).
  { unfold _maybe_release_last_part_with in H1.
    destruct (_last_part self) as [p|] eqn:Elp.
    - apply bind_inv in H1 as (p' & w0 & Hrel & H1).
      injection H1 as <- <-.
      assert (Hp' : part_pushback_ok p').
      { destruct (negb (part_at_eof p)).
        - eapply part_release_pushback; eassumption.
        - now injection Hrel as <- <-. }
      destruct self; simpl in *. subst. split; [|reflexivity].
      now apply part_unread_short.
    - injection H1 as <- <-. split; [now left|exact Elp]. }
  destruct Hu1 as [Hu1 Hp1].
  apply bind_inv in H as (self2 & w2 & H2 & H).
  assert (Hu2 : _unread self2 = [] /\ _last_part self2 = None).
  { unfold _read_boundary in H2.
    apply bind_inv in H2 as ([line self3] & w3 & H3 & H2).
    assert (Hu3 : _unread self3 = [] /\ _last_part self3 = None).
    { unfold _readline in H3. destruct Hu1 as [Hu1|(l & Hu1)]; rewrite Hu1 in H3.
      - simpl in H3. apply bind_inv in H3 as (l & w4 & _ & H3).
        injection H3 as <- <- <-. now split.
      - simpl in H3. injection H3 as <- <- <-.
        destruct self1; simpl in *. now split. }
    destruct (bytes_eqb _ _).
    - now injection H2 as <- <-.
    - destruct (bytes_eqb _ _); [|discriminate].
      injection H2 as <- <-. destruct self3; simpl in *. exact Hu3. }
  destruct Hu2 as [Hu2 Hp2].
  destruct (_at_eof self2).
  - injection H as <- <- <-. apply reader_pushback_ok_eq.
    rewrite Hu2, Hp2. now split.
  - apply bind_inv in H as (p & w3 & Hf & H).
    injection H as <- <- <-. apply fetch_next_part_pushback in Hf.
    apply reader_pushback_ok_eq. destruct self2; simpl in *. now split.
Qed.

End OverRelease.

Lemma release_pushback (fuel : nat) :
  forall (self self' : t) (w w' : world),
    release fuel self w = Ret (self', w') ->
    reader_pushback_ok self -> reader_pushback_ok self'.
Proof.
  induction fuel as [|fuel IH]; intros self self' w w'; simpl;
    destruct (_at_eof self); intros H;
    try (now injection H as <- <-); try discriminate.
  assert (Hpr : forall p p' w w',
            part_release_with (release fuel) fuel p w = Ret (p', w') ->
            part_pushback_ok p -> part_pushback_ok p').
  { intros [b|m] p' w0 w0' Hrel; simpl in Hrel;
      apply bind_inv in Hrel as (x & w1 & Hx & Hrel);
      injection Hrel as <- <-; simpl.
    - eapply body_release_pushback; exact Hx.
    - eapply IH; exact Hx. }
  intros Hok.
  apply bind_inv in H as ([item self1] & w1 & H1 & H).
  apply (next_with_pushback _ Hpr) in H1; [|exact Hok].
  destruct item as [p|]; [|now injection H as <- <-].
  destruct (_last_part self1) as [p1|] eqn:Elp; [|now injection H as <- <-].
  apply bind_inv in H as (p' & w2 & Hrel & H).
  apply IH in H; [exact H|].
  apply reader_pushback_ok_eq in H1 as [Hu Hp]. rewrite Elp in Hp.
  apply reader_pushback_ok_eq. destruct self1; simpl in *.
  split; [exact Hu|]. eapply Hpr; eassumption.
Qed.

Lemma reader_run_pushback (k : Calls.reader_call) (r r' : t) (w w' : world) :
  Calls.reader_run k r w = Ret (r', w') ->
  reader_pushback_ok r -> reader_pushback_ok r'.
Proof.
  destruct k as [fuel|fuel|k]; simpl; intros H Hok.
  - apply bind_inv in H as ([item r1] & w1 & H1 & H).
    injection H as <- <-. unfold next in H1.
    eapply next_with_pushback; [|exact H1|exact Hok].
    intros [b|m] p' w0 w0' Hrel; unfold part_release in Hrel;
      simpl in Hrel; apply bind_inv in Hrel as (x & w2 & Hx & Hrel);
      injection Hrel as <- <-; simpl.
    + eapply body_release_pushback; exact Hx.
    + eapply release_pushback; exact Hx.
  - eapply release_pushback; eassumption.
  - apply bind_inv in H as ([u r1] & w1 & H1 & H).
    injection H as <- <-. unfold on_last_part in H1.
    apply reader_pushback_ok_eq in Hok as [Hu Hp].
    destruct (_last_part r) as [[b|m]|] eqn:Elp; try discriminate.
    apply bind_inv in H1 as ([a b'] & w2 & H2 & H1).
    injection H1 as <- <- <-.
    apply bind_inv in H2 as (b1 & w3 & H3 & H2).
    injection H2 as <- <- <-.
    apply reader_pushback_ok_eq. destruct r; simpl in *.
    split; [exact Hu|].
    apply (lift_run
             (fun b b' => Calls.pushback_ok b -> Calls.pushback_ok b')
             (fun _ => True)
             (fun b H => H) (fun a b c H1 H2 H => H2 (H1 H)) I
             (fun n b d b' w w' _ H => read_chunk_pushback n b b' d w w' H)
             (fun b d b' w w' H => readline_pushback b b' d w w' H)
             k b b1 w w3); [|exact H3|exact Hp].
    destruct k; exact I.
Qed.

End ReaderPushback.

(** X21.  Between the calls of its caller the pushback of a reader is
    empty: the boundary line that a part met and pushed back is handed
    to the reader by the following [next] and consumed by it as the
    boundary, so that no line is left over or read twice.  This holds
    of a reader as constructed and after every sequence of calls on the
    reader and on the part yielded last, nested readers included. *)
Theorem reader_pushback_is_consumed {L : Lib} {ST : Stream}
  (ks : list Calls.reader_call) :
  forall (r r' : MultipartReader.t) (w w' : world),
    reader_pushback_ok r ->
    Calls.reader_run_all ks r w = Ret (r', w') ->
    reader_pushback_ok r' /\ MultipartReader._unread r' = [].
Proof.
  assert (Hgen : forall (r r' : MultipartReader.t) (w w' : world),
            reader_pushback_ok r ->
            Calls.reader_run_all ks r w = Ret (r', w') ->
            reader_pushback_ok r').
  { induction ks as [|k ks IH]; intros r r' w w' Hok H; simpl in H.
    - now injection H as <- <-.
    - apply bind_inv in H as (r1 & w1 & H1 & H).
      eapply IH; [|exact H]. eapply reader_run_pushback; eassumption. }
  intros r r' w w' Hok H. pose proof (Hgen r r' w w' Hok H) as Hok'.
  split; [exact Hok'|]. now apply reader_pushback_ok_eq in Hok'.
Qed.

(** The scenario: a part, one line of it, which is its last, a further
    [readline], which meets the boundary, and the next part. *)
Lemma reader_pushback_is_consumed_witness :
  exists r' w',
    Calls.reader_run_all (L := Plain.Lib) (ST := Buffered.Stream)
      [Calls.ReaderNext 10; Calls.OnPart Calls.Readline;
       Calls.OnPart Calls.Readline; Calls.ReaderNext 10]
      Examples.reader (store (ST := Buffered.Stream) Examples.scenario)
    = Ret (r', w')
    /\ MultipartReader._unread r' = [].
Proof.
  eexists _, _. split; [vm_compute; reflexivity|].
  apply (proj2 (reader_pushback_is_consumed (L := Plain.Lib)
                  (ST := Buffered.Stream)
                  [Calls.ReaderNext 10; Calls.OnPart Calls.Readline;
                   Calls.OnPart Calls.Readline; Calls.ReaderNext 10]
                  Examples.reader _
                  (store (ST := Buffered.Stream) Examples.scenario) _
                  (conj eq_refl I) eq_refl)).
Defined.

(** ** The header block of a part *)

(** X22.  On a response that has arrived in full, [fetch_next_part]
    at the header block of a well-formed part consumes the header
    block, the empty line included, and nothing of the payload, and
    returns a body part reader with the parsed headers, the boundary
    and the content stream of the reader, the declared length, and
    nothing read yet. *)
Theorem fetch_next_part_reads_the_header_block {L : Lib}
  (self : MultipartReader.t) (p : Wire.part) (rest : bytes) (fuel : nat) :
  Wire.well_formed_part (MultipartReader._boundary self) p = true ->
  (List.length (Wire.header_lines p) < fuel)%nat ->
  runs (ST := Buffered.Stream) (MultipartReader.fetch_next_part fuel self)
    (MultipartReader._content self) (Wire.header_block p ++ rest)
    (MultipartReader.BodyPart
       (Position.fresh_part (MultipartReader._boundary self)
          (MultipartReader._content self) p))
    rest.
Proof.
  intros Hp Hf.
  destruct (well_formed_part_inv _ p Hp) as (Hlf & Hb & Hm & Hlen & _).
  unfold MultipartReader.fetch_next_part. eapply runs_bind.
  - apply runs__read_headers with (p := p);
      [reflexivity|exact Hlf|exact Hb|exact Hf].
  - intros w Hw. exists w. split; [|exact Hw].
    apply _get_part_reader_body; [exact Hm|exact Hlen].
Qed.

(** The second part of the scenario. *)
Lemma fetch_next_part_reads_the_header_block_witness :
  runs (ST := Buffered.Stream)
    (MultipartReader.fetch_next_part (L := Plain.Lib) 5 Examples.reader) 0
    (Wire.header_block Examples.hello_wire ++ Examples.hello_stream)
    (MultipartReader.BodyPart
       (BodyPartReader.mk
          [("CONTENT-TYPE", "text/plain; charset=utf-8");
           ("CONTENT-LENGTH", "5")]%string
          Examples.XBOUND 0 false (Some 5%Z) 0%Z []))
    Examples.hello_stream.
Proof.
  apply (fetch_next_part_reads_the_header_block (L := Plain.Lib)
           Examples.reader Examples.hello_wire Examples.hello_stream 5).
  - vm_compute. reflexivity.
  - simpl. lia.
Defined.

(** ** A payload that arrives in pieces *)

Section ShortDelivery.

Context {L : Lib} {ST : Stream}.

Lemma runs_line_check {A} (a : A) (c : content_ref) (s : stream) :
  fst (s_readline s) = CRLF ->
  runs (l <- content_readline c ;; assert (bytes_eqb CRLF l) ;;; ret a)
    c s a (snd (s_readline s)).
Proof.
  intros Hl. eapply runs_bind; [apply runs_content_readline|].
  rewrite Hl. intros w Hw. exists w. split; [reflexivity|exact Hw].
Qed.

Lemma fails_line_check {A} (a : A) (c : content_ref) (s : stream) :
  fst (s_readline s) <> CRLF ->
  fails (l <- content_readline c ;; assert (bytes_eqb CRLF l) ;;; ret a)
    c s AssertionError.
Proof.
  intros Hl. eapply fails_after; [apply runs_content_readline|].
  assert (E : bytes_eqb CRLF (fst (s_readline s)) = false).
  { apply bytes_eqb_neq. congruence. }
  intros w _. unfold bind. now rewrite E.
Qed.

(** X23.  [read] asks the stream once for the bytes of a part that
    declares at most 8192 of them, and takes what one delivery holds
    for the payload: whatever the stream delivers, the part is at its
    end after that one request, and the next line of the stream is
    checked for the line terminator.  A payload that arrives in two
    deliveries is returned cut short, or fails the check. *)
Theorem read_takes_one_delivery (b : BodyPartReader.t) (len : Z)
  (s : stream) (fuel : nat) (flag : bool) :
  BodyPartReader._at_eof b = false ->
  BodyPartReader._length b = Some len ->
  (0 <= len - BodyPartReader._read_bytes b <= BodyPartReader.chunk_size)%Z ->
  let delivery := s_read (len - BodyPartReader._read_bytes b) s in
  let b' := BodyPartReader.mk (BodyPartReader.headers b)
              (BodyPartReader._boundary b) (BodyPartReader._content b)
              true (Some len) len (BodyPartReader._unread b) in
  (fst (s_readline (snd delivery)) = CRLF ->
   runs (BodyPartReader.read (S fuel) false b) (BodyPartReader._content b) s
     (fst delivery, b') (snd (s_readline (snd delivery))))
  /\ (fst (s_readline (snd delivery)) <> CRLF ->
      fails (BodyPartReader.read (S fuel) flag b)
        (BodyPartReader._content b) s AssertionError).
Proof.
  intros He Hl Hn delivery b'.
  assert (Hloop : runs (BodyPartReader.read_chunks (S fuel) [] b)
                    (BodyPartReader._content b) s
                    (fst delivery, b') (snd delivery)).
  { intros w Hw. simpl BodyPartReader.read_chunks. rewrite He.
    pose proof (read_chunk_open BodyPartReader.chunk_size len b w He Hl)
      as E. cbv zeta in E.
    rewrite Z.min_r, Hw in E by lia. fold delivery in E.
    destruct delivery as [chunk s1].
    replace (BodyPartReader._read_bytes b
             + (len - BodyPartReader._read_bytes b))%Z with len in E by lia.
    rewrite Z.eqb_refl in E. fold b' in E.
    rewrite (bind_Ret _ _ E). simpl.
    exists (upd (BodyPartReader._content b) s1 w).
    split; [|apply upd_same].
    destruct fuel; reflexivity. }
  unfold BodyPartReader.read. rewrite He, Hl. split; intros Hline.
  - eapply runs_bind.
    { eapply runs_bind; [exact Hloop|].
      apply (runs_line_check (fst delivery, b') _ _ Hline). }
    simpl. apply runs_ret.
  - apply fails_bind. eapply fails_after; [exact Hloop|].
    apply (fails_line_check (fst delivery, b') _ _ Hline).
Qed.

End ShortDelivery.

(** [hello] in the deliveries [he] and [llo]: the second is met where
    the line terminator is expected. *)
Lemma read_takes_one_delivery_witness :
  fails (ST := Chunked.Stream)
    (BodyPartReader.read (L := Plain.Lib) 1 false Examples.hello_part) 0
    Examples.hello_pieces AssertionError.
Proof.
  refine (proj2 (read_takes_one_delivery (L := Plain.Lib)
                   (ST := Chunked.Stream) Examples.hello_part 5
                   Examples.hello_pieces 0 false eq_refl eq_refl _) _).
  - vm_compute. split; discriminate.
  - vm_compute. discriminate.
Defined.

(** ** JSON and text *)

(** X24.  For a payload that is not empty, and an encoding that is
    given with the call or named by the [charset] of the Content-Type,
    [json] parses exactly the text that [text] returns; a text that
    the parser refuses is a [ValueError].  The two methods differ only
    in the encoding they fall back on. *)
Theorem json_parses_what_text_returns {L : Lib} {T : Text} {ST : Stream}
  (fuel : nat) (enc : option string) (b b' : BodyPartReader.t)
  (data : bytes) (s : string) (w w' : world) :
  BodyPartReader.read fuel true b w = Ret (data, b', w') ->
  data <> [] ->
  (exists e, enc = Some e /\ e <> ""%string)
  \/ (exists c, BodyPartText.get_charset None b = Some c) ->
  BodyPartText.text fuel enc b w = Ret (s, b', w') ->
  BodyPartText.json fuel enc b w
  = match json_loads s with
    | Some j => Ret (Some j, b', w')
    | None => Raise ValueError
    end.
Proof.
  intros H Hd Henc Ht.
  pose proof (read_keeps_headers fuel true b b' data w w' H) as Hh.
  assert (E : BodyPartText.encoding_or_charset enc "utf-8" b'
              = BodyPartText.encoding_or_charset enc "latin1" b').
  { unfold BodyPartText.encoding_or_charset, BodyPartText.get_charset.
    rewrite Hh. destruct Henc as [(e & -> & He) | (c & Hc)].
    - destruct e; [contradiction|reflexivity].
    - unfold BodyPartText.get_charset in Hc.
      set (cs := pget _ _) in *. destruct cs; [reflexivity|discriminate]. }
  unfold BodyPartText.text in Ht. rewrite (bind_Ret _ _ H) in Ht.
  cbv zeta in Ht. unfold bind in Ht.
  unfold BodyPartText.json. rewrite (bind_Ret _ _ H).
  destruct data as [|x data]; [contradiction|]. cbv zeta. rewrite E.
  unfold bind, BodyPartText.bytes_decode_with in Ht |- *.
  destruct (codec_decode _ (x :: data)) as [s0| |]; try discriminate.
  simpl in Ht |- *. injection Ht as ->.
  destruct (json_loads s); reflexivity.
Qed.

(** The payload [12345] read as ASCII text and as JSON. *)
Lemma json_parses_what_text_returns_witness :
  exists b' w',
    BodyPartText.json (L := Plain.Lib) (T := PlainText.Text)
      (ST := Buffered.Stream) 10 (Some "ascii"%string) Examples.hello_part
      (store (ST := Buffered.Stream)
         (Examples.ln "12345" ++ Examples.ln "--XBOUND--"))
    = Ret (Some 12345%Z, b', w').
Proof.
  eexists _, _.
  refine (json_parses_what_text_returns (L := Plain.Lib)
            (T := PlainText.Text) (ST := Buffered.Stream) 10
            (Some "ascii"%string) Examples.hello_part _ (bytes_of "12345")
            "12345"%string
            (store (ST := Buffered.Stream)
               (Examples.ln "12345" ++ Examples.ln "--XBOUND--")) _
            eq_refl _ _ eq_refl).
  - discriminate.
  - left. exists "ascii"%string. split; [reflexivity|discriminate].
Defined.
